(** * TS-Mock-Proxy: type resolution, routing, cache and start-up

    A shallow embedding of the TypeScript sources of TS-Mock-Proxy and the
    properties of its specification.

    Conventions of the embedding.
    - JavaScript strings are [string]; the model is exact on ASCII text
      (request paths, identifiers, header values).  [toUpperCase] is the
      ASCII one.
    - The [Map<string, string>] of the type catalogue is
      [gmap string string]: the catalogue code uses only [has], [get] and
      [set], so insertion order is not observable there.  The [Map] of the
      schema cache and the property tables of the OpenAPI document, whose
      order is observable, are association lists in insertion order
      (property tables with the integer-like keys first, as the language
      lists them).
    - The file system comes twice.  [fs.FileSystem] is a readable snapshot:
      the directory tree below every root and the text of every file.
      [faulty.FileSystem] is the same with calls that can throw; the
      catalogue is embedded over both, and the two agree on a readable
      tree.
    - [null] and [undefined] results are [None]; a thrown exception is an
      explicit error result.
    - Numbers are [Z] where the code only compares or prints integers that
      a double holds exactly, and [JS.Number] where rounding is observable.
    - Effects (cache, generator, log) are threaded explicitly through a
      [World]; the [express] and [cors] packages, the inflection package,
      the mock library and the upstream server are parameters (type
      classes). *)

From Stdlib Require Import ZArith Ascii.
From stdpp Require Import base option list strings gmap pretty.

Set Warnings "-register-all".
Local Open Scope Z_scope.

(** ** JavaScript primitives used by the sources *)

Module JS.

(** The one-character string made of a double quote. *)
Definition dquote : string := String (ascii_of_nat 34) EmptyString.

(** Truthiness of a string: every string but the empty one. *)
Definition truthy (s : string) : bool :=
  match s with
  | EmptyString => false
  | String _ _ => true
  end.

(** [a || b] on possibly undefined numbers. *)
Definition orNum (n : option Z) (d : Z) : Z :=
  match n with
  | Some v => if v =? 0 then d else v
  | None => d
  end.

Definition charIn (lo hi : nat) (c : ascii) : bool :=
  (lo <=? nat_of_ascii c)%nat && (nat_of_ascii c <=? hi)%nat.

Definition isLower (c : ascii) : bool := charIn 97 122 c.
Definition isUpper (c : ascii) : bool := charIn 65 90 c.
Definition isDigit (c : ascii) : bool := charIn 48 57 c.

(** The regular-expression class [\w]. *)
Definition isWord (c : ascii) : bool :=
  isLower c || isUpper c || isDigit c || Ascii.eqb c "_".

(** The class [\s] (also the white space skipped by [parseInt]):
    TAB, LF, VT, FF, CR, space and the no-break space. *)
Definition isSpace (c : ascii) : bool :=
  charIn 9 13 c || Ascii.eqb c " " || (nat_of_ascii c =? 160)%nat.

(** Line terminators, which [.] does not match. *)
Definition isLineTerminator (c : ascii) : bool :=
  (nat_of_ascii c =? 10)%nat || (nat_of_ascii c =? 13)%nat.

Definition toUpperCaseChar (c : ascii) : ascii :=
  if isLower c then ascii_of_nat (nat_of_ascii c - 32) else c.

(** [s.split(sep)] for a one-character separator. *)
Fixpoint split (sep : ascii) (s : string) : list string :=
  match s with
  | EmptyString => [EmptyString]
  | String c rest =>
      if Ascii.eqb c sep then EmptyString :: split sep rest
      else match split sep rest with
           | seg :: segs => String c seg :: segs
           | [] => [String c EmptyString]
           end
  end.

(** [s.endsWith(suffix)]. *)
Definition endsWith (s suffix : string) : bool :=
  String.eqb
    (String.substring (String.length s - String.length suffix)
       (String.length suffix) s)
    suffix.

(** [s.startsWith(p)], returning what follows the prefix. *)
Fixpoint stripPrefix (p s : string) : option string :=
  match p, s with
  | EmptyString, _ => Some s
  | String a p', String b s' =>
      if Ascii.eqb a b then stripPrefix p' s' else None
  | String _ _, EmptyString => None
  end.

(** The longest prefix of characters of a class, and the rest. *)
Fixpoint span (f : ascii → bool) (s : string) : string * string :=
  match s with
  | EmptyString => (EmptyString, EmptyString)
  | String c rest =>
      if f c then let '(a, b) := span f rest in (String c a, b)
      else (EmptyString, s)
  end.

(** Value of a run of decimal digits, most significant first. *)
Fixpoint digitsValue (acc : Z) (s : string) : Z :=
  match s with
  | EmptyString => acc
  | String c rest =>
      digitsValue (10 * acc + (Z.of_nat (nat_of_ascii c) - 48)) rest
  end.

(** [parseInt(s, 10)]: leading white space is skipped, an optional sign
    is read, then the longest run of decimal digits; [None] is [NaN].  The
    value is the integer the digits denote.  JavaScript returns it as a
    double, [toNumber] below: the same integer up to 2^53 in absolute
    value, a rounded one beyond.  The status override compares the value
    with 100 and 600, which the rounding cannot change, and keeps it only
    between them. *)
Definition parseInt (s : string) : option Z :=
  let s1 := snd (span isSpace s) in
  let '(neg, s2) :=
    match s1 with
    | String "-" r => (true, r)
    | String "+" r => (false, r)
    | _ => (false, s1)
    end in
  let ds := fst (span isDigit s2) in
  if truthy ds
  then Some (if neg then - digitsValue 0 ds else digitsValue 0 ds)
  else None.

(** A Number that is an integer, or infinite. *)
Inductive Number :=
| Finite (value : Z)
| Infinity (negative : bool).

(** The Number an integer becomes when it is stored: the integer itself
    up to 2^53 in absolute value; beyond, the nearest integer with 53
    significant bits, the even one of two that are as near, and an
    infinity from 2^1024 on.  This is the value [parseInt] returns for a
    decimal numeral in Node (the language standard allows an engine to be
    less exact from the 21st digit on). *)
Definition toNumber (z : Z) : Number :=
  let n := Z.abs z in
  if n <=? 2 ^ 53 then Finite z
  else
    let unit := 2 ^ (Z.log2 n - 52) in
    let quotient := n / unit in
    let remainder := n mod unit in
    let rounded :=
      if (unit <? 2 * remainder)
         || ((unit =? 2 * remainder) && Z.odd quotient)
      then quotient + 1
      else quotient in
    if 2 ^ 1024 <=? rounded * unit
    then Infinity (z <? 0)
    else Finite (Z.sgn z * (rounded * unit)).

End JS.

(** ** The [pluralize] package

    The inflection package is an npm dependency; the sources use two of its
    functions. *)

Class Pluralize := {
  isPlural : string → bool;
  singular : string → string;
}.

(** ** utils/pluralize.ts *)

Module pluralize.

(** First pass of [toPascalCase]: [replace(/[-_]+(.)?/g, ...)].  A run of
    separators is dropped and the character after it, if [.] matches it,
    is upper-cased. [afterSep] tells that a run has just been consumed. *)
Definition isSeparator (c : ascii) : bool :=
  Ascii.eqb c "-" || Ascii.eqb c "_".

Fixpoint replaceSeparators (afterSep : bool) (s : string) : string :=
  match s with
  | EmptyString => EmptyString
  | String c rest =>
      if isSeparator c then replaceSeparators true rest
      else if afterSep && negb (JS.isLineTerminator c)
           then String (JS.toUpperCaseChar c) (replaceSeparators false rest)
           else String c (replaceSeparators false rest)
  end.

(** Second pass: [replace(/^(.)/, ...)]. *)
Definition capitalizeFirst (s : string) : string :=
  match s with
  | EmptyString => EmptyString
  | String c rest =>
      if JS.isLineTerminator c then s
      else String (JS.toUpperCaseChar c) rest
  end.

Definition toPascalCase (str : string) : string :=
  capitalizeFirst (replaceSeparators false str).

Definition extractLastSegment (url : string) : string :=
  let segments := filter (λ s, JS.truthy s = true) (JS.split "/" url) in
  match last segments with
  | Some s => if JS.truthy s then s else EmptyString
  | None => EmptyString
  end.

Record TypeRef := { typeName : string; isArray : bool }.

Section WithPluralize.
Context `{Pluralize}.

Definition urlSegmentToTypeName (urlSegment : string) : TypeRef :=
  let plural := isPlural urlSegment in
  let single := if plural then singular urlSegment else urlSegment in
  {| typeName := toPascalCase single; isArray := plural |}.

Definition parseUrlToType (url : string) : TypeRef :=
  urlSegmentToTypeName (extractLastSegment url).

End WithPluralize.

End pluralize.

(** ** The file system seen by the scanner *)

Module fs.

(** A directory entry as [readdirSync(dir, { withFileTypes: true })]
    reports it; [Other] stands for entries that are neither a directory
    nor a regular file (symbolic links, sockets, ...). *)
Inductive Dirent :=
| File (name : string)
| Directory (name : string) (entries : list Dirent)
| Other (name : string).

(** [readdirSync root] is [None] when [existsSync root] is false, and
    otherwise the tree below [root]; [readFileSync] is the text of a
    file, by path.  No call of this snapshot fails; the calls that can
    throw are those of [faulty.FileSystem]. *)
Record FileSystem := {
  readdirSync : string → option (list Dirent);
  readFileSync : string → string;
}.

(** [path.join(dir, name)] for a resolved directory and an entry name. *)
Definition join (dir name : string) : string := dir +:+ "/" +:+ name.

(** [path.basename(p)]: the last non-empty component. *)
Definition basename (p : string) : string :=
  default EmptyString
    (last (filter (λ s, JS.truthy s = true) (JS.split "/" p))).

(** The directories [mkdirSync(p, { recursive: true })] makes sure exist:
    [p] and the directories above it. *)
Fixpoint parents (above : string) (p : string) : list string :=
  match p with
  | EmptyString => []
  | String c rest =>
      (if Ascii.eqb c "/" && JS.truthy above then [above] else [])
        ++ parents (above +:+ String c EmptyString) rest
  end.

Definition mkdirSyncRecursive (existing : gset string) (p : string)
  : gset string :=
  existing ∪ list_to_set (p :: parents EmptyString p).

End fs.

(** ** utils/typeMapping.ts *)

Module typeMapping.
Import fs.

Record RouteTypeMapping := {
  typeName : string;
  isArray : bool;
  filePath : string;
}.

Definition ignoredDirectories : list string :=
  ["node_modules"; "dist"; "build"; ".git"].

(** The inner function [scan], on the entries of an existing directory. *)
Fixpoint scanEntry (currentDir : string) (entry : Dirent) : list string :=
  match entry with
  | Directory name entries =>
      if bool_decide (name ∈ ignoredDirectories) then []
      else flat_map (scanEntry (join currentDir name)) entries
  | File name =>
      if JS.endsWith name ".ts" then [join currentDir name] else []
  | Other _ => []
  end.

(** One match of [/export\s+interface\s+(\w+)/] at the head of [s]:
    the captured name and what follows the match. *)
Definition matchInterface (s : string) : option (string * string) :=
  s1 ← JS.stripPrefix "export" s;
  let '(sp1, s2) := JS.span JS.isSpace s1 in
  if JS.truthy sp1 then
    s3 ← JS.stripPrefix "interface" s2;
    let '(sp2, s4) := JS.span JS.isSpace s3 in
    if JS.truthy sp2 then
      let '(name, s5) := JS.span JS.isWord s4 in
      if JS.truthy name then Some (name, s5) else None
    else None
  else None.

(** The [while ((match = interfaceRegex.exec(content)) !== null)] loop:
    capture group 1 of the successive matches.  [skip] counts the
    characters still covered by the previous match. *)
Fixpoint execAll (skip : nat) (s : string) : list string :=
  match s with
  | EmptyString => []
  | String _ rest =>
      match skip with
      | S k => execAll k rest
      | O =>
          match matchInterface s with
          | Some (name, after) =>
              name :: execAll (String.length rest - String.length after) rest
          | None => execAll 0 rest
          end
      end
  end.

Section WithFileSystem.
Context (disk : FileSystem).

Definition findTypeScriptFiles (dir : string) : list string :=
  match readdirSync disk dir with
  | None => []
  | Some entries => flat_map (scanEntry dir) entries
  end.

Definition extractInterfaceNames (filePath : string) : list string :=
  filter (λ name, JS.truthy name = true)
    (execAll 0 (readFileSync disk filePath)).

(** The three nested [for ... of] loops of [buildTypeMap]. *)
Definition addInterface (file : string)
    (typeMap : gmap string string) (interfaceName : string)
  : gmap string string :=
  match typeMap !! interfaceName with
  | Some _ => typeMap
  | None => <[interfaceName := file]> typeMap
  end.

Definition addFile (typeMap : gmap string string) (file : string)
  : gmap string string :=
  foldl (addInterface file) typeMap (extractInterfaceNames file).

Definition addDirectory (typeMap : gmap string string) (dir : string)
  : gmap string string :=
  foldl addFile typeMap (findTypeScriptFiles dir).

Definition buildTypeMap (directories : list string) : gmap string string :=
  foldl addDirectory ∅ directories.

Section WithPluralize.
Context `{Pluralize}.

Definition findTypeForUrl (url : string) (directories : list string)
  : option RouteTypeMapping :=
  let ref := pluralize.parseUrlToType url in
  let typeMap := buildTypeMap directories in
  match typeMap !! pluralize.typeName ref with
  | Some path =>
      if JS.truthy path
      then Some {| typeName := pluralize.typeName ref;
                   isArray := pluralize.isArray ref;
                   filePath := path |}
      else None
  | None => None
  end.

End WithPluralize.
End WithFileSystem.

End typeMapping.

(** ** Shared data: JSON values, configuration, requests, the event trace *)

(** A JSON value, as passed to [res.json]. *)
Inductive Json :=
| JNull
| JBool (b : bool)
| JNum (n : Z)
| JStr (s : string)
| JArr (items : list Json)
| JObj (fields : list (string * Json)).

(** types/config.ts: [ServerConfig], by the fields the sources read; a
    [port] of [None] is [NaN].  The port is the integer [parseInt] reads
    from the option, which is the Number stored for every port a socket
    can have (up to 2^53, in fact); the latency bounds are Numbers, as
    stored. *)
Record ServerConfig := {
  contractsDir : string;
  externalDirs : option (list string);
  port : option Z;
  targetUrl : option string;
  latency : option (JS.Number * JS.Number);
  hotReload : bool;
  cache : bool;
  verbose : bool;
}.

(** [[config.contractsDir, ...(config.externalDirs || [])]]. *)
Definition allDirs (config : ServerConfig) : list string :=
  contractsDir config :: default [] (externalDirs config).

(** [config.targetUrl] taken as a condition. *)
Definition targetConfigured (config : ServerConfig) : bool :=
  match targetUrl config with
  | Some target => JS.truthy target
  | None => false
  end.

Record Request := {
  method : string;
  url : string;
  headers : gmap string string;
}.

(** What has been written to the client: [res.status(s).json(b)]. *)
Record Reply := { status : Z; body : Json }.

Inductive Level := Info | Success | Warn | Error.

(** Effects worth recording, oldest first: calls of the logger (but for
    [logger.debug], which prints nothing: the shared logger of
    utils/logger.ts is created with [verbose] off and never changed),
    every run of [buildTypeMap] with its directory list, and every request
    handed to the upstream.  [RequestLogged] is a call of
    [logger.request]. *)
Inductive Event :=
| Logged (level : Level) (message : string)
| RequestLogged (method url : string) (statusCode : Z)
| TypeMapBuilt (directories : list string)
| Forwarded (target : string) (req : Request).

(** ** core/cache.ts

    The text of core/cache.ts, and that of core/parser.ts, stands in the
    file of core/swagger.ts, after the text of that module.

    [Map<string, ParsedSchema>] is a list of pairs in insertion order with
    at most one pair per key, as a JavaScript [Map] keeps it.  The calls of
    [logger.debug] are left out, as everywhere. *)

Module cache.

Record ParsedSchema := {
  interfaceName : string;
  filePath : string;
  schema : Json;
  lastUpdated : Z;
}.

(** [map.get(key)]. *)
Fixpoint mapGet {V} (key : string) (m : list (string * V)) : option V :=
  match m with
  | [] => None
  | (k, v) :: rest => if String.eqb k key then Some v else mapGet key rest
  end.

(** [map.set(key, value)]: an existing key keeps its place. *)
Fixpoint mapSet {V} (key : string) (value : V) (m : list (string * V))
  : list (string * V) :=
  match m with
  | [] => [(key, value)]
  | (k, v) :: rest =>
      if String.eqb k key then (k, value) :: rest
      else (k, v) :: mapSet key value rest
  end.

(** [map.delete(key)]. *)
Fixpoint mapDelete {V} (key : string) (m : list (string * V))
  : list (string * V) :=
  match m with
  | [] => []
  | (k, v) :: rest =>
      if String.eqb k key then mapDelete key rest
      else (k, v) :: mapDelete key rest
  end.

Record SchemaCache := {
  cache : list (string * ParsedSchema);
  enabled : bool;
}.

(** [new SchemaCache(enabled)]. *)
Definition create (isEnabled : bool) : SchemaCache :=
  {| cache := []; enabled := isEnabled |}.

Definition generateKey (name file : string) : string :=
  file +:+ "::" +:+ name.

Definition get (c : SchemaCache) (name file : string) : option ParsedSchema :=
  if enabled c then mapGet (generateKey name file) (cache c) else None.

(** [now] is [Date.now()] at the call. *)
Definition set (c : SchemaCache) (name file : string) (payload : Json)
    (now : Z) : SchemaCache :=
  if enabled c
  then {| cache :=
            mapSet (generateKey name file)
              {| interfaceName := name; filePath := file; schema := payload;
                 lastUpdated := now |}
              (cache c);
          enabled := enabled c |}
  else c.

(** The loop of [invalidateFile] over [this.cache.entries()]: the map left
    and the count, entry by entry.  The loop deletes the entry it is at,
    which does not disturb the iteration over the entries to come. *)
Fixpoint invalidateLoop (file : string) (todo : list (string * ParsedSchema))
    (m : list (string * ParsedSchema)) (count : nat)
  : list (string * ParsedSchema) * nat :=
  match todo with
  | [] => (m, count)
  | (key, value) :: rest =>
      if String.eqb (filePath value) file
      then invalidateLoop file rest (mapDelete key m) (S count)
      else invalidateLoop file rest m count
  end.

(** [invalidateFile(filePath)]: the cache left and what is logged. *)
Definition invalidateFile (c : SchemaCache) (file : string)
  : SchemaCache * list Event :=
  let '(m, count) := invalidateLoop file (cache c) (cache c) O in
  ({| cache := m; enabled := enabled c |},
   if (0 <? count)%nat
   then [Logged Info ("Cache invalidated: " +:+ pretty count
                        +:+ " schema(s) from " +:+ file)]
   else []).

Definition clear (c : SchemaCache) : SchemaCache * list Event :=
  ({| cache := []; enabled := enabled c |},
   [Logged Info ("Cache cleared: " +:+ pretty (length (cache c))
                   +:+ " schema(s) removed")]).

Definition size (c : SchemaCache) : nat := length (cache c).

Record Stats := {
  statsSize : nat;
  statsEnabled : bool;
  schemas : list (string * string * Z);
}.

(** [getStats()]; a schema is listed with its name, file and age.
    [dateNow i] is what [Date.now()] returns for the entry at place [i]. *)
Definition getStats (c : SchemaCache) (dateNow : nat → Z) : Stats :=
  {| statsSize := length (cache c);
     statsEnabled := enabled c;
     schemas :=
       imap (λ i kv, (interfaceName (snd kv), filePath (snd kv),
                      dateNow i - lastUpdated (snd kv)))
         (cache c) |}.

End cache.

(** ** core/parser.ts

    The data library ([intermock.mock]) and [Math.random] are the two
    outside sources of the module.  [G] is the state they draw from.
    [mock file content name] yields the message of the error the library
    throws, or the value found under the interface name in its output
    ([None] when there is none).  A result of [Math.random] is the double
    [k / 2 ^ e], given by [k] and [e].  The file system of the model reads
    every path; a failure of [fs.readFileSync] would be one more error of
    the [try] block. *)

Class Intermock (G : Type) := {
  mock : string → string → string → G → (string + option Json) * G;
  mathRandom : G → (Z * Z) * G;
}.

(** The two functions core/router.ts imports from the module: a call
    yields the generated value, or the message of the error thrown, and
    the next state.  [parser.asCalled] below is the module as written;
    statements that hold whatever the two functions do are made for every
    instance. *)
Class MockGenerator (G : Type) := {
  generateMockFromInterface : string → string → G → (string + Json) * G;
  generateMockArray : string → string → G → (string + Json) * G;
}.

Module parser.

(** Truthiness of a JSON value. *)
Definition truthyJson (v : Json) : bool :=
  match v with
  | JNull => false
  | JBool b => b
  | JNum n => negb (n =? 0)
  | JStr s => JS.truthy s
  | JArr _ => true
  | JObj _ => true
  end.

Definition notFoundMessage (interfaceName filePath : string) : string :=
  "Interface " +:+ JS.dquote +:+ interfaceName +:+ JS.dquote
    +:+ " not found in file " +:+ filePath.

Definition failedMessage (interfaceName message : string) : string :=
  "Failed to generate mock for " +:+ interfaceName +:+ ": " +:+ message.

Section Parser.
Context {G : Type} `{Intermock G} (disk : fs.FileSystem).

(** The [try] block throws the library's error or the "not found" error;
    the [catch] block wraps either message. *)
Definition generateMockFromInterface (filePath interfaceName : string)
    (g : G) : (string + Json) * G :=
  let fileContent := fs.readFileSync disk filePath in
  let '(output, g') := mock filePath fileContent interfaceName g in
  match output with
  | inl message => (inl (failedMessage interfaceName message), g')
  | inr (Some mockData) =>
      if truthyJson mockData then (inr mockData, g')
      else (inl (failedMessage interfaceName
                   (notFoundMessage interfaceName filePath)), g')
  | inr None =>
      (inl (failedMessage interfaceName
              (notFoundMessage interfaceName filePath)), g')
  end.

(** [Math.floor(Math.random() * 8) + 3]; the product of a double and 8 is
    exact. *)
Definition getRandomArrayLength (g : G) : Z * G :=
  let '((k, e), g') := mathRandom g in
  (8 * k / 2 ^ e + 3, g').

(** The [for] loop of [generateMockArray], with [n] rounds to go. *)
Fixpoint pushItems (n : nat) (filePath interfaceName : string)
    (items : list Json) (g : G) : (string + list Json) * G :=
  match n with
  | O => (inr items, g)
  | S n' =>
      match generateMockFromInterface filePath interfaceName g with
      | (inl message, g') => (inl message, g')
      | (inr item, g') =>
          pushItems n' filePath interfaceName (items ++ [item]) g'
      end
  end.

(** [arrayLength] is [options.arrayLength], an integer when given. *)
Definition generateMockArray (filePath interfaceName : string)
    (arrayLength : option Z) (g : G) : (string + list Json) * G :=
  let '(length, g1) :=
    match arrayLength with
    | Some n => (n, g)
    | None => getRandomArrayLength g
    end in
  pushItems (Z.to_nat length) filePath interfaceName [] g1.

(** The two functions as core/router.ts calls them: without options. *)
Definition asCalled : MockGenerator G :=
  Build_MockGenerator G generateMockFromInterface
    (λ filePath interfaceName g,
       let '(result, g') := generateMockArray filePath interfaceName None g in
       (match result with
        | inl message => inl message
        | inr items => inr (JArr items)
        end, g')).

End Parser.
End parser.

(** A data library that numbers its objects, and a random source that
    counts in 1024ths. *)
Definition numbering : Intermock nat :=
  {| mock _ _ _ g := (inr (Some (JObj [("id", JNum (Z.of_nat g))])), S g);
     mathRandom g := ((Z.of_nat g `mod` 1024, 10), S g) |}.


(** [Math.random] keeps to the interval from 0 (included) to 1 (excluded). *)
Definition unitRandom {G} `{Intermock G} : Prop :=
  ∀ g, 0 ≤ fst (fst (mathRandom g)) < 2 ^ snd (fst (mathRandom g)).

(** The process-wide state: the shared [schemaCache], the generator's
    random source and the trace of recorded effects. *)
Record World (G : Type) := {
  schemaCache : cache.SchemaCache;
  generator : G;
  trace : list Event;
}.
Arguments schemaCache {G} _.
Arguments generator {G} _.
Arguments trace {G} _.

Definition emit {G} (e : Event) (w : World G) : World G :=
  {| schemaCache := schemaCache w; generator := generator w;
     trace := trace w ++ [e] |}.

Definition withCache {G} (c : cache.SchemaCache) (w : World G) : World G :=
  {| schemaCache := c; generator := generator w; trace := trace w |}.

Definition withGenerator {G} (g : G) (w : World G) : World G :=
  {| schemaCache := schemaCache w; generator := g; trace := trace w |}.

(** The response object [res] of a request: [res.locals.forcedStatus], and
    the outcome of the test [res instanceof Response] of core/proxy.ts for
    this object. *)
Record ResponseObject := {
  forcedStatus : option Z;
  instanceofResponse : bool;
}.

(** ** middlewares/statusOverride.ts *)

Module statusOverride.

(** The middleware leaves [res.locals.forcedStatus] set or untouched and
    always calls [next()]. *)
Definition statusOverrideMiddleware {G} (req : Request)
    (res : ResponseObject) (w : World G) : ResponseObject * World G :=
  match headers req !! "x-mock-status" with
  | Some mockStatus =>
      if JS.truthy mockStatus then
        match JS.parseInt mockStatus with
        | Some statusCode =>
            if (100 <=? statusCode) && (statusCode <? 600)
            then ({| forcedStatus := Some statusCode;
                     instanceofResponse := instanceofResponse res |}, w)
            else (res, emit (Logged Warn
                    ("Invalid x-mock-status header: " +:+ mockStatus)) w)
        | None =>
            (res, emit (Logged Warn
                    ("Invalid x-mock-status header: " +:+ mockStatus)) w)
        end
      else (res, w)
  | None => (res, w)
  end.

End statusOverride.

(** ** core/router.ts *)

Module router.
Import typeMapping.

Definition typeNotFoundBody (url : string) : Json :=
  JObj [("error", JStr "Type not found");
        ("message", JStr ("No TypeScript interface matches the URL: " +:+ url));
        ("hint", JStr "Make sure you have exported an interface in your contracts directory")].

Definition forcedErrorBody (forced : Z) : Json :=
  JObj [("error", JStr "Forced error");
        ("message", JStr ("Status " +:+ pretty forced
                            +:+ " forced via x-mock-status header"))].

Definition generationFailedBody (message : string) : Json :=
  JObj [("error", JStr "Mock generation failed");
        ("message", JStr message)].

(** [forcedStatus && forcedStatus >= 400], with the status when it holds. *)
Definition forcedError (forced : option Z) : option Z :=
  match forced with
  | Some v => if negb (v =? 0) && (400 <=? v) then Some v else None
  | None => None
  end.

Section Handler.
Context `{Pluralize} {G : Type} `{MockGenerator G}.
Context (config : ServerConfig) (disk : fs.FileSystem).

(** [config.cache && mapping.filePath && !mapping.isArray]. *)
Definition cacheable (mapping : RouteTypeMapping) : bool :=
  cache config && JS.truthy (filePath mapping) && negb (isArray mapping).

(** [generateMockArray] for an array route, [generateMockFromInterface]
    otherwise. *)
Definition generate (mapping : RouteTypeMapping) (g : G)
  : (string + Json) * G :=
  if isArray mapping
  then generateMockArray (filePath mapping) (typeName mapping) g
  else generateMockFromInterface (filePath mapping) (typeName mapping) g.

(** The handler returned by [dynamicRouteHandler(config)]; [now] is the
    clock of the request.  The [inl] branch of the generator's result is
    the [catch] block. *)
Definition dynamicRouteHandler (now : Z) (req : Request)
    (res : ResponseObject) (w : World G) : Reply * World G :=
  let forced := forcedStatus res in
  let w1 := emit (TypeMapBuilt (allDirs config)) w in
  match findTypeForUrl disk (url req) (allDirs config) with
  | None =>
      ({| status := JS.orNum forced 404;
          body := typeNotFoundBody (url req) |}, w1)
  | Some mapping =>
      match forcedError forced with
      | Some code =>
          ({| status := code; body := forcedErrorBody code |}, w1)
      | None =>
          let cached :=
            if cacheable mapping
            then cache.get (schemaCache w1) (typeName mapping)
                   (filePath mapping)
            else None in
          match cached with
          | Some entry =>
              ({| status := JS.orNum forced 200;
                  body := cache.schema entry |}, w1)
          | None =>
              let '(result, g) := generate mapping (generator w1) in
              let w2 := withGenerator g w1 in
              match result with
              | inr mockData =>
                  let w3 :=
                    if cacheable mapping
                    then withCache
                           (cache.set (schemaCache w2) (typeName mapping)
                              (filePath mapping) mockData now) w2
                    else w2 in
                  ({| status := JS.orNum forced 200; body := mockData |},
                   w3)
              | inl message =>
                  ({| status := JS.orNum forced 500;
                      body := generationFailedBody message |},
                   emit (Logged Error
                           ("Error generating mock: " +:+ message)) w2)
              end
          end
      end
  end.

End Handler.
End router.

(** ** core/proxy.ts *)

(** The forwarding package: one attempt at the target, which yields the
    upstream's reply or the message of the failure. *)
Class Upstream := forward : string → Request → Reply + string.

Module proxy.
Import typeMapping.

(** What the client has received when the chain is done: a reply, or
    nothing (the request is left unanswered). *)
Inductive Outcome :=
| Replied (r : Reply)
| Unanswered.

Definition proxyErrorBody (details : string) : Json :=
  JObj [("error", JStr "Proxy Error");
        ("message", JStr "Failed to reach the target backend");
        ("details", JStr details)].

Section Gate.
Context `{Pluralize} `{Upstream} {G : Type}.

(** The [onError] option. *)
Definition onError (message : string) (res : ResponseObject)
    (w : World G) : Outcome * World G :=
  let w1 := emit (Logged Error ("[PROXY] Error: " +:+ message)) w in
  if instanceofResponse res
  then (Replied {| status := 502; body := proxyErrorBody message |}, w1)
  else (Unanswered, w1).

(** The middleware [proxy] made by [createProxyMiddleware]: the request
    is handed to the upstream once ([onProxyReq] logs it); a failure
    goes to [onError]. *)
Definition proxyMiddleware (target : string) (req : Request)
    (res : ResponseObject) (w : World G) : Outcome * World G :=
  let w1 := emit (Forwarded target req) w in
  let w2 := emit (Logged Info
                    ("[PROXY] Forwarding " +:+ method req +:+ " "
                       +:+ url req +:+ " -> " +:+ target)) w1 in
  match forward target req with
  | inl reply => (Replied reply, w2)
  | inr message => onError message res w2
  end.

(** The middleware returned by [createProxyFallback(config)]; [next] is
    the rest of the chain. *)
Definition createProxyFallback (config : ServerConfig)
    (disk : fs.FileSystem) (req : Request) (res : ResponseObject)
    (next : World G → Outcome * World G) (w : World G)
  : Outcome * World G :=
  match targetUrl config with
  | Some target =>
      if JS.truthy target then
        let w1 := emit (TypeMapBuilt (allDirs config)) w in
        match findTypeForUrl disk (url req) (allDirs config) with
        | Some _ => next w1
        | None => proxyMiddleware target req res w1
        end
      else next w
  | None => next w
  end.

End Gate.
End proxy.

(** ** core/swagger.ts *)

(** Further string methods of JavaScript. *)
Module text.

(** [s.startsWith(p)]. *)
Definition startsWith (p s : string) : bool :=
  match JS.stripPrefix p s with
  | Some _ => true
  | None => false
  end.

(** [s.includes(sub)]. *)
Fixpoint includes (sub s : string) : bool :=
  startsWith sub s
  || match s with
     | EmptyString => false
     | String _ rest => includes sub rest
     end.

(** [s.slice(0, -n)]. *)
Definition dropLast (n : nat) (s : string) : string :=
  String.substring 0 (String.length s - n) s.

(** [s.replace(/\s+/g, '')]. *)
Fixpoint removeSpaces (s : string) : string :=
  match s with
  | EmptyString => EmptyString
  | String c rest =>
      if JS.isSpace c then removeSpaces rest else String c (removeSpaces rest)
  end.

Definition toLowerCaseChar (c : ascii) : ascii :=
  if JS.isUpper c then ascii_of_nat (nat_of_ascii c + 32) else c.

(** [s.toLowerCase()], the ASCII one. *)
Fixpoint toLowerCase (s : string) : string :=
  match s with
  | EmptyString => EmptyString
  | String c rest => String (toLowerCaseChar c) (toLowerCase rest)
  end.

(** The last character of a string. *)
Fixpoint lastChar (s : string) : option ascii :=
  match s with
  | EmptyString => None
  | String c EmptyString => Some c
  | String _ rest => lastChar rest
  end.

End text.

(** The default export of the [pluralize] package: the plural of a
    word. *)
Class PluralizeWord := plural : string → string.

Module swagger.
Import text.

(** [OpenAPISchema], by the fields [typeToOpenAPISchema] sets. *)
Inductive OpenAPISchema :=
| Schema (type : string) (items : option OpenAPISchema)
    (format : option string).

(** [s.replace(/\|null|\|undefined/g, '')]: the matches are dropped from
    left to right; [skip] counts the characters still covered by the last
    match. *)
Fixpoint removeNullable (skip : nat) (s : string) : string :=
  match s with
  | EmptyString => EmptyString
  | String c rest =>
      match skip with
      | S k => removeNullable k rest
      | O =>
          if startsWith "|null" s then removeNullable 4 rest
          else if startsWith "|undefined" s then removeNullable 9 rest
          else String c (removeNullable 0 rest)
      end
  end.

(** The [switch] of [typeToOpenAPISchema]. *)
Definition primitive (baseType : string) : OpenAPISchema :=
  if String.eqb baseType "string" then Schema "string" None None
  else if String.eqb baseType "number" then Schema "number" None None
  else if String.eqb baseType "boolean" then Schema "boolean" None None
  else if String.eqb baseType "Date"
       then Schema "string" None (Some "date-time")
  else if String.eqb baseType "any" || String.eqb baseType "unknown"
       then Schema "object" None None
  else if includes "{" baseType then Schema "object" None None
  else Schema "string" None None.

(** [typeToOpenAPISchema] with a bound on the depth of its recursion; the
    [_isOptional] parameter is not read by the source. *)
Fixpoint convert (depth : nat) (tsType : string) : OpenAPISchema :=
  let baseType := removeSpaces tsType in
  match depth with
  | O => primitive baseType
  | S depth' =>
      if JS.endsWith baseType "[]"
      then Schema "array" (Some (convert depth' (dropLast 2 baseType))) None
      else if includes "|null" baseType || includes "|undefined" baseType
           then convert depth' (removeNullable 0 baseType)
           else primitive baseType
  end.

(** Every recursive call is on a shorter string, so the length of the
    type bounds the depth. *)
Definition typeToOpenAPISchema (tsType : string) : OpenAPISchema :=
  convert (String.length tsType) tsType.

(** [name.replace(/([A-Z])/g, '-$1')]. *)
Fixpoint dashCapitals (s : string) : string :=
  match s with
  | EmptyString => EmptyString
  | String c rest =>
      if JS.isUpper c then String "-" (String c (dashCapitals rest))
      else String c (dashCapitals rest)
  end.

(** [s.replace(/^-/, '')]. *)
Definition dropLeadingDash (s : string) : string :=
  match s with
  | EmptyString => EmptyString
  | String c rest => if Ascii.eqb c "-" then rest else s
  end.

(** The constant [kebab] of [interfaceNameToPath]. *)
Definition kebab (interfaceName : string) : string :=
  dropLeadingDash (toLowerCase (dashCapitals interfaceName)).

Definition interfaceNameToPath `{PluralizeWord} (interfaceName : string)
  : string :=
  "/" +:+ plural (kebab interfaceName).

(** The constant [singularPath] of [generateOpenAPISpec]. *)
Definition singularPath (interfaceName : string) : string :=
  "/" +:+ toLowerCase interfaceName.

(** One match of [interfaceRegex] at the head of [s], for an interface
    name that is a word: capture group 1, the text between the opening
    brace and the first closing brace. *)
Definition matchBody (interfaceName s : string) : option string :=
  s1 ← JS.stripPrefix "export" s;
  let '(sp1, s2) := JS.span JS.isSpace s1 in
  if JS.truthy sp1 then
    s3 ← JS.stripPrefix "interface" s2;
    let '(sp2, s4) := JS.span JS.isSpace s3 in
    if JS.truthy sp2 then
      s5 ← JS.stripPrefix interfaceName s4;
      match snd (JS.span JS.isSpace s5) with
      | String c s6 =>
          if Ascii.eqb c "{" then
            let '(body, s7) :=
              JS.span (λ x, negb (Ascii.eqb x "}")) s6 in
            if startsWith "}" s7 then Some body else None
          else None
      | EmptyString => None
      end
    else None
  else None.

(** [content.match(interfaceRegex)]: the leftmost match. *)
Fixpoint findBody (interfaceName s : string) : option string :=
  match matchBody interfaceName s with
  | Some body => Some body
  | None =>
      match s with
      | EmptyString => None
      | String _ rest => findBody interfaceName rest
      end
  end.

(** One match of [propertyRegex] at the head of [s]: the name, the
    optional mark, the type and what follows the match.  When nothing
    but white space stands between the colon and the semicolon, the
    type is the last character of that white space. *)
Definition matchProperty (s : string)
  : option (string * bool * string * string) :=
  let '(propName, r1) := JS.span JS.isWord s in
  if JS.truthy propName then
    let '(optional, r2) :=
      match r1 with
      | String c r => if Ascii.eqb c "?" then (true, r) else (false, r1)
      | EmptyString => (false, r1)
      end in
    match r2 with
    | String c r3 =>
        if Ascii.eqb c ":" then
          let '(spaces, r4) := JS.span JS.isSpace r3 in
          let '(propType, r5) := JS.span (λ x, negb (Ascii.eqb x ";")) r4 in
          match r5 with
          | String _ after (* the semicolon *) =>
              if JS.truthy propType
              then Some (propName, optional, propType, after)
              else match lastChar spaces with
                   | Some last =>
                       Some (propName, optional, String last EmptyString,
                             after)
                   | None => None
                   end
          | EmptyString => None
          end
        else None
    | EmptyString => None
    end
  else None.

(** The [while ((propMatch = propertyRegex.exec(interfaceBody)) !== null)]
    loop: the successive matches; [skip] counts the characters still
    covered by the previous match. *)
Fixpoint execProperties (skip : nat) (s : string)
  : list (string * bool * string) :=
  match s with
  | EmptyString => []
  | String _ rest =>
      match skip with
      | S k => execProperties k rest
      | O =>
          match matchProperty s with
          | Some (propName, optional, propType, after) =>
              (propName, optional, propType)
                :: execProperties (String.length rest - String.length after)
                     rest
          | None => execProperties 0 rest
          end
      end
  end.

(** [s.trim()], in two halves. *)
Fixpoint trimEnd (s : string) : string :=
  match s with
  | EmptyString => EmptyString
  | String c rest =>
      let rest' := trimEnd rest in
      if JS.isSpace c && negb (JS.truthy rest') then EmptyString
      else String c rest'
  end.

Definition trim (s : string) : string := trimEnd (snd (JS.span JS.isSpace s)).

(** The array index a property key is, when it is one: the key is the
    decimal numeral, written without leading zeros, of an integer below
    2^32 - 1. *)
Definition arrayIndex (key : string) : option N :=
  let index := Z.to_N (JS.digitsValue 0 key) in
  if String.eqb (pretty index) key && (index <? 4294967295)%N
  then Some index
  else None.

(** The place of a new key that is an array index: after the array
    indices below it. *)
Fixpoint insertIndex {V} (index : N) (key : string) (value : V)
    (obj : list (string * V)) : list (string * V) :=
  match obj with
  | [] => [(key, value)]
  | (k, v) :: rest =>
      match arrayIndex k with
      | Some below =>
          if (below <? index)%N
          then (k, v) :: insertIndex index key value rest
          else (key, value) :: obj
      | None => (key, value) :: obj
      end
  end.

(** [obj[key] = value] on the own properties of an object, in the order
    JavaScript lists them: the keys that are array indices first, in
    ascending order, then the other keys in the order of their first
    assignment.  A key the object has keeps its place.  An object
    assigned to "__proto__" becomes the prototype and adds no own
    property. *)
Definition setField {V} (key : string) (value : V) (obj : list (string * V))
  : list (string * V) :=
  if String.eqb key "__proto__" then obj
  else
    match cache.mapGet key obj with
    | Some _ => cache.mapSet key value obj
    | None =>
        match arrayIndex key with
        | Some index => insertIndex index key value obj
        | None => cache.mapSet key value obj
        end
    end.

Section WithFileSystem.
Context (disk : fs.FileSystem).

Definition extractInterfaceProperties (filePath interfaceName : string)
  : list (string * OpenAPISchema) :=
  match findBody interfaceName (fs.readFileSync disk filePath) with
  | Some interfaceBody =>
      if JS.truthy interfaceBody then
        foldl (λ properties '(propName, _, propType),
                 setField propName (typeToOpenAPISchema (trim propType))
                   properties)
          [] (execProperties 0 interfaceBody)
      else []
  | None => []
  end.

(** [buildTypeMap] with the order of the entries, which [forEach]
    follows. *)
Definition addInterface (file : string) (typeMap : list (string * string))
    (interfaceName : string) : list (string * string) :=
  match cache.mapGet interfaceName typeMap with
  | Some _ => typeMap
  | None => cache.mapSet interfaceName file typeMap
  end.

Definition buildTypeList (directories : list string)
  : list (string * string) :=
  foldl (λ typeMap dir,
           foldl (λ typeMap file,
                    foldl (addInterface file) typeMap
                      (typeMapping.extractInterfaceNames disk file))
             typeMap (typeMapping.findTypeScriptFiles disk dir))
    [] directories.

End WithFileSystem.

(** The schema object as JSON. *)
Fixpoint schemaJson (s : OpenAPISchema) : Json :=
  match s with
  | Schema type items format =>
      JObj ([("type", JStr type)]
              ++ match items with
                 | Some item => [("items", schemaJson item)]
                 | None => []
                 end
              ++ match format with
                 | Some f => [("format", JStr f)]
                 | None => []
                 end)
  end.

Definition jsonContent (schema : Json) : Json :=
  JObj [("application/json", JObj [("schema", schema)])].

Definition typeNotFoundResponse : Json :=
  JObj [("description", JStr "Type not found");
        ("content",
         jsonContent
           (JObj [("type", JStr "object");
                  ("properties",
                   JObj [("error", JObj [("type", JStr "string")]);
                         ("message", JObj [("type", JStr "string")])])]))].

Definition reference (interfaceName : string) : Json :=
  JObj [("$ref", JStr ("#/components/schemas/" +:+ interfaceName))].

Definition operation (summary description : string) (responses : Json)
  : Json :=
  JObj [("get", JObj [("summary", JStr summary);
                      ("description", JStr description);
                      ("responses", responses)])].

Definition successResponse (schema : Json) : Json :=
  JObj [("description", JStr "Successful response");
        ("content", jsonContent schema)].

Definition healthPath : Json :=
  operation "Health check" "Returns server health status and configuration"
    (JObj [("200",
            JObj [("description", JStr "Server is healthy");
                  ("content",
                   jsonContent
                     (JObj [("type", JStr "object");
                            ("properties",
                             JObj [("status", JObj [("type", JStr "string")]);
                                   ("uptime", JObj [("type", JStr "number")]);
                                   ("cache", JObj [("type", JStr "object")]);
                                   ("config",
                                    JObj [("type", JStr "object")])])]))])]).

Section Spec.
Context `{PluralizeWord} (disk : fs.FileSystem).

Definition arrayPathItem (interfaceName : string) : Json :=
  operation ("Get all " +:+ plural interfaceName)
    ("Returns an array of " +:+ interfaceName +:+ " objects")
    (JObj [("200",
            successResponse
              (JObj [("type", JStr "array");
                     ("items", reference interfaceName)]));
           ("404", typeNotFoundResponse)]).

Definition singularPathItem (interfaceName : string) : Json :=
  operation ("Get a single " +:+ interfaceName)
    ("Returns a single " +:+ interfaceName +:+ " object")
    (JObj [("200", successResponse (reference interfaceName));
           ("404", typeNotFoundResponse)]).

Definition schemaDefinition (filePath interfaceName : string) : Json :=
  JObj [("type", JStr "object");
        ("properties",
         JObj (map (λ kv, (fst kv, schemaJson (snd kv)))
                 (extractInterfaceProperties disk filePath interfaceName)))].

(** The body of the [typeMap.forEach] callback, on the two objects
    [paths] and [schemas]. *)
Definition document (objects : list (string * Json) * list (string * Json))
    (entry : string * string)
  : list (string * Json) * list (string * Json) :=
  let '(paths, schemas) := objects in
  let '(interfaceName, filePath) := entry in
  (setField (singularPath interfaceName) (singularPathItem interfaceName)
     (setField (interfaceNameToPath interfaceName)
        (arrayPathItem interfaceName) paths),
   setField interfaceName (schemaDefinition filePath interfaceName) schemas).

(** The two objects when [generateOpenAPISpec] returns. *)
Definition documented (config : ServerConfig)
  : list (string * Json) * list (string * Json) :=
  let '(paths, schemas) :=
    foldl document ([], []) (buildTypeList disk (allDirs config)) in
  (setField "/health" healthPath paths, schemas).

Definition generateOpenAPISpec (config : ServerConfig) : Json :=
  let '(paths, schemas) := documented config in
  JObj [("openapi", JStr "3.0.0");
        ("info",
         JObj [("title", JStr "TS Mock Proxy API");
               ("description",
                JStr "Auto-generated REST API from TypeScript interfaces");
               ("version", JStr "1.0.0")]);
        ("servers",
         JArr [JObj [("url",
                      JStr ("http://localhost:"
                              +:+ match port config with
                                  | Some p => pretty p
                                  | None => "NaN"
                                  end));
                     ("description", JStr "Development server")]]);
        ("paths", JObj paths);
        ("components",
         JObj [("schemas", JObj schemas);
               ("parameters",
                JObj [("x-mock-status",
                       JObj [("name", JStr "x-mock-status");
                             ("in", JStr "header");
                             ("description",
                              JStr "Force a specific HTTP status code");
                             ("required", JBool false);
                             ("schema",
                              JObj [("type", JStr "integer");
                                    ("example", JNum 500)])])])])].

End Spec.

End swagger.

(** ** middlewares/logger.ts *)

Module loggerMiddleware.

(** [requestLoggerMiddleware] registers a listener for the [finish] event
    of the response and calls [next()].  This is the listener, run once
    the response has been sent; [requestUrl] and [statusCode] are
    [req.url] and [res.statusCode] as it finds them. *)
Definition onFinish {G} (req : Request) (requestUrl : string)
    (statusCode : Z) (w : World G) : World G :=
  emit (RequestLogged (method req) requestUrl statusCode) w.

End loggerMiddleware.

(** ** middlewares/latency.ts *)

Module latency.

(** The middleware draws its delay with one call of [Math.random], waits
    and calls [next()].  The call moves the random source on; time is not
    part of the model. *)
Definition latencyMiddleware {G} `{Intermock G} (w : World G) : World G :=
  withGenerator (snd (mathRandom (generator w))) w.

End latency.

(** ** The packages of the application

    [createServer] mounts middlewares of the [cors], [express] and
    [swagger-ui-express] packages, which answer some requests themselves,
    and leaves to express whether a request is for a route.  What the
    packages do is a parameter:
    - [cors]: the reply of [cors()] to a request it answers itself (a
      preflight request), [None] when it calls [next()];
    - [bodyParsers]: the reply to a request whose body [express.json()] or
      [express.urlencoded()] rejects (the error goes to the error handler
      of express, which answers it), [None] when both call [next()];
    - [getRoute path]: whether the route [app.get(path, ...)] takes the
      request;
    - [swaggerUi document]: the reply of [swaggerUi.serve] and
      [swaggerUi.setup(document, ...)], mounted at "/api-docs", to a request
      they answer, [None] for a request that is not under the mount path
      or that they pass on. *)
Class Express := {
  cors : Request → option Reply;
  bodyParsers : Request → option Reply;
  getRoute : string → Request → bool;
  swaggerUi : Json → Request → option Reply;
}.

(** ** server.ts *)

Module server.
Import proxy.

(** What the process reads from its environment while it handles a
    request: [Date.now()], call by call (numbered from 0), and
    [process.uptime()], as the JSON number it is sent as. *)
Record Readings := {
  dateNow : nat → Z;
  uptime : Json;
}.

(** [schemaCache.getStats()] as [res.json] writes it. *)
Definition statsJson (stats : cache.Stats) : Json :=
  JObj [("size", JNum (Z.of_nat (cache.statsSize stats)));
        ("enabled", JBool (cache.statsEnabled stats));
        ("schemas",
         JArr (map (λ s : string * string * Z,
                      JObj [("interfaceName", JStr (fst (fst s)));
                            ("filePath", JStr (snd (fst s)));
                            ("age", JNum (snd s))])
                 (cache.schemas stats)))].

(** The body of the health route; a field that is [undefined] is left
    out by [res.json], and a port that is [NaN] is written [null]. *)
Definition healthBody (config : ServerConfig) (readings : Readings)
    (c : cache.SchemaCache) : Json :=
  JObj [("status", JStr "ok");
        ("uptime", uptime readings);
        ("cache", statsJson (cache.getStats c (dateNow readings)));
        ("config",
         JObj ([("contractsDir", JStr (contractsDir config))]
                 ++ match externalDirs config with
                    | Some dirs => [("externalDirs", JArr (map JStr dirs))]
                    | None => []
                    end
                 ++ [("port", match port config with
                              | Some p => JNum p
                              | None => JNull
                              end)]
                 ++ match targetUrl config with
                    | Some target => [("targetUrl", JStr target)]
                    | None => []
                    end
                 ++ [("hotReload", JBool (hotReload config));
                     ("cache", JBool (cache config))]))].

Section Chain.
Context `{Pluralize} `{PluralizeWord} `{Upstream} `{Express}.
Context {G : Type} `{Intermock G}.
Context (config : ServerConfig).
(** The files when [createServer] ran, which the Swagger document is
    generated from, and the files as the request finds them. *)
Context (started disk : fs.FileSystem).

(** The catch-all route [app.all('*', dynamicRouteHandler(config))], with
    the functions of core/parser.ts behind the handler. *)
Definition mockRoute (now : Z) (req : Request) (res : ResponseObject)
    (w : World G) : Outcome * World G :=
  let '(reply, w') :=
    @router.dynamicRouteHandler _ G (parser.asCalled disk) config disk now
      req res w in
  (Replied reply, w').

(** The routes mounted after the global middlewares: the health route,
    the Swagger pages, the proxy fallback when [config.targetUrl] is set,
    the catch-all route. *)
Definition routes (readings : Readings) (req : Request)
    (res : ResponseObject) (w : World G) : Outcome * World G :=
  if getRoute "/health" req
  then (Replied {| status := 200;
                   body := healthBody config readings (schemaCache w) |}, w)
  else
    match swaggerUi (swagger.generateOpenAPISpec started config) req with
    | Some reply => (Replied reply, w)
    | None =>
        if targetConfigured config
        then createProxyFallback config disk req res
               (mockRoute (dateNow readings 0) req res) w
        else mockRoute (dateNow readings 0) req res w
    end.

(** The middlewares every request goes through that is not answered by
    the packages before them: the request logger (which only registers
    [loggerMiddleware.onFinish]), the status override, and the latency
    middleware when [config.latency] is set. *)
Definition middlewares (req : Request) (res : ResponseObject) (w : World G)
  : ResponseObject * World G :=
  let '(res1, w1) := statusOverride.statusOverrideMiddleware req res w in
  (res1,
   match latency config with
   | Some _ => latency.latencyMiddleware w1
   | None => w1
   end).

(** The application [createServer] returns, at work on a request: CORS,
    the body parsers, the middlewares above, then the routes. *)
Definition createServer (readings : Readings) (req : Request)
    (res : ResponseObject) (w : World G) : Outcome * World G :=
  match cors req with
  | Some reply => (Replied reply, w)
  | None =>
      match bodyParsers req with
      | Some reply => (Replied reply, w)
      | None =>
          let '(res1, w1) := middlewares req res w in
          routes readings req res1 w1
      end
  end.

End Chain.

(** The reload callback [startServer] gives to the file watcher. *)
Definition onReload {G} (filePath : string) (w : World G) : World G :=
  emit (Logged Info ("Contract updated: " +:+ filePath)) w.

End server.

(** ** utils/fileWatcher.ts *)

Module fileWatcher.

(** The events of the chokidar watcher the module subscribes to. *)
Inductive WatchEvent :=
| Change (filePath : string)
| Add (filePath : string)
| Unlink (filePath : string)
| Failure (message : string)
| Ready.

Section Watcher.
Context {G : Type}.
Context (onReload : option (string → World G → World G)).

Definition callReload (filePath : string) (w : World G) : World G :=
  match onReload with
  | Some callback => callback filePath w
  | None => w
  end.

(** [schemaCache.invalidateFile(filePath)], on the shared cache; what the
    call logs goes to the trace. *)
Definition invalidate (filePath : string) (w : World G) : World G :=
  let '(c, out) := cache.invalidateFile (schemaCache w) filePath in
  {| schemaCache := c; generator := generator w; trace := trace w ++ out |}.

(** The listeners registered by [startFileWatcher]. *)
Definition onEvent (ev : WatchEvent) (w : World G) : World G :=
  match ev with
  | Change filePath =>
      let w1 := emit (Logged Info
                        ("File changed: " +:+ fs.basename filePath)) w in
      callReload filePath (invalidate filePath w1)
  | Add filePath =>
      let w1 := emit (Logged Success
                        ("New file detected: " +:+ fs.basename filePath)) w in
      callReload filePath w1
  | Unlink filePath =>
      let w1 := emit (Logged Warn
                        ("File deleted: " +:+ fs.basename filePath)) w in
      invalidate filePath w1
  | Failure message =>
      emit (Logged Error ("File watcher error: " +:+ message)) w
  | Ready => emit (Logged Success "File watcher ready") w
  end.

End Watcher.
End fileWatcher.

(** ** index.ts: the default command *)

Module cli.

(** The parsed command line. *)
Record Options := {
  dir : string;
  externalDir : option (list string);
  portOption : string;
  target : option string;
  latencyOption : option string;
  hotReloadOption : bool;
  cacheOption : bool;
  verboseOption : bool;
}.

(** How the action ends: [process.exit(code)], or the call of
    [startServer(config)] (what [startServer] does then is not part of the
    action). *)
Inductive Outcome :=
| Exited (code : Z)
| ServerStarted (config : ServerConfig).

(** The end of the action, the directories that exist then, and what was
    logged. *)
Record Run := {
  outcome : Outcome;
  existing : gset string;
  output : list Event;
}.

(** [range.match(/^(\d+)-(\d+)$/)]: the two captured groups. *)
Definition matchLatency (range : string) : option (string * string) :=
  let '(lo, r1) := JS.span JS.isDigit range in
  if JS.truthy lo then
    match r1 with
    | String "-" r2 =>
        let '(hi, r3) := JS.span JS.isDigit r2 in
        if JS.truthy hi && negb (JS.truthy r3) then Some (lo, hi) else None
    | _ => None
    end
  else None.

(** The loop over the external directories: the first one that does not
    exist, if any. *)
Fixpoint firstMissing (present : gset string) (dirs : list string)
  : option string :=
  match dirs with
  | [] => None
  | d :: rest =>
      if bool_decide (d ∈ present) then firstMissing present rest
      else Some d
  end.

(** The [if (options.latency)] block: the range, or the warning. *)
Definition parseLatency (given : option string)
  : option (JS.Number * JS.Number) * list Event :=
  match given with
  | Some text =>
      if JS.truthy text then
        match matchLatency text with
        | Some (lo, hi) =>
            (lo' ← JS.parseInt lo; hi' ← JS.parseInt hi;
             Some (JS.toNumber lo', JS.toNumber hi'), [])
        | None =>
            (None,
             [Logged Warn
                ("Invalid latency format: " +:+ text
                   +:+ ". Expected format: " +:+ JS.dquote
                   +:+ "min-max" +:+ JS.dquote +:+ " (e.g., "
                   +:+ JS.dquote +:+ "500-2000" +:+ JS.dquote +:+ ")")])
        end
      else (None, [])
  | None => (None, [])
  end.

Section Action.
(** [path.resolve], against the working directory of the process. *)
Context (resolve : string → string).

Definition action (options : Options) (present : gset string) : Run :=
  let contracts := resolve (dir options) in
  let externals : option (list string) :=
    match externalDir options with
    | Some dirs => Some (map resolve dirs)
    | None => None
    end in
  let '(present1, log1) :=
    if bool_decide (contracts ∈ present) then (present, [])
    else (fs.mkdirSyncRecursive present contracts,
          [Logged Error ("Contracts directory not found: " +:+ contracts);
           Logged Info "Creating contracts directory...";
           Logged Success ("Created: " +:+ contracts)]) in
  match firstMissing present1 (default [] externals) with
  | Some missing =>
      {| outcome := Exited 1;
         existing := present1;
         output := log1 ++
           [Logged Error ("External directory not found: " +:+ missing);
            Logged Warn "Make sure the path is correct and accessible"] |}
  | None =>
      let '(range, log2) := parseLatency (latencyOption options) in
      let config :=
        {| contractsDir := contracts;
           externalDirs := externals;
           port := JS.parseInt (portOption options);
           targetUrl := target options;
           latency := range;
           hotReload := hotReloadOption options;
           cache := cacheOption options;
           verbose := verboseOption options |} in
      let log3 :=
        if cache config then []
        else [Logged Info "Schema cache disabled"] in
      {| outcome := ServerStarted config;
         existing := present1;
         output := log1 ++ log2 ++ log3 |}
  end.

End Action.
End cli.

(** ** utils/typeMapping.ts on a file system that can fail

    [fs.FileSystem] is a tree that every call reads.  The calls of the
    [fs] module can also throw: [readdirSync] on a path that is no
    directory or may not be listed, [readFileSync] on a file that may not
    be read.  utils/typeMapping.ts catches nothing, so such an error ends
    [findTypeForUrl].  The module below follows utils/typeMapping.ts once
    more, with these failures; on a tree that every call reads it agrees
    with [typeMapping]. *)

Module faulty.

(** How a call ends: it returns a value, or it throws an error, given by
    its message. *)
Inductive Completion (A : Type) :=
| Returned (value : A)
| Thrown (message : string).
Arguments Returned {A} _.
Arguments Thrown {A} _.

(** The statements that follow a call run when it has returned. *)
Definition andThen {A B} (call : Completion A) (rest : A → Completion B)
  : Completion B :=
  match call with
  | Returned value => rest value
  | Thrown message => Thrown message
  end.

(** A [for ... of] loop that collects lists, up to the first error. *)
Definition collect {A B} (f : A → Completion (list B))
  : list A → Completion (list B) :=
  fix go (l : list A) : Completion (list B) :=
    match l with
    | [] => Returned []
    | a :: rest =>
        andThen (f a) (λ found,
          andThen (go rest) (λ more, Returned (found ++ more)))
    end.

(** A [for ... of] loop that updates a value, up to the first error. *)
Definition foldCompletion {A B} (f : A → B → Completion A)
  : A → list B → Completion A :=
  fix go (a : A) (l : list B) : Completion A :=
    match l with
    | [] => Returned a
    | b :: rest => andThen (f a b) (λ a', go a' rest)
    end.

(** A directory entry; [Locked] is a directory [readdirSync] refuses to
    list, with the message of the error it throws. *)
Inductive Dirent :=
| File (name : string)
| Directory (name : string) (entries : list Dirent)
| Locked (name : string) (message : string)
| Other (name : string).

(** [readdirSync root] is [None] when [existsSync root] is false, and
    otherwise the tree below [root], or the error thrown for a root that
    is no directory or may not be listed; [readFileSync] is the text of a
    file, by path, or the error thrown. *)
Record FileSystem := {
  readdirSync : string → option (Completion (list Dirent));
  readFileSync : string → Completion string;
}.

(** The inner function [scan], on the entries of an existing directory. *)
Fixpoint scanEntry (currentDir : string) (entry : Dirent)
  : Completion (list string) :=
  match entry with
  | Directory name entries =>
      if bool_decide (name ∈ typeMapping.ignoredDirectories)
      then Returned []
      else collect (scanEntry (fs.join currentDir name)) entries
  | Locked name message =>
      if bool_decide (name ∈ typeMapping.ignoredDirectories)
      then Returned []
      else Thrown message
  | File name =>
      Returned (if JS.endsWith name ".ts"
                then [fs.join currentDir name] else [])
  | Other _ => Returned []
  end.

Section WithFileSystem.
Context (disk : FileSystem).

Definition findTypeScriptFiles (dir : string) : Completion (list string) :=
  match readdirSync disk dir with
  | None => Returned []
  | Some listing => andThen listing (collect (scanEntry dir))
  end.

Definition extractInterfaceNames (filePath : string)
  : Completion (list string) :=
  andThen (readFileSync disk filePath) (λ content,
    Returned (filter (λ name, JS.truthy name = true)
                (typeMapping.execAll 0 content))).

(** The three nested [for ... of] loops of [buildTypeMap]. *)
Definition addFile (typeMap : gmap string string) (file : string)
  : Completion (gmap string string) :=
  andThen (extractInterfaceNames file) (λ interfaces,
    Returned (foldl (typeMapping.addInterface file) typeMap interfaces)).

Definition addDirectory (typeMap : gmap string string) (dir : string)
  : Completion (gmap string string) :=
  andThen (findTypeScriptFiles dir) (foldCompletion addFile typeMap).

Definition buildTypeMap (directories : list string)
  : Completion (gmap string string) :=
  foldCompletion addDirectory ∅ directories.

Definition findTypeForUrl `{Pluralize} (url : string)
    (directories : list string)
  : Completion (option typeMapping.RouteTypeMapping) :=
  let ref := pluralize.parseUrlToType url in
  andThen (buildTypeMap directories) (λ typeMap,
    Returned
      match typeMap !! pluralize.typeName ref with
      | Some path =>
          if JS.truthy path
          then Some {| typeMapping.typeName := pluralize.typeName ref;
                       typeMapping.isArray := pluralize.isArray ref;
                       typeMapping.filePath := path |}
          else None
      | None => None
      end).

End WithFileSystem.

(** A tree that every call reads, as a file system that can fail. *)
Fixpoint readable (entry : fs.Dirent) : Dirent :=
  match entry with
  | fs.File name => File name
  | fs.Directory name entries => Directory name (map readable entries)
  | fs.Other name => Other name
  end.

Definition reliable (disk : fs.FileSystem) : FileSystem :=
  {| readdirSync dir :=
       (λ entries, Returned (map readable entries))
         <$> fs.readdirSync disk dir;
     readFileSync filePath := Returned (fs.readFileSync disk filePath) |}.

End faulty.

(** ** The cache as the specification describes it

    Section 4.6 of the specification describes the cache as a store keyed
    by the pair of a type name and a source file, whose operations do
    nothing while the cache is disabled.  The three modules below follow
    those words, not the sources: they are the abstract side of the
    refinement statements, which compare them with core/cache.ts,
    core/router.ts and utils/fileWatcher.ts as written above. *)

Module specCache.

(** The entry of the specification: type name, source file, payload and
    time of creation. *)
Record CachedSchema := {
  interfaceName : string;
  filePath : string;
  schema : Json;
  timestamp : Z;
}.

Record SchemaCache := {
  enabled : bool;
  entries : gmap (string * string) CachedSchema;
}.

Definition create (isEnabled : bool) : SchemaCache :=
  {| enabled := isEnabled; entries := ∅ |}.

(** A look-up finds nothing when the cache is disabled. *)
Definition get (c : SchemaCache) (name file : string) : option CachedSchema :=
  if enabled c then entries c !! (name, file) else None.

(** Storing is a no-op when the cache is disabled. *)
Definition set (c : SchemaCache) (name file : string) (payload : Json)
    (now : Z) : SchemaCache :=
  if enabled c
  then {| enabled := true;
          entries := <[(name, file) :=
                        {| interfaceName := name; filePath := file;
                           schema := payload; timestamp := now |}]>
                       (entries c) |}
  else c.

(** Invalidating a file removes every entry whose source file matches,
    silently, and is a no-op when the cache is disabled. *)
Definition invalidateFile (c : SchemaCache) (file : string) : SchemaCache :=
  if enabled c
  then {| enabled := true;
          entries := filter (λ kv, snd (fst kv) ≠ file) (entries c) |}
  else c.

End specCache.

(** The request handler of core/router.ts, run on the cache of the
    specification. *)
Module specRouter.
Import typeMapping router.

Record World (G : Type) := {
  schemaCache : specCache.SchemaCache;
  generator : G;
  trace : list Event;
}.
Arguments schemaCache {G} _.
Arguments generator {G} _.
Arguments trace {G} _.

Definition emit {G} (e : Event) (w : World G) : World G :=
  {| schemaCache := schemaCache w; generator := generator w;
     trace := trace w ++ [e] |}.

Definition withCache {G} (c : specCache.SchemaCache) (w : World G) : World G :=
  {| schemaCache := c; generator := generator w; trace := trace w |}.

Definition withGenerator {G} (g : G) (w : World G) : World G :=
  {| schemaCache := schemaCache w; generator := g; trace := trace w |}.

Section Handler.
Context `{Pluralize} {G : Type} `{MockGenerator G}.
Context (config : ServerConfig) (disk : fs.FileSystem).

Definition dynamicRouteHandler (now : Z) (req : Request)
    (res : ResponseObject) (w : World G) : Reply * World G :=
  let forced := forcedStatus res in
  let w1 := emit (TypeMapBuilt (allDirs config)) w in
  match findTypeForUrl disk (url req) (allDirs config) with
  | None =>
      ({| status := JS.orNum forced 404;
          body := typeNotFoundBody (url req) |}, w1)
  | Some mapping =>
      match forcedError forced with
      | Some code =>
          ({| status := code; body := forcedErrorBody code |}, w1)
      | None =>
          let cached :=
            if cacheable config mapping
            then specCache.get (schemaCache w1) (typeName mapping)
                   (filePath mapping)
            else None in
          match cached with
          | Some entry =>
              ({| status := JS.orNum forced 200;
                  body := specCache.schema entry |}, w1)
          | None =>
              let '(result, g) := generate mapping (generator w1) in
              let w2 := withGenerator g w1 in
              match result with
              | inr mockData =>
                  let w3 :=
                    if cacheable config mapping
                    then withCache
                           (specCache.set (schemaCache w2) (typeName mapping)
                              (filePath mapping) mockData now) w2
                    else w2 in
                  ({| status := JS.orNum forced 200; body := mockData |},
                   w3)
              | inl message =>
                  ({| status := JS.orNum forced 500;
                      body := generationFailedBody message |},
                   emit (Logged Error
                           ("Error generating mock: " +:+ message)) w2)
              end
          end
      end
  end.

End Handler.
End specRouter.

(** The listeners of utils/fileWatcher.ts, run on the cache of the
    specification: its [invalidateFile] logs nothing. *)
Module specWatcher.
Import fileWatcher specRouter.

Definition onReload {G} (filePath : string) (w : World G) : World G :=
  emit (Logged Info ("Contract updated: " +:+ filePath)) w.

Section Watcher.
Context {G : Type}.
Context (onReload : option (string → World G → World G)).

Definition callReload (filePath : string) (w : World G) : World G :=
  match onReload with
  | Some callback => callback filePath w
  | None => w
  end.

Definition invalidate (filePath : string) (w : World G) : World G :=
  withCache (specCache.invalidateFile (schemaCache w) filePath) w.

Definition onEvent (ev : WatchEvent) (w : World G) : World G :=
  match ev with
  | Change filePath =>
      let w1 := emit (Logged Info
                        ("File changed: " +:+ fs.basename filePath)) w in
      callReload filePath (invalidate filePath w1)
  | Add filePath =>
      let w1 := emit (Logged Success
                        ("New file detected: " +:+ fs.basename filePath)) w in
      callReload filePath w1
  | Unlink filePath =>
      let w1 := emit (Logged Warn
                        ("File deleted: " +:+ fs.basename filePath)) w in
      invalidate filePath w1
  | Failure message =>
      emit (Logged Error ("File watcher error: " +:+ message)) w
  | Ready => emit (Logged Success "File watcher ready") w
  end.

End Watcher.
End specWatcher.

(** The entry of the specification's cache an entry of the sources stands
    for. *)
Definition toCached (e : cache.ParsedSchema) : specCache.CachedSchema :=
  {| specCache.interfaceName := cache.interfaceName e;
     specCache.filePath := cache.filePath e;
     specCache.schema := cache.schema e;
     specCache.timestamp := cache.lastUpdated e |}.

(** The entries by the pair of their name and file. *)
Definition byPair (kv : string * cache.ParsedSchema)
  : (string * string) * specCache.CachedSchema :=
  ((cache.interfaceName (snd kv), cache.filePath (snd kv)),
   toCached (snd kv)).

(** The cache of the specification a cache of the sources stands for. *)
Definition abstraction (c : cache.SchemaCache) : specCache.SchemaCache :=
  {| specCache.enabled := cache.enabled c;
     specCache.entries := list_to_map (map byPair (cache.cache c)) |}.

(** The state over the cache of the specification that a state of the
    sources stands for. *)
Definition abstractWorld {G} (w : World G) : specRouter.World G :=
  {| specRouter.schemaCache := abstraction (schemaCache w);
     specRouter.generator := generator w;
     specRouter.trace := trace w |}.

(** ** Concrete data for the examples *)

Module sample.
Import fs.

(** A stand-in for the inflection rules of the pluralize package, a
    dependency of the program: a table of irregular forms ("people",
    "children"), and otherwise a final "s" marks a plural and is dropped
    by [singular].  The statements take the package as a parameter; the
    stand-in only serves the examples. *)
Definition irregular (word : string) : option string :=
  if String.eqb word "people" then Some "person"
  else if String.eqb word "children" then Some "child"
  else None.

(** [pluralize.isPlural] of the stand-in. *)
Definition samplePlural (word : string) : bool :=
  match irregular word with
  | Some _ => true
  | None => JS.endsWith word "s"
  end.

(** [pluralize.singular] of the stand-in. *)
Definition sampleSingular (word : string) : string :=
  match irregular word with
  | Some single => single
  | None =>
      if JS.endsWith word "s"
      then String.substring 0 (String.length word - 1) word
      else word
  end.

Definition inflector : Pluralize :=
  {| isPlural := samplePlural; singular := sampleSingular |}.

(** The stand-in with one word added that has one form for the singular
    and the plural: the package takes "sheep" for a plural, and for its
    own singular. *)
Definition uncountable : Pluralize :=
  {| isPlural word := String.eqb word "sheep" || samplePlural word;
     singular word :=
       if String.eqb word "sheep" then word else sampleSingular word |}.

(** Three roots: [/contracts] with two files, and [/a] and [/b] that both
    declare [DuplicateType]. *)
Definition disk : FileSystem :=
  {| readdirSync p :=
       if String.eqb p "/contracts"
       then Some [File "user.ts";
                  Directory "models" [File "order.ts"; File "notes.md"];
                  Directory "node_modules" [File "lib.ts"]]
       else if String.eqb p "/a" then Some [File "duplicate.ts"]
       else if String.eqb p "/b" then Some [File "duplicate.ts"]
       else None;
     readFileSync p :=
       if String.eqb p "/contracts/user.ts"
       then "export interface User { id: number; }
export interface UserProfile { userId: number; }"
       else if String.eqb p "/contracts/models/order.ts"
       then "export interface Order { id: number; }"
       else if String.eqb p "/a/duplicate.ts"
       then "export interface DuplicateType { first: true; }"
       else if String.eqb p "/b/duplicate.ts"
       then "export interface DuplicateType { second: true; }"
       else "export interface Lib { }" |}.

(** The contracts directory with a directory in it that the process may
    not list. *)
Definition locked : faulty.FileSystem :=
  {| faulty.readdirSync p :=
       if String.eqb p "/contracts"
       then Some (faulty.Returned
                    [faulty.File "user.ts";
                     faulty.Locked "private"
                       "EACCES: permission denied, scandir '/contracts/private'"])
       else None;
     faulty.readFileSync _ :=
       faulty.Returned "export interface User { id: number; }" |}.

(** A generator whose random source is a counter. *)
Definition counting : MockGenerator nat :=
  {| generateMockFromInterface _ _ g := (inr (JObj [("id", JNum (Z.of_nat g))]), S g);
     generateMockArray _ _ g :=
       (inr (JArr [JObj [("id", JNum (Z.of_nat g))]]), S g) |}.

(** An upstream nobody listens on. *)
Definition refusing : Upstream :=
  λ _ _, inr "connect ECONNREFUSED 127.0.0.1:9".

(** A stand-in for the packages of the application: [cors()] answers a
    request of method OPTIONS with status 204 (the body stands for none),
    the body parsers reject nothing, a route takes the GET requests for
    exactly its path, and the Swagger middlewares answer every request
    whose URL begins with their mount path, here with the document. *)
Definition express : Express :=
  {| cors req :=
       if String.eqb (method req) "OPTIONS"
       then Some {| status := 204; body := JNull |}
       else None;
     bodyParsers _ := None;
     getRoute path req :=
       String.eqb (method req) "GET" && String.eqb (url req) path;
     swaggerUi document req :=
       if text.startsWith "/api-docs" (url req)
       then Some {| status := 200; body := document |}
       else None |}.

(** The readings of a process that has been up for a minute, at a clock
    that stands still. *)
Definition readings : server.Readings :=
  {| server.dateNow _ := 1; server.uptime := JNum 60 |}.

Definition config : ServerConfig :=
  {| contractsDir := "/contracts"; externalDirs := None; port := Some 8080;
     targetUrl := None; latency := None; hotReload := true; cache := true;
     verbose := false |}.

Definition proxied : ServerConfig :=
  {| contractsDir := "/contracts"; externalDirs := None; port := Some 8080;
     targetUrl := Some "http://127.0.0.1:9"; latency := None;
     hotReload := true; cache := true; verbose := false |}.

Definition uncached : ServerConfig :=
  {| contractsDir := "/contracts"; externalDirs := None; port := Some 8080;
     targetUrl := None; latency := None; hotReload := true; cache := false;
     verbose := false |}.

Definition world : World nat :=
  {| schemaCache := cache.create true; generator := O; trace := [] |}.

Definition GET (path : string) : Request :=
  {| method := "GET"; url := path; headers := ∅ |}.

Definition GETwith (path status : string) : Request :=
  {| method := "GET"; url := path;
     headers := {[ "x-mock-status" := status ]} |}.

(** The response object express creates for a request.  express exports
    [Response] as an interface only, so the import of core/proxy.ts is
    erased when the module is compiled and [Response] in [onError] is the
    global Fetch API class at run time; the [http.ServerResponse] objects
    of express are not instances of it. *)
Definition expressResponse : ResponseObject :=
  {| forcedStatus := None; instanceofResponse := false |}.

End sample.

(** ** Notions used by the statements *)

Section CatalogNotions.
Import typeMapping.
Context (disk : fs.FileSystem).

(** The files of a list of directories, in the order they are scanned. *)
Definition scanOrder (directories : list string) : list string :=
  flat_map (findTypeScriptFiles disk) directories.

(** The file declares (exports an interface named) [T]. *)
Definition declares (T file : string) : bool :=
  bool_decide (T ∈ extractInterfaceNames disk file).

(** The first of the files to declare [T]. *)
Definition firstDeclaring (T : string) (files : list string) : option string :=
  List.find (declares T) files.

(** Some file below the directory declares [T]. *)
Definition defines (dir T : string) : bool :=
  existsb (declares T) (findTypeScriptFiles disk dir).

(** Some file below one of the directories declares [T]. *)
Definition known (directories : list string) (T : string) : bool :=
  existsb (declares T) (scanOrder directories).

End CatalogNotions.

Definition isTypeMapBuilt (e : Event) : bool :=
  match e with
  | TypeMapBuilt _ => true
  | _ => false
  end.

Definition isForwarded (e : Event) : bool :=
  match e with
  | Forwarded _ _ => true
  | _ => false
  end.

(** The events recorded between two states of the world. *)
Definition since {G} (before after : World G) : list Event :=
  drop (length (trace before)) (trace after).

(** A word without [-] and [_]. *)
Fixpoint plain (w : string) : bool :=
  match w with
  | EmptyString => true
  | String c rest => negb (pluralize.isSeparator c) && plain rest
  end.

(** A word followed by further words, each led by one separator. *)
Fixpoint joinWords (first : string) (rest : list (ascii * string)) : string :=
  match rest with
  | [] => first
  | (c, w) :: rest' => first +:+ String c (joinWords w rest')
  end.

(** The further words, each capitalized, with nothing in between. *)
Fixpoint pascalTail (rest : list (ascii * string)) : string :=
  match rest with
  | [] => EmptyString
  | (_, w) :: rest' => pluralize.capitalizeFirst w +:+ pascalTail rest'
  end.

Definition separated (rest : list (ascii * string)) : Prop :=
  Forall (λ cw, pluralize.isSeparator (fst cw) = true ∧ plain (snd cw) = true)
    rest.

(** A path component: no slash in it. *)
Fixpoint noSlash (s : string) : bool :=
  match s with
  | EmptyString => true
  | String c rest => negb (Ascii.eqb c "/") && noSlash rest
  end.

(** [n] slashes. *)
Fixpoint slashes (n : nat) : string :=
  match n with
  | O => EmptyString
  | S k => String "/" (slashes k)
  end.

(** The external directories the start-up action checks, after
    [path.resolve]. *)
Definition resolvedExternals (resolve : string → string)
    (options : cli.Options) : list string :=
  match cli.externalDir options with
  | Some dirs => map resolve dirs
  | None => []
  end.

(** The cache is in a state the class can be in: one pair per key (a
    [Map]), every pair under the key of its own name and file, and nothing
    stored while the cache is disabled. *)
Definition cacheConsistent (c : cache.SchemaCache) : Prop :=
  NoDup (map fst (cache.cache c))
  ∧ Forall (λ kv, fst kv = cache.generateKey
                             (cache.interfaceName (snd kv))
                             (cache.filePath (snd kv)))
      (cache.cache c)
  ∧ (cache.enabled c = false → cache.cache c = []).

(** An entry of the file. *)
Definition ofFile (file : string) (kv : string * cache.ParsedSchema) : bool :=
  String.eqb (cache.filePath (snd kv)) file.

(** A cache holding one entry of each of two files. *)
Definition twoFiles : cache.SchemaCache :=
  cache.set
    (cache.set (cache.create true) "User" "/contracts/user.ts"
       (JObj [("id", JNum 1)]) 10)
    "Order" "/contracts/models/order.ts" (JObj [("id", JNum 2)]) 20.

(** A name without a colon, as every match of [\w+] is. *)
Fixpoint colonFree (s : string) : bool :=
  match s with
  | EmptyString => true
  | String c rest => negb (Ascii.eqb c ":") && colonFree rest
  end.

Definition colonFreeNames (c : cache.SchemaCache) : Prop :=
  Forall (λ kv, colonFree (cache.interfaceName (snd kv)) = true)
    (cache.cache c).

(** The line [invalidateFile] logs for a file, if it logs one: the count
    is that of the entries of the file. *)
Definition invalidatedLine (c : cache.SchemaCache) (file : string)
  : list Event :=
  let count := length (filter (λ e, ofFile file e = true) (cache.cache c)) in
  if (0 <? count)%nat
  then [Logged Info ("Cache invalidated: " +:+ pretty count
                       +:+ " schema(s) from " +:+ file)]
  else [].

(** The line [invalidateFile] logs while an event is handled. *)
Definition invalidatedBy (c : cache.SchemaCache)
    (ev : fileWatcher.WatchEvent) : list Event :=
  match ev with
  | fileWatcher.Change filePath => invalidatedLine c filePath
  | fileWatcher.Unlink filePath => invalidatedLine c filePath
  | _ => []
  end.

(** ** Further notions *)

(** Every character of the string is of the class. *)
Fixpoint allChars (f : ascii → bool) (s : string) : bool :=
  match s with
  | EmptyString => true
  | String c rest => f c && allChars f rest
  end.

(** A character [\w] matches, or a separator of [toPascalCase]. *)
Definition isWordOrSeparator (c : ascii) : bool :=
  JS.isWord c || pluralize.isSeparator c.

(** The string does not begin with a character of the class. *)
Definition notLedBy (f : ascii → bool) (s : string) : bool :=
  match s with
  | EmptyString => true
  | String c _ => negb (f c)
  end.

(** The entry names from an entry of a scanned directory down to a file
    that the scan reports: a regular file named "*.ts", below directories
    none of which is ignored. *)
Inductive leadsTo : fs.Dirent → list string → Prop :=
| leadsTo_file name :
    JS.endsWith name ".ts" = true → leadsTo (fs.File name) [name]
| leadsTo_directory name entries entry names :
    name ∉ typeMapping.ignoredDirectories →
    entry ∈ entries →
    leadsTo entry names →
    leadsTo (fs.Directory name entries) (name :: names).

(** Induction on a directory entry, with the entries of a directory. *)
Fixpoint Dirent_nested_ind (P : fs.Dirent → Prop)
    (Hfile : ∀ name, P (fs.File name))
    (Hdir : ∀ name entries, Forall P entries → P (fs.Directory name entries))
    (Hother : ∀ name, P (fs.Other name)) (entry : fs.Dirent) : P entry :=
  match entry with
  | fs.File name => Hfile name
  | fs.Directory name entries =>
      Hdir name entries
        ((fix all (l : list fs.Dirent) : Forall P l :=
            match l with
            | [] => @List.Forall_nil _ P
            | e :: l' =>
                @List.Forall_cons _ P e l'
                  (Dirent_nested_ind P Hfile Hdir Hother e) (all l')
            end) entries)
  | fs.Other name => Hother name
  end.

(** A schema object as OpenAPI has it: one of the five types the module
    writes, [items] on arrays and only there, [format] on strings only. *)
Fixpoint wellFormed (s : swagger.OpenAPISchema) : bool :=
  match s with
  | swagger.Schema type items format =>
      match items with
      | Some item =>
          String.eqb type "array" && wellFormed item
            && bool_decide (format = None)
      | None =>
          bool_decide (type ∈ ["string"; "number"; "boolean"; "object"])
            && (bool_decide (format = None)
                || (String.eqb type "string"
                    && bool_decide (format = Some "date-time")))
      end
  end.

(** The string holds no vertical bar. *)
Definition barFree (s : string) : bool :=
  allChars (λ c, negb (Ascii.eqb c "|")) s.

(** The names [typeToOpenAPISchema] knows. *)
Definition knownTypes : list string :=
  ["string"; "number"; "boolean"; "Date"; "any"; "unknown"].

(** A letter or a digit. *)
Definition isAlphanumeric (c : ascii) : bool :=
  JS.isUpper c || JS.isLower c || JS.isDigit c.

(** A plural that adds an "s", to go with [sample.inflector]. *)
Definition addS : PluralizeWord := λ word, word +:+ "s".

(** The values of the "$ref" fields of a JSON value, at any depth. *)
Fixpoint refsOf (j : Json) : list string :=
  match j with
  | JArr items => flat_map refsOf items
  | JObj fields =>
      flat_map
        (λ field,
           match field with
           | (key, value) =>
               (if String.eqb key "$ref"
                then match value with
                     | JStr target => [target]
                     | _ => []
                     end
                else [])
                 ++ refsOf value
           end)
        fields
  | _ => []
  end.

(** A property declaration in the body of an interface: what stands
    before the name, the name, the optional mark, the white space after
    the colon, and the type up to the semicolon. *)
Record Declaration := {
  declLead : string;
  declName : string;
  declOptional : bool;
  declGap : string;
  declType : string;
}.

Definition declarationText (d : Declaration) : string :=
  declLead d +:+ declName d
    +:+ (if declOptional d then "?" else EmptyString)
    +:+ ":" +:+ declGap d +:+ declType d +:+ ";".

Fixpoint bodyText (declarations : list Declaration) (tail : string)
  : string :=
  match declarations with
  | [] => tail
  | d :: rest => declarationText d +:+ bodyText rest tail
  end.

(** Text between declarations: no character of a name, and no closing
    brace. *)
Definition filler (s : string) : bool :=
  allChars (λ c, negb (JS.isWord c) && negb (Ascii.eqb c "}")) s.

(** A character of a type: neither a semicolon nor a closing brace. *)
Definition inType (c : ascii) : bool :=
  negb (Ascii.eqb c ";") && negb (Ascii.eqb c "}").

(** A declaration the property pattern reads as it is meant: the name is
    an identifier, and the type is not empty, is written without a
    semicolon and a closing brace, and does not begin with white space. *)
Definition wellWritten (d : Declaration) : bool :=
  filler (declLead d)
  && (JS.truthy (declName d) && allChars JS.isWord (declName d))
  && allChars JS.isSpace (declGap d)
  && (JS.truthy (declType d) && notLedBy JS.isSpace (declType d)
      && allChars inType (declType d)).

(** The file of an interface with two properties. *)
Definition orderDisk : fs.FileSystem :=
  {| fs.readdirSync _ := None;
     fs.readFileSync _ :=
       "// orders
export interface Order { id: number; tags?: string[]; }" |}.

(** The declaration of an exported interface in a file, up to the next
    one: the white space after "export" and after "interface", the name,
    and the text that follows the name. *)
Record Exported := {
  afterExport : string;
  afterInterface : string;
  exportedName : string;
  afterName : string;
}.

Definition exportedText (d : Exported) : string :=
  "export" +:+ afterExport d +:+ "interface" +:+ afterInterface d
    +:+ exportedName d +:+ afterName d.

Fixpoint exportsText (declarations : list Exported) : string :=
  match declarations with
  | [] => EmptyString
  | d :: rest => exportedText d +:+ exportsText rest
  end.

(** A declaration as it is written by hand: white space where the
    pattern wants some, an identifier, and after it a text that begins
    with another character than those of a name and does not hold the
    word "export". *)
Definition plainExport (d : Exported) : bool :=
  (JS.truthy (afterExport d) && allChars JS.isSpace (afterExport d))
  && (JS.truthy (afterInterface d) && allChars JS.isSpace (afterInterface d))
  && (JS.truthy (exportedName d) && allChars JS.isWord (exportedName d))
  && (JS.truthy (afterName d) && notLedBy JS.isWord (afterName d)
      && negb (text.includes "export" (afterName d))).

(** * Properties *)

(** ** The type catalog *)

Section Catalog.
Import typeMapping.
Context (disk : fs.FileSystem).

Lemma addInterface_lookup file (m : gmap string string) n T :
  addInterface file m n !! T =
    match m !! T with
    | Some f => Some f
    | None => if decide (n = T) then Some file else None
    end.
Proof.
  unfold addInterface.
  destruct (m !! n) as [g|] eqn:Hn.
  - destruct (m !! T) eqn:HT; [done|].
    case_decide; [congruence|done].
  - case_decide as Heq.
    + subst. rewrite lookup_insert_eq, Hn. done.
    + rewrite lookup_insert_ne by done. by destruct (m !! T).
Qed.

Lemma addInterfaces_lookup file names : ∀ (m : gmap string string) T,
  foldl (addInterface file) m names !! T =
    match m !! T with
    | Some f => Some f
    | None => if bool_decide (T ∈ names) then Some file else None
    end.
Proof.
  induction names as [|n names IH]; intros m T; simpl.
  - by destruct (m !! T).
  - rewrite IH, addInterface_lookup.
    destruct (m !! T) as [f|]; [done|].
    case_decide as Heq.
    + subst. rewrite bool_decide_eq_true_2 by apply list_elem_of_here. done.
    + destruct (bool_decide (T ∈ names)) eqn:Hin.
      * apply bool_decide_eq_true in Hin.
        rewrite bool_decide_eq_true_2 by (by apply list_elem_of_further). done.
      * apply bool_decide_eq_false in Hin.
        rewrite bool_decide_eq_false_2; [done|].
        rewrite elem_of_cons. intros [?|?]; [congruence|done].
Qed.

Lemma addFiles_lookup files : ∀ (m : gmap string string) T,
  foldl (addFile disk) m files !! T =
    match m !! T with
    | Some f => Some f
    | None => firstDeclaring disk T files
    end.
Proof.
  induction files as [|file files IH]; intros m T; simpl.
  - by destruct (m !! T).
  - rewrite IH. unfold addFile. rewrite addInterfaces_lookup.
    destruct (m !! T) as [f|]; [done|].
    unfold firstDeclaring; simpl. unfold declares at 2.
    by destruct (bool_decide _).
Qed.

Lemma find_app {A} (p : A → bool) (l1 l2 : list A) :
  List.find p (l1 ++ l2) =
    match List.find p l1 with
    | Some x => Some x
    | None => List.find p l2
    end.
Proof.
  induction l1 as [|x l1 IH]; simpl; [done|]. by destruct (p x).
Qed.

Lemma addDirectories_lookup directories : ∀ (m : gmap string string) T,
  foldl (addDirectory disk) m directories !! T =
    match m !! T with
    | Some f => Some f
    | None => firstDeclaring disk T (scanOrder disk directories)
    end.
Proof.
  induction directories as [|d directories IH]; intros m T; simpl.
  - by destruct (m !! T).
  - rewrite IH. unfold addDirectory. rewrite addFiles_lookup.
    destruct (m !! T) as [f|]; [done|].
    unfold firstDeclaring. rewrite find_app.
    by destruct (List.find _ _).
Qed.

(** The type map sends a name to the first file, in scan order, that
    declares it. *)
Lemma buildTypeMap_lookup directories T :
  buildTypeMap disk directories !! T =
    firstDeclaring disk T (scanOrder disk directories).
Proof.
  unfold buildTypeMap. rewrite addDirectories_lookup.
  by rewrite lookup_empty.
Qed.

Lemma firstDeclaring_Some T files f :
  firstDeclaring disk T files = Some f →
  f ∈ files ∧ T ∈ extractInterfaceNames disk f.
Proof.
  unfold firstDeclaring. intros Hf.
  apply find_some in Hf as [Hin Hd].
  split; [by apply list_elem_of_In|].
  by apply bool_decide_eq_true in Hd.
Qed.

Lemma firstDeclaring_is_Some T files :
  existsb (declares disk T) files = true →
  is_Some (firstDeclaring disk T files).
Proof.
  unfold firstDeclaring.
  induction files as [|f files IH]; simpl; [done|].
  destruct (declares disk T f); [eauto|]. simpl. exact IH.
Qed.

Lemma firstDeclaring_None T files :
  existsb (declares disk T) files = false →
  firstDeclaring disk T files = None.
Proof.
  unfold firstDeclaring.
  induction files as [|f files IH]; simpl; [done|].
  destruct (declares disk T f); [done|]. simpl. exact IH.
Qed.

End Catalog.

Section CatalogClaims.
Import typeMapping.
Context (disk : fs.FileSystem).

Lemma scanOrder_app directories more :
  scanOrder disk (directories ++ more) =
    scanOrder disk directories ++ scanOrder disk more.
Proof. unfold scanOrder. apply flat_map_app. Qed.

Lemma buildTypeMap_pair_first A B T :
  defines disk A T = true →
  ∃ f, buildTypeMap disk [A; B] !! T = Some f
       ∧ firstDeclaring disk T (findTypeScriptFiles disk A) = Some f
       ∧ f ∈ findTypeScriptFiles disk A
       ∧ T ∈ extractInterfaceNames disk f.
Proof.
  intros HA. apply firstDeclaring_is_Some in HA as [f Hf].
  exists f. rewrite buildTypeMap_lookup.
  change (scanOrder disk [A; B])
    with (findTypeScriptFiles disk A ++ scanOrder disk [B]).
  unfold firstDeclaring at 1. rewrite find_app.
  fold (firstDeclaring disk T (findTypeScriptFiles disk A)). rewrite Hf.
  destruct (firstDeclaring_Some _ _ _ _ Hf) as [Hin Hdecl]. done.
Qed.

(** C1.  When the directories [A] and [B] both define a type [T], the type
    map built from [[A; B]] sends [T] to a file of [A] that declares it
    (the first one in scan order), and the map built from [[B; A]] sends
    it to a file of [B].  In general the map sends every name to the
    first file, in scan order, that declares it; an entry once made is
    kept whatever is scanned later: one path per name, never a merge. *)
Theorem buildTypeMap_first_wins (A B T : string) :
  defines disk A T = true →
  defines disk B T = true →
  (∃ fa, buildTypeMap disk [A; B] !! T = Some fa
         ∧ firstDeclaring disk T (findTypeScriptFiles disk A) = Some fa
         ∧ fa ∈ findTypeScriptFiles disk A
         ∧ T ∈ extractInterfaceNames disk fa)
  ∧ (∃ fb, buildTypeMap disk [B; A] !! T = Some fb
           ∧ firstDeclaring disk T (findTypeScriptFiles disk B) = Some fb
           ∧ fb ∈ findTypeScriptFiles disk B
           ∧ T ∈ extractInterfaceNames disk fb)
  ∧ (∀ directories name,
       buildTypeMap disk directories !! name =
         firstDeclaring disk name (scanOrder disk directories))
  ∧ (∀ directories more name f,
       buildTypeMap disk directories !! name = Some f →
       buildTypeMap disk (directories ++ more) !! name = Some f).
Proof.
  intros HA HB. split; [by apply buildTypeMap_pair_first|].
  split; [by apply buildTypeMap_pair_first|].
  split; [apply buildTypeMap_lookup|].
  intros directories more name f.
  rewrite !buildTypeMap_lookup, scanOrder_app.
  unfold firstDeclaring. rewrite find_app. by intros ->.
Qed.

Lemma extractInterfaceNames_truthy file name :
  name ∈ extractInterfaceNames disk file → JS.truthy name = true.
Proof.
  unfold extractInterfaceNames. rewrite list_elem_of_filter. by intros [? _].
Qed.

Lemma buildTypeMap_empty_name directories :
  buildTypeMap disk directories !! EmptyString = None.
Proof.
  rewrite buildTypeMap_lookup.
  destruct (firstDeclaring _ _ _) as [f|] eqn:Hf; [|done].
  apply firstDeclaring_Some in Hf as [_ Hin].
  by apply extractInterfaceNames_truthy in Hin.
Qed.

End CatalogClaims.

Lemma buildTypeMap_first_wins_witness :
  defines sample.disk "/a" "DuplicateType" = true
  ∧ defines sample.disk "/b" "DuplicateType" = true
  ∧ typeMapping.buildTypeMap sample.disk ["/a"; "/b"] !! "DuplicateType"
      = Some "/a/duplicate.ts"
  ∧ typeMapping.buildTypeMap sample.disk ["/b"; "/a"] !! "DuplicateType"
      = Some "/b/duplicate.ts".
Proof.
  split; [reflexivity|]. split; [reflexivity|].
  destruct (buildTypeMap_first_wins sample.disk "/a" "/b" "DuplicateType"
              eq_refl eq_refl) as ((fa & -> & Ha & _) & (fb & -> & Hb & _) & _).
  split; [rewrite <- Ha|rewrite <- Hb]; reflexivity.
Defined.

(** ** The scan on a file system that can fail *)

Section Faulty.
Import faulty.

Lemma collect_readable currentDir entries :
  Forall (λ entry, ∀ dir,
            scanEntry dir (readable entry)
              = Returned (typeMapping.scanEntry dir entry)) entries →
  collect (scanEntry currentDir) (map readable entries)
    = Returned (flat_map (typeMapping.scanEntry currentDir) entries).
Proof.
  induction 1 as [|entry entries Hentry _ IH]; simpl; [done|].
  rewrite Hentry. simpl.
  change ((fix go (l : list Dirent) : Completion (list string) :=
             match l with
             | [] => Returned []
             | a :: rest =>
                 andThen (scanEntry currentDir a) (λ found,
                   andThen (go rest) (λ more, Returned (found ++ more)))
             end) (map readable entries))
    with (collect (scanEntry currentDir) (map readable entries)).
  by rewrite IH.
Qed.

Lemma scanEntry_readable entry : ∀ currentDir,
  scanEntry currentDir (readable entry)
    = Returned (typeMapping.scanEntry currentDir entry).
Proof.
  induction entry as [name|name entries IH|name] using Dirent_nested_ind;
    intros currentDir; simpl; [done| |done].
  destruct (bool_decide (name ∈ typeMapping.ignoredDirectories)); [done|].
  by apply collect_readable.
Qed.

Lemma foldCompletion_returned {A B} (f : A → B → Completion A)
    (g : A → B → A) l : ∀ a,
  (∀ a b, f a b = Returned (g a b)) →
  foldCompletion f a l = Returned (foldl g a l).
Proof.
  induction l as [|b l IH]; intros a Hf; simpl; [done|].
  rewrite Hf. simpl. by apply IH.
Qed.

(** On a tree that every call reads, no call throws, and the functions
    return what [typeMapping] says. *)
Lemma reliable_buildTypeMap (tree : fs.FileSystem) directories :
  buildTypeMap (reliable tree) directories
    = Returned (typeMapping.buildTypeMap tree directories).
Proof.
  unfold buildTypeMap, typeMapping.buildTypeMap.
  apply foldCompletion_returned. intros typeMap dir.
  unfold addDirectory, typeMapping.addDirectory, findTypeScriptFiles,
    typeMapping.findTypeScriptFiles. simpl.
  destruct (fs.readdirSync tree dir) as [entries|]; simpl; [|done].
  rewrite collect_readable
    by (apply Forall_forall; intros entry _; apply scanEntry_readable).
  by apply foldCompletion_returned.
Qed.

Lemma reliable_findTypeForUrl `{Pluralize} (tree : fs.FileSystem)
    url directories :
  findTypeForUrl (reliable tree) url directories
    = Returned (typeMapping.findTypeForUrl tree url directories).
Proof.
  unfold findTypeForUrl. by rewrite reliable_buildTypeMap.
Qed.

(** No interface has the empty name, so the type map has no entry under
    it, whatever was read before an error or without one. *)
Lemma addFile_empty_name (disk : FileSystem) typeMap file typeMap' :
  typeMap !! EmptyString = None →
  addFile disk typeMap file = Returned typeMap' →
  typeMap' !! EmptyString = None.
Proof.
  unfold addFile, extractInterfaceNames.
  destruct (readFileSync disk file) as [content|message]; simpl; [|done].
  intros Hnone [= <-]. revert typeMap Hnone.
  set (names := filter _ _).
  assert (Hnames : Forall (λ name, JS.truthy name = true) names).
  { apply Forall_forall. intros name. unfold names.
    rewrite list_elem_of_filter. by intros [? _]. }
  induction Hnames as [|name names Hname _ IH]; intros typeMap Hnone;
    simpl; [done|].
  apply IH. rewrite addInterface_lookup, Hnone.
  case_decide as Heq; [|done]. by subst name.
Qed.

Lemma foldCompletion_invariant {A B} (P : A → Prop)
    (f : A → B → Completion A) l : ∀ a a',
  (∀ a b a', P a → f a b = Returned a' → P a') →
  P a → foldCompletion f a l = Returned a' → P a'.
Proof.
  induction l as [|b l IH]; intros a a' Hf Ha; simpl; [by intros [= <-]|].
  destruct (f a b) as [a1|message] eqn:Hfab; simpl; [|done].
  apply IH; [done|]. by apply (Hf a b).
Qed.

Lemma buildTypeMap_no_empty_name (disk : FileSystem) directories typeMap :
  buildTypeMap disk directories = Returned typeMap →
  typeMap !! EmptyString = None.
Proof.
  unfold buildTypeMap.
  apply (foldCompletion_invariant (λ m, m !! EmptyString = None));
    [|apply lookup_empty].
  intros m dir m' Hm. unfold addDirectory.
  destruct (findTypeScriptFiles disk dir) as [files|message]; simpl;
    [|done].
  apply (foldCompletion_invariant (λ m, m !! EmptyString = None)); [|done].
  intros m1 file m2. apply addFile_empty_name.
Qed.

End Faulty.

Section EmptyPath.
Import faulty.
Context `{Pluralize}.

(** C8, as the code has it.  The paths "/" and "" have no segment, and a
    path without a segment resolves to the empty type name (the inflection
    package leaves the empty word as it is).  [findTypeForUrl] builds the
    type map first: when a directory cannot be listed or a file cannot be
    read, the error of that call is thrown, for these paths as for any
    other.  When the scan completes, the type map has no entry under the
    empty name, whatever the directories hold, and [findTypeForUrl]
    returns [null]; so it does on every tree that all the calls read. *)
Theorem empty_path_misses (disk : FileSystem) :
  singular EmptyString = EmptyString →
  pluralize.extractLastSegment "/" = EmptyString
  ∧ pluralize.extractLastSegment EmptyString = EmptyString
  ∧ ∀ url, pluralize.extractLastSegment url = EmptyString →
      pluralize.typeName (pluralize.parseUrlToType url) = EmptyString
      ∧ ∀ directories,
          findTypeForUrl disk url directories
            = match buildTypeMap disk directories with
              | Returned _ => Returned None
              | Thrown message => Thrown message
              end
          ∧ ∀ tree, disk = reliable tree →
              findTypeForUrl disk url directories = Returned None
              ∧ typeMapping.findTypeForUrl tree url directories = None.
Proof.
  intros Hsing. split; [done|]. split; [done|].
  intros url Hseg.
  assert (Hname :
    pluralize.typeName (pluralize.parseUrlToType url) = EmptyString).
  { unfold pluralize.parseUrlToType, pluralize.urlSegmentToTypeName.
    rewrite Hseg. simpl. rewrite Hsing. by destruct (isPlural _). }
  split; [done|]. intros directories.
  assert (Hfind : findTypeForUrl disk url directories
            = match buildTypeMap disk directories with
              | Returned _ => Returned None
              | Thrown message => Thrown message
              end).
  { unfold findTypeForUrl. rewrite Hname.
    destruct (buildTypeMap disk directories) as [typeMap|message] eqn:Hmap;
      simpl; [|done].
    by rewrite (buildTypeMap_no_empty_name _ _ _ Hmap). }
  split; [done|]. intros tree ->.
  rewrite Hfind, reliable_buildTypeMap. split; [done|].
  unfold typeMapping.findTypeForUrl. rewrite Hname.
  by rewrite buildTypeMap_empty_name.
Qed.

End EmptyPath.

Lemma empty_path_misses_witness :
  @singular sample.inflector EmptyString = EmptyString
  ∧ @faulty.findTypeForUrl (faulty.reliable sample.disk) sample.inflector
      "/" ["/contracts"; "/a"] = faulty.Returned None
  ∧ @faulty.findTypeForUrl (faulty.reliable sample.disk) sample.inflector
      EmptyString ["/contracts"; "/a"] = faulty.Returned None.
Proof.
  split; [reflexivity|].
  destruct (@empty_path_misses sample.inflector
              (faulty.reliable sample.disk) eq_refl)
    as (Hroot & Hnone & Hmiss).
  split.
  - exact (proj1 (proj2 (proj2 (Hmiss "/" Hroot) ["/contracts"; "/a"])
                    sample.disk eq_refl)).
  - exact (proj1 (proj2 (proj2 (Hmiss EmptyString Hnone)
                           ["/contracts"; "/a"])
                    sample.disk eq_refl)).
Defined.

(** C8, counterexample.  The contracts directory holds a directory that
    may not be listed: [findTypeForUrl] throws the error of [readdirSync]
    for the paths "/" and "", where the specification has it return
    [null]. *)
Lemma unreadable_directory_throws :
  @faulty.findTypeForUrl sample.locked sample.inflector "/" ["/contracts"]
    = faulty.Thrown
        "EACCES: permission denied, scandir '/contracts/private'"
  ∧ @faulty.findTypeForUrl sample.locked sample.inflector EmptyString
      ["/contracts"]
    = faulty.Thrown
        "EACCES: permission denied, scandir '/contracts/private'".
Proof. split; reflexivity. Qed.

(** ** URL resolution *)

Section Resolution.
Import pluralize.

Lemma append_cons c s t : String c s +:+ t = String c (s +:+ t).
Proof. reflexivity. Qed.

Lemma append_empty_l s : EmptyString +:+ s = s.
Proof. reflexivity. Qed.

Lemma append_empty_r s : s +:+ EmptyString = s.
Proof.
  induction s as [|c s IH]; [done|]. by rewrite append_cons, IH.
Qed.

Lemma split_nonempty sep s : JS.split sep s ≠ [].
Proof.
  destruct s as [|c s]; simpl; [done|].
  destruct (Ascii.eqb c sep); [done|]. by destruct (JS.split sep s).
Qed.

Lemma split_app sep a b :
  JS.split sep (a +:+ String sep b) = JS.split sep a ++ JS.split sep b.
Proof.
  induction a as [|c a IH]; rewrite ?append_empty_l, ?append_cons; simpl.
  - by rewrite Ascii.eqb_refl.
  - destruct (Ascii.eqb c sep); [by rewrite IH|].
    rewrite IH. pose proof (split_nonempty sep a).
    by destruct (JS.split sep a).
Qed.

Lemma split_slashes n : JS.split "/" (slashes n) = replicate (S n) EmptyString.
Proof. induction n as [|n IH]; simpl; [done|]. by rewrite IH. Qed.

Lemma split_segment segment n :
  noSlash segment = true →
  JS.split "/" (segment +:+ slashes n) = segment :: replicate n EmptyString.
Proof.
  induction segment as [|c segment IH];
    rewrite ?append_empty_l, ?append_cons; simpl; intros Hs.
  - apply split_slashes.
  - apply andb_true_iff in Hs as [Hc Hs].
    apply negb_true_iff in Hc. rewrite Hc, (IH Hs). done.
Qed.

Lemma filter_truthy_replicate n :
  filter (λ s, JS.truthy s = true) (replicate n EmptyString) = [].
Proof. induction n as [|n IH]; simpl; [done|]. exact IH. Qed.

(** The last non-empty component of a path is its last segment. *)
Lemma extractLastSegment_last before segment n :
  JS.truthy segment = true →
  noSlash segment = true →
  extractLastSegment (before +:+ String "/" (segment +:+ slashes n)) = segment.
Proof.
  intros Ht Hs. unfold extractLastSegment.
  rewrite split_app, (split_segment _ _ Hs), filter_app, filter_cons_True by done.
  rewrite filter_truthy_replicate, last_snoc. by rewrite Ht.
Qed.

Lemma replaceSeparators_word flag w c rest :
  plain w = true →
  isSeparator c = true →
  replaceSeparators flag (w +:+ String c rest) =
    (if flag then capitalizeFirst w else w) +:+ replaceSeparators true rest.
Proof.
  intros Hw Hc.
  destruct w as [|a w]; rewrite ?append_empty_l, ?append_cons; simpl.
  - rewrite Hc. by destruct flag.
  - simpl in Hw. apply andb_true_iff in Hw as [Ha Hw].
    apply negb_true_iff in Ha. rewrite Ha.
    assert (Hrest : replaceSeparators false (w +:+ String c rest)
                    = w +:+ replaceSeparators true rest).
    { clear Ha. induction w as [|b w IH];
        rewrite ?append_empty_l, ?append_cons; simpl.
      - by rewrite Hc.
      - simpl in Hw. apply andb_true_iff in Hw as [Hb Hw].
        apply negb_true_iff in Hb. rewrite Hb. simpl. by rewrite (IH Hw). }
    rewrite Hrest. destruct flag; simpl; [|done].
    by destruct (JS.isLineTerminator a).
Qed.

Lemma replaceSeparators_plain flag w :
  plain w = true →
  replaceSeparators flag w = if flag then capitalizeFirst w else w.
Proof.
  intros Hw. destruct w as [|a w]; simpl; [by destruct flag|].
  simpl in Hw. apply andb_true_iff in Hw as [Ha Hw].
  apply negb_true_iff in Ha. rewrite Ha.
  assert (Hrest : replaceSeparators false w = w).
  { clear Ha. induction w as [|b w IH]; simpl; [done|].
    simpl in Hw. apply andb_true_iff in Hw as [Hb Hw].
    apply negb_true_iff in Hb. rewrite Hb. simpl. by rewrite (IH Hw). }
  rewrite Hrest. destruct flag; simpl; [|done].
  by destruct (JS.isLineTerminator a).
Qed.

Lemma replaceSeparators_words rest : ∀ flag w,
  plain w = true →
  separated rest →
  replaceSeparators flag (joinWords w rest) =
    (if flag then capitalizeFirst w else w) +:+ pascalTail rest.
Proof.
  induction rest as [|[c w'] rest IH]; intros flag w Hw Hrest; simpl.
  - rewrite replaceSeparators_plain by done.
    by rewrite append_empty_r.
  - apply Forall_cons in Hrest as [[Hc Hw'] Hrest]; simpl in Hc, Hw'.
    rewrite replaceSeparators_word by done.
    by rewrite (IH true w' Hw' Hrest).
Qed.

(** Words joined by hyphens or underscores become their capitalized forms,
    concatenated. *)
Lemma toPascalCase_words w rest :
  JS.truthy w = true →
  plain w = true →
  separated rest →
  toPascalCase (joinWords w rest) = capitalizeFirst w +:+ pascalTail rest.
Proof.
  intros Ht Hw Hrest. unfold toPascalCase.
  rewrite (replaceSeparators_words rest false w Hw Hrest).
  destruct w as [|a w]; [done|]. simpl.
  by destruct (JS.isLineTerminator a).
Qed.

End Resolution.

Section ResolutionClaims.
Import pluralize.
Context `{Pluralize}.

Lemma parseUrlToType_unfold url :
  parseUrlToType url =
    {| typeName :=
         toPascalCase
           (if isPlural (extractLastSegment url)
            then singular (extractLastSegment url)
            else extractLastSegment url);
       isArray := isPlural (extractLastSegment url) |}.
Proof. reflexivity. Qed.

(** C2, as the code has it.  With an inflection package that knows
    "users", "people" and "user-profiles" as the plurals of "user",
    "person" and "user-profile", and "user" as no plural, the four paths
    resolve as stated.  In general the segment resolved is the last
    non-empty one between slashes; it is singularized exactly when
    [isPlural] holds of it, and that flag is the array flag; the result is
    PascalCased, which capitalizes the words between hyphens and
    underscores and joins them.  So a segment is marked as an array
    exactly when the package takes it for a plural, also when it is its
    own singular form: it then resolves to an array of the type of its
    own name. *)
Theorem parseUrlToType_resolution :
  isPlural "users" = true → singular "users" = "user" →
  isPlural "user" = false →
  isPlural "people" = true → singular "people" = "person" →
  isPlural "user-profiles" = true →
  singular "user-profiles" = "user-profile" →
  parseUrlToType "/api/v1/users" = {| typeName := "User"; isArray := true |}
  ∧ parseUrlToType "/api/user" = {| typeName := "User"; isArray := false |}
  ∧ parseUrlToType "/api/people"
      = {| typeName := "Person"; isArray := true |}
  ∧ parseUrlToType "/api/user-profiles"
      = {| typeName := "UserProfile"; isArray := true |}
  ∧ (∀ before segment n,
       JS.truthy segment = true → noSlash segment = true →
       extractLastSegment (before +:+ String "/" (segment +:+ slashes n))
         = segment)
  ∧ (∀ url,
       parseUrlToType url =
         {| typeName :=
              toPascalCase
                (if isPlural (extractLastSegment url)
                 then singular (extractLastSegment url)
                 else extractLastSegment url);
            isArray := isPlural (extractLastSegment url) |})
  ∧ (∀ w rest,
       JS.truthy w = true → plain w = true → separated rest →
       toPascalCase (joinWords w rest) = capitalizeFirst w +:+ pascalTail rest)
  ∧ (∀ before segment n,
       JS.truthy segment = true → noSlash segment = true →
       singular segment = segment →
       parseUrlToType (before +:+ String "/" (segment +:+ slashes n))
         = {| typeName := toPascalCase segment;
              isArray := isPlural segment |}).
Proof.
  intros Husers Huser1 Huser Hpeople Hperson Hprofiles Hprofile.
  split.
  { rewrite parseUrlToType_unfold.
    change (extractLastSegment "/api/v1/users") with "users".
    by rewrite Husers, Huser1. }
  split.
  { rewrite parseUrlToType_unfold.
    change (extractLastSegment "/api/user") with "user".
    by rewrite Huser. }
  split.
  { rewrite parseUrlToType_unfold.
    change (extractLastSegment "/api/people") with "people".
    by rewrite Hpeople, Hperson. }
  split.
  { rewrite parseUrlToType_unfold.
    change (extractLastSegment "/api/user-profiles") with "user-profiles".
    by rewrite Hprofiles, Hprofile. }
  split; [apply extractLastSegment_last|].
  split; [apply parseUrlToType_unfold|].
  split; [apply toPascalCase_words|].
  intros before segment n Ht Hs Hown. rewrite parseUrlToType_unfold.
  rewrite (extractLastSegment_last before segment n Ht Hs), Hown.
  by destruct (isPlural segment).
Qed.

End ResolutionClaims.

Lemma parseUrlToType_resolution_witness :
  @pluralize.parseUrlToType sample.inflector "/api/v1/users"
    = {| pluralize.typeName := "User"; pluralize.isArray := true |}
  ∧ @pluralize.parseUrlToType sample.inflector "/api/user"
      = {| pluralize.typeName := "User"; pluralize.isArray := false |}
  ∧ @pluralize.parseUrlToType sample.inflector "/api/people"
      = {| pluralize.typeName := "Person"; pluralize.isArray := true |}
  ∧ @pluralize.parseUrlToType sample.inflector "/api/user-profiles"
      = {| pluralize.typeName := "UserProfile"; pluralize.isArray := true |}.
Proof.
  destruct (@parseUrlToType_resolution sample.inflector
              eq_refl eq_refl eq_refl eq_refl eq_refl eq_refl eq_refl)
    as (H1 & H2 & H3 & H4 & _).
  exact (conj H1 (conj H2 (conj H3 H4))).
Defined.

(** C2, counterexample.  The word "sheep" is its own singular form, and
    an inflection package that says so and takes it for a plural as well
    (as it does "users", "people" and "user-profiles") has "/api/sheep"
    marked as an array. *)
Lemma own_singular_marked_as_array :
  @singular sample.uncountable "sheep" = "sheep"
  ∧ @isPlural sample.uncountable "user" = false
  ∧ @pluralize.parseUrlToType sample.uncountable "/api/v1/users"
      = {| pluralize.typeName := "User"; pluralize.isArray := true |}
  ∧ @pluralize.parseUrlToType sample.uncountable "/api/people"
      = {| pluralize.typeName := "Person"; pluralize.isArray := true |}
  ∧ @pluralize.parseUrlToType sample.uncountable "/api/sheep"
      = {| pluralize.typeName := "Sheep"; pluralize.isArray := true |}.
Proof. repeat split; reflexivity. Qed.

(** ** The mock/proxy decision *)

Section Lookup.
Import typeMapping.
Context (disk : fs.FileSystem).

Lemma join_truthy dir name : JS.truthy (fs.join dir name) = true.
Proof. by destruct dir. Qed.

Lemma scanEntry_truthy : ∀ entry dir f,
  In f (scanEntry dir entry) → JS.truthy f = true.
Proof.
  fix IH 1. intros [name|name entries|name] dir f; simpl.
  - destruct (JS.endsWith name ".ts"); simpl; [|done].
    intros [<-|[]]. apply join_truthy.
  - destruct (bool_decide _); [done|].
    induction entries as [|e entries IHentries]; simpl; [done|].
    rewrite in_app_iff. intros [Hin|Hin]; [exact (IH e _ _ Hin)|auto].
  - done.
Qed.

Lemma findTypeScriptFiles_truthy dir f :
  In f (findTypeScriptFiles disk dir) → JS.truthy f = true.
Proof.
  unfold findTypeScriptFiles. destruct (fs.readdirSync disk dir); [|done].
  rewrite in_flat_map. intros (e & _ & Hin). by eapply scanEntry_truthy.
Qed.

Lemma scanOrder_truthy directories f :
  f ∈ scanOrder disk directories → JS.truthy f = true.
Proof.
  rewrite list_elem_of_In. unfold scanOrder. rewrite in_flat_map.
  intros (d & _ & Hin). by eapply findTypeScriptFiles_truthy.
Qed.

Context `{Pluralize}.

(** [findTypeForUrl] finds the first file, in scan order, that declares the
    type the URL resolves to. *)
Lemma findTypeForUrl_first url directories :
  findTypeForUrl disk url directories =
    (λ f, {| typeName := pluralize.typeName (pluralize.parseUrlToType url);
             isArray := pluralize.isArray (pluralize.parseUrlToType url);
             filePath := f |})
      <$> firstDeclaring disk
            (pluralize.typeName (pluralize.parseUrlToType url))
            (scanOrder disk directories).
Proof.
  unfold findTypeForUrl. rewrite buildTypeMap_lookup.
  destruct (firstDeclaring _ _ _) as [f|] eqn:Hf; [|done]. simpl.
  apply firstDeclaring_Some in Hf as [Hin _].
  by rewrite (scanOrder_truthy _ _ Hin).
Qed.

Lemma findTypeForUrl_known url directories :
  known disk directories (pluralize.typeName (pluralize.parseUrlToType url))
    = true →
  is_Some (findTypeForUrl disk url directories).
Proof.
  intros Hk. rewrite findTypeForUrl_first.
  apply firstDeclaring_is_Some in Hk as [f ->]. by eexists.
Qed.

Lemma findTypeForUrl_unknown url directories :
  known disk directories (pluralize.typeName (pluralize.parseUrlToType url))
    = false →
  findTypeForUrl disk url directories = None.
Proof.
  intros Hk. rewrite findTypeForUrl_first.
  by rewrite (firstDeclaring_None _ _ _ Hk).
Qed.

End Lookup.

(** ** The request handler *)

Section HandlerCases.
Import typeMapping router.
Context `{Pluralize} {G : Type} `{MockGenerator G}.
Context (config : ServerConfig) (disk : fs.FileSystem).
Context (now : Z) (req : Request) (res : ResponseObject) (w : World G).

Local Abbreviation built := (emit (TypeMapBuilt (allDirs config)) w).

Lemma handler_unresolved :
  findTypeForUrl disk (url req) (allDirs config) = None →
  dynamicRouteHandler config disk now req res w =
    ({| status := JS.orNum (forcedStatus res) 404;
        body := typeNotFoundBody (url req) |}, built).
Proof. intros Hm. unfold dynamicRouteHandler. by rewrite Hm. Qed.

Lemma handler_forced mapping code :
  findTypeForUrl disk (url req) (allDirs config) = Some mapping →
  forcedError (forcedStatus res) = Some code →
  dynamicRouteHandler config disk now req res w =
    ({| status := code; body := forcedErrorBody code |}, built).
Proof. intros Hm Hf. unfold dynamicRouteHandler. by rewrite Hm, Hf. Qed.


Lemma handler_miss mapping payload g :
  findTypeForUrl disk (url req) (allDirs config) = Some mapping →
  forcedError (forcedStatus res) = None →
  cacheable config mapping = true →
  cache.get (schemaCache w) (typeName mapping) (filePath mapping) = None →
  generate mapping (generator w) = (inr payload, g) →
  dynamicRouteHandler config disk now req res w =
    ({| status := JS.orNum (forcedStatus res) 200; body := payload |},
     withCache
       (cache.set (schemaCache w) (typeName mapping) (filePath mapping)
          payload now)
       (withGenerator g built)).
Proof.
  intros Hm Hf Hc Hg Hgen. unfold dynamicRouteHandler. rewrite Hm, Hf, Hc.
  simpl. by rewrite Hg, Hgen.
Qed.

Lemma handler_uncached mapping payload g :
  findTypeForUrl disk (url req) (allDirs config) = Some mapping →
  forcedError (forcedStatus res) = None →
  cacheable config mapping = false →
  generate mapping (generator w) = (inr payload, g) →
  dynamicRouteHandler config disk now req res w =
    ({| status := JS.orNum (forcedStatus res) 200; body := payload |},
     withGenerator g built).
Proof.
  intros Hm Hf Hc Hgen. unfold dynamicRouteHandler. rewrite Hm, Hf, Hc.
  simpl. by rewrite Hgen.
Qed.

Lemma handler_failed mapping message g :
  findTypeForUrl disk (url req) (allDirs config) = Some mapping →
  forcedError (forcedStatus res) = None →
  (cacheable config mapping = true →
   cache.get (schemaCache w) (typeName mapping) (filePath mapping) = None) →
  generate mapping (generator w) = (inl message, g) →
  dynamicRouteHandler config disk now req res w =
    ({| status := JS.orNum (forcedStatus res) 500;
        body := generationFailedBody message |},
     emit (Logged Error ("Error generating mock: " +:+ message))
       (withGenerator g built)).
Proof.
  intros Hm Hf Hg Hgen. unfold dynamicRouteHandler. rewrite Hm, Hf.
  destruct (cacheable config mapping); simpl.
  - by rewrite Hg, Hgen.
  - by rewrite Hgen.
Qed.

End HandlerCases.

Section HandlerClaims.
Import typeMapping router.
Context `{Pluralize} {G : Type} `{MockGenerator G}.
Context (config : ServerConfig) (disk : fs.FileSystem).

Lemma cacheable_true mapping :
  cacheable config mapping = true →
  cache config = true ∧ isArray mapping = false.
Proof.
  unfold cacheable. rewrite !andb_true_iff, negb_true_iff.
  by intros [[Hcache _] Hsingle].
Qed.

Lemma cacheable_array mapping :
  isArray mapping = true → cacheable config mapping = false.
Proof.
  unfold cacheable. intros ->. simpl. apply andb_false_r.
Qed.

(** C6.  Whatever the request, the handler changes the shared cache only
    when the route resolves to a singular type with caching switched on
    and the look-up of its key misses; the change is then the [set] of the
    payload that is sent.  On an array route the cache is left as it was
    and the reply does not depend on what the cache holds: it is what
    [generateMockArray] has just produced. *)
Theorem cache_entries_only_for_singular_misses (now : Z) (req : Request)
    (res : ResponseObject) (w : World G) :
  let result := dynamicRouteHandler config disk now req res w in
  (schemaCache (snd result) ≠ schemaCache w →
   ∃ mapping,
     findTypeForUrl disk (url req) (allDirs config) = Some mapping
     ∧ isArray mapping = false
     ∧ cache config = true
     ∧ cache.get (schemaCache w) (typeName mapping) (filePath mapping) = None
     ∧ schemaCache (snd result) =
         cache.set (schemaCache w) (typeName mapping) (filePath mapping)
           (body (fst result)) now)
  ∧ (∀ mapping,
       findTypeForUrl disk (url req) (allDirs config) = Some mapping →
       isArray mapping = true →
       schemaCache (snd result) = schemaCache w
       ∧ (∀ c, fst (dynamicRouteHandler config disk now req res
                      (withCache c w)) = fst result)
       ∧ (∀ payload g,
            forcedError (forcedStatus res) = None →
            generateMockArray (filePath mapping) (typeName mapping)
              (generator w) = (inr payload, g) →
            body (fst result) = payload)).
Proof.
  simpl. split.
  - unfold dynamicRouteHandler.
    destruct (findTypeForUrl _ _ _) as [mapping|] eqn:Hm; [|done].
    destruct (forcedError _); [done|].
    destruct (cacheable config mapping) eqn:Hc; simpl.
    + destruct (cache.get _ _ _) eqn:Hg; [done|].
      destruct (generate _ _) as [[message|payload] g]; simpl; [done|].
      intros _. exists mapping.
      apply cacheable_true in Hc as [Hcache Hsingle]. done.
    + by destruct (generate _ _) as [[message|payload] g].
  - intros mapping Hm Harray.
    pose proof (cacheable_array mapping Harray) as Hc.
    unfold dynamicRouteHandler. simpl. rewrite Hm.
    destruct (forcedError _) eqn:Hf; [done|]. rewrite Hc. simpl.
    unfold generate. rewrite Harray.
    destruct (generateMockArray _ _ _) as [[message|payload] g] eqn:Hgen;
      simpl.
    + split; [done|]. split; [done|]. intros ? ? _ ?. congruence.
    + split; [done|]. split; [done|]. intros ? ? _ ?. congruence.
Qed.




End HandlerClaims.

(** ** Forced statuses *)

Section ForcedStatus.
Import typeMapping router statusOverride.
Context `{Pluralize} {G : Type} `{MockGenerator G}.
Context (config : ServerConfig) (disk : fs.FileSystem).

Lemma orNum_forced n d : n ≠ 0 → JS.orNum (Some n) d = n.
Proof. intros Hn. unfold JS.orNum. by rewrite (proj2 (Z.eqb_neq n 0) Hn). Qed.

Lemma forcedError_ge n : 400 ≤ n → forcedError (Some n) = Some n.
Proof.
  intros Hn. unfold forcedError.
  rewrite (proj2 (Z.eqb_neq n 0)) by lia.
  by rewrite (proj2 (Z.leb_le 400 n) Hn).
Qed.

Lemma forcedError_lt n : n < 400 → forcedError (Some n) = None.
Proof.
  intros Hn. unfold forcedError.
  rewrite (proj2 (Z.leb_gt 400 n) Hn). by rewrite andb_false_r.
Qed.

Lemma middleware_forcedStatus (req : Request) (res : ResponseObject)
    (w : World G) :
  forcedStatus (fst (statusOverrideMiddleware req res w)) =
    match headers req !! "x-mock-status" with
    | Some v =>
        match JS.parseInt v with
        | Some n =>
            if (100 <=? n) && (n <? 600) then Some n else forcedStatus res
        | None => forcedStatus res
        end
    | None => forcedStatus res
    end.
Proof.
  unfold statusOverrideMiddleware.
  destruct (headers req !! "x-mock-status") as [v|]; [|done].
  destruct v as [|c v]; [done|]. cbn [JS.truthy].
  destruct (JS.parseInt _) as [n|]; [|done].
  by destruct ((100 <=? n) && (n <? 600)).
Qed.

(** C10.  The middleware records a forced status [n] exactly when the
    request has an [x-mock-status] header that [parseInt] reads as [n] with
    [100 <= n <= 599].  With a forced status of 400 or more the handler
    replies with that status, runs no generator and leaves the cache as it
    is; the body is the fixed forced-error body when the URL resolves to a
    type (the type-not-found body when it does not).  With a forced status
    below 400 the reply is the one the request gets without a forced
    status, under the forced status. *)
Theorem forced_status_honoured (now : Z) (req : Request)
    (res bare : ResponseObject) (w : World G) :
  let handled := dynamicRouteHandler config disk now req res w in
  (∀ n, forcedStatus res = None →
     forcedStatus (fst (statusOverrideMiddleware req res w)) = Some n
     ↔ ∃ v, headers req !! "x-mock-status" = Some v
            ∧ JS.parseInt v = Some n ∧ 100 ≤ n ≤ 599)
  ∧ (∀ n, forcedStatus res = Some n → 400 ≤ n →
       status (fst handled) = n
       ∧ generator (snd handled) = generator w
       ∧ schemaCache (snd handled) = schemaCache w
       ∧ (is_Some (findTypeForUrl disk (url req) (allDirs config)) →
          body (fst handled) = forcedErrorBody n)
       ∧ (findTypeForUrl disk (url req) (allDirs config) = None →
          body (fst handled) = typeNotFoundBody (url req)))
  ∧ (∀ n, forcedStatus res = Some n → n ≠ 0 → n < 400 →
       forcedStatus bare = None →
       handled =
         ({| status := n;
             body := body (fst (dynamicRouteHandler config disk now req
                                  bare w)) |},
          snd (dynamicRouteHandler config disk now req bare w))).
Proof.
  simpl. split; [|split].
  - intros n Hnone. rewrite middleware_forcedStatus, Hnone.
    destruct (headers req !! "x-mock-status") as [v|];
      [|split; [done|by intros (? & ? & _)]].
    destruct (JS.parseInt v) as [m|] eqn:Hparse;
      [|split; [done|intros (v' & [= <-] & Hv & _); congruence]].
    destruct ((100 <=? m) && (m <? 600)) eqn:Hrange.
    + apply andb_true_iff in Hrange as [Hlo Hhi].
      apply Z.leb_le in Hlo. apply Z.ltb_lt in Hhi.
      split.
      * intros [= <-]. exists v. split; [done|]. split; [done|]. lia.
      * intros (v' & [= <-] & Hv & _). congruence.
    + split; [done|]. intros (v' & [= <-] & Hv & Hlo & Hhi).
      assert (m = n) as -> by congruence.
      apply andb_false_iff in Hrange as [Hr|Hr].
      * apply Z.leb_gt in Hr. lia.
      * apply Z.ltb_ge in Hr. lia.
  - intros n Hforced Hn. unfold dynamicRouteHandler. rewrite Hforced.
    rewrite (forcedError_ge n Hn).
    destruct (findTypeForUrl _ _ _) as [mapping|].
    + simpl. repeat split; try done.
    + rewrite orNum_forced by lia. simpl. repeat split; try done.
  - intros n Hforced Hnz Hn Hbare. unfold dynamicRouteHandler.
    rewrite Hforced, Hbare, (forcedError_lt n Hn).
    rewrite !orNum_forced by done.
    destruct (findTypeForUrl _ _ _) as [mapping|]; [|done].
    destruct (if cacheable config mapping then _ else _) as [entry|];
      [done|].
    by destruct (generate _ _) as [[message|payload] g].
Qed.

End ForcedStatus.

(** C10, counterexample.  A request with the header [x-mock-status: 500]
    for a URL that resolves to no type: the status is the forced one, and
    the body is the type-not-found body, which names the URL, not the
    fixed body of a forced error. *)
Lemma forced_status_on_unknown_type :
  let req := sample.GETwith "/api/ghosts" "500" in
  let res :=
    fst (statusOverride.statusOverrideMiddleware req sample.expressResponse
           sample.world) in
  let reply :=
    fst (@router.dynamicRouteHandler sample.inflector nat sample.counting
           sample.config sample.disk 1 req res sample.world) in
  forcedStatus res = Some 500
  ∧ reply = {| status := 500;
               body := router.typeNotFoundBody "/api/ghosts" |}
  ∧ body reply ≠ router.forcedErrorBody 500.
Proof.
  split; [reflexivity|]. split; [reflexivity|]. vm_compute. discriminate.
Qed.

(** ** Start-up *)

Section Startup.
Import cli.
Context (resolve : string → string).
Local Abbreviation externals := (resolvedExternals resolve).

Lemma firstMissing_Some present dirs d :
  firstMissing present dirs = Some d → d ∈ dirs ∧ d ∉ present.
Proof.
  induction dirs as [|d' dirs IH]; simpl; [done|].
  case_bool_decide as Hin.
  - intros Hd. destruct (IH Hd). split; [by apply list_elem_of_further|done].
  - intros [= <-]. split; [apply list_elem_of_here|done].
Qed.

Lemma firstMissing_None present dirs :
  firstMissing present dirs = None ↔ ∀ d, d ∈ dirs → d ∈ present.
Proof.
  induction dirs as [|d' dirs IH]; simpl.
  - split; [|done]. intros _ d Hd. by apply elem_of_nil in Hd.
  - case_bool_decide as Hin.
    + rewrite IH. split.
      * intros Hall d [->|Hd]%elem_of_cons; auto.
      * intros Hall d Hd. apply Hall. by apply list_elem_of_further.
    + split; [done|]. intros Hall. destruct Hin. apply Hall.
      apply list_elem_of_here.
Qed.

(** C9.  After the first step the contracts directory exists: it is
    created, with the ones above it, when it was missing, and this alone
    never ends the process.  Then, when some external directory does not
    exist, the process exits with code 1 after logging the first missing
    one as an error; there is no second attempt.  When they all exist,
    the server is started on the resolved directories. *)
Theorem startup_directory_policy (options : Options) (present : gset string) :
  let run := action resolve options present in
  let contracts := resolve (dir options) in
  contracts ∈ existing run
  ∧ (contracts ∉ present →
     existing run = fs.mkdirSyncRecursive present contracts
     ∧ Logged Success ("Created: " +:+ contracts) ∈ output run)
  ∧ (contracts ∈ present → existing run = present)
  ∧ (∀ d, d ∈ externals options → d ∉ existing run →
       outcome run = Exited 1
       ∧ ∃ missing,
           missing ∈ externals options
           ∧ (missing ∉ existing run)
           ∧ output run =
               (if bool_decide (contracts ∈ present) then []
                else [Logged Error
                        ("Contracts directory not found: " +:+ contracts);
                      Logged Info "Creating contracts directory...";
                      Logged Success ("Created: " +:+ contracts)])
               ++ [Logged Error
                     ("External directory not found: " +:+ missing);
                   Logged Warn "Make sure the path is correct and accessible"])
  ∧ ((∀ d, d ∈ externals options → d ∈ existing run) →
     ∃ config,
       outcome run = ServerStarted config
       ∧ contractsDir config = contracts
       ∧ default [] (externalDirs config) = externals options)
  ∧ (∀ d, d ∈ externals options → d ∉ present →
       d ∉ (contracts :: fs.parents EmptyString contracts) →
       outcome run = Exited 1).
Proof.
  intros run contracts.
  assert (Hext : default [] (match externalDir options with
                             | Some dirs => Some (map resolve dirs)
                             | None => None
                             end) = externals options).
  { unfold resolvedExternals. by destruct (externalDir options). }
  set (present1 := if bool_decide (contracts ∈ present) then present
                   else fs.mkdirSyncRecursive present contracts).
  assert (Hexisting : existing run = present1).
  { subst run present1 contracts. unfold action.
    case_bool_decide; destruct (firstMissing _ _); try done;
      by destruct (parseLatency _). }
  assert (Hcontracts : contracts ∈ present1).
  { subst present1. case_bool_decide as Hin; [done|].
    unfold fs.mkdirSyncRecursive. apply elem_of_union_r.
    apply elem_of_list_to_set, list_elem_of_here. }
  assert (Hfatal : ∀ missing,
            firstMissing present1 (externals options) = Some missing →
            outcome run = Exited 1
            ∧ output run =
                (if bool_decide (contracts ∈ present) then []
                 else [Logged Error
                         ("Contracts directory not found: " +:+ contracts);
                       Logged Info "Creating contracts directory...";
                       Logged Success ("Created: " +:+ contracts)])
                ++ [Logged Error
                      ("External directory not found: " +:+ missing);
                    Logged Warn
                      "Make sure the path is correct and accessible"]).
  { intros missing Hmiss. subst run present1 contracts. unfold action.
    rewrite Hext.
    destruct (bool_decide (resolve (dir options) ∈ present));
      by rewrite Hmiss. }
  assert (Hexit : ∀ d, d ∈ externals options → d ∉ present1 →
            ∃ missing,
              firstMissing present1 (externals options) = Some missing).
  { intros d Hd Hnot.
    destruct (firstMissing present1 (externals options)) as [m|] eqn:Hm;
      [by exists m|].
    destruct Hnot. by apply (proj1 (firstMissing_None _ _) Hm). }
  rewrite Hexisting. split; [done|]. split.
  { intros Hnot. subst present1. rewrite bool_decide_eq_false_2 by done.
    split; [done|]. subst run contracts. unfold action.
    rewrite bool_decide_eq_false_2 by done.
    destruct (firstMissing (fs.mkdirSyncRecursive _ _) _).
    - apply list_elem_of_In. simpl. tauto.
    - destruct (parseLatency _). apply list_elem_of_In. simpl. tauto. }
  split.
  { intros Hin. subst present1. by rewrite bool_decide_eq_true_2. }
  split.
  { intros d Hd Hnot. destruct (Hexit d Hd Hnot) as [missing Hmiss].
    destruct (Hfatal missing Hmiss) as [Hout Hlog]. split; [done|].
    exists missing. apply firstMissing_Some in Hmiss as [? ?]. done. }
  split.
  { intros Hall. apply firstMissing_None in Hall.
    subst run present1 contracts. unfold action. rewrite Hext.
    destruct (bool_decide (resolve (dir options) ∈ present));
      rewrite Hall; destruct (parseLatency _); by eexists. }
  intros d Hd Hnot Hcreated.
  destruct (Hexit d Hd) as [missing Hmiss].
  { subst present1. case_bool_decide; [done|].
    unfold fs.mkdirSyncRecursive. rewrite elem_of_union, elem_of_list_to_set.
    by intros [?|?]. }
  by destruct (Hfatal missing Hmiss).
Qed.

End Startup.

(** C9, counterexample.  The external directory "/x" does not exist when
    the process starts, and the server is started all the same: "/x" is
    the directory above the contracts directory "/x/contracts", which
    [mkdirSync] with [recursive] creates on the way. *)
Lemma missing_external_directory_created :
  let options :=
    {| cli.dir := "/x/contracts"; cli.externalDir := Some ["/x"];
       cli.portOption := "8080"; cli.target := None;
       cli.latencyOption := None; cli.hotReloadOption := true;
       cli.cacheOption := true; cli.verboseOption := false |} in
  let present : gset string := ∅ in
  let run := cli.action id options present in
  "/x" ∈ resolvedExternals id options
  ∧ ("/x" ∉ present)
  ∧ cli.outcome run
    = cli.ServerStarted
        {| contractsDir := "/x/contracts"; externalDirs := Some ["/x"];
           port := Some 8080; targetUrl := None; latency := None;
           hotReload := true; cache := true; verbose := false |}
  ∧ "/x" ∈ cli.existing run.
Proof.
  split; [apply list_elem_of_here|]. split; [apply not_elem_of_empty|].
  split; [by vm_compute|]. by vm_compute.
Qed.

(** ** core/cache.ts *)

Section CacheTs.
Import cache.

Lemma mapGet_mapSet_same {V} key (value : V) m :
  mapGet key (mapSet key value m) = Some value.
Proof.
  induction m as [|[k v] m IH]; simpl.
  - by rewrite String.eqb_refl.
  - destruct (String.eqb k key) eqn:Hk; simpl; by rewrite Hk.
Qed.

Lemma mapGet_mapSet_other {V} key key' (value : V) m :
  key' ≠ key →
  mapGet key' (mapSet key value m) = mapGet key' m.
Proof.
  intros Hne. induction m as [|[k v] m IH]; simpl.
  - by rewrite (proj2 (String.eqb_neq key key')).
  - destruct (String.eqb k key) eqn:Hk; simpl.
    + apply String.eqb_eq in Hk as ->.
      by rewrite (proj2 (String.eqb_neq key key')).
    + by rewrite IH.
Qed.

Lemma mapSet_keys {V} key (value : V) m :
  map fst (mapSet key value m) =
    if bool_decide (key ∈ map fst m) then map fst m else map fst m ++ [key].
Proof.
  induction m as [|[k v] m IH]; simpl; [done|].
  destruct (String.eqb k key) eqn:Hk; simpl.
  - apply String.eqb_eq in Hk as ->.
    by rewrite bool_decide_eq_true_2 by apply list_elem_of_here.
  - apply String.eqb_neq in Hk. rewrite IH.
    destruct (bool_decide (key ∈ map fst m)) eqn:Hin.
    + apply bool_decide_eq_true in Hin.
      by rewrite bool_decide_eq_true_2 by by apply list_elem_of_further.
    + apply bool_decide_eq_false in Hin.
      rewrite bool_decide_eq_false_2; [done|].
      rewrite elem_of_cons. intros [?|?]; [congruence|done].
Qed.

Lemma mapDelete_filter {V} key (m : list (string * V)) :
  mapDelete key m = filter (λ kv, fst kv ≠ key) m.
Proof.
  induction m as [|[k v] m IH]; simpl; [done|].
  destruct (String.eqb k key) eqn:Hk.
  - apply String.eqb_eq in Hk as ->.
    by rewrite filter_cons_False by (simpl; auto).
  - apply String.eqb_neq in Hk. by rewrite filter_cons_True, IH.
Qed.

Lemma cacheConsistent_create isEnabled : cacheConsistent (create isEnabled).
Proof. repeat split; [apply NoDup_nil_2|apply Forall_nil_2]. Qed.

Lemma cacheConsistent_set c name file payload now :
  cacheConsistent c → cacheConsistent (set c name file payload now).
Proof.
  intros Hc. pose proof Hc as (Hdup & Hkeys & Hoff). unfold set.
  destruct (enabled c) eqn:He; [|done]. split; [|split]; simpl.
  - rewrite mapSet_keys. case_bool_decide as Hin; [done|].
    apply NoDup_app. split; [done|]. split; [|apply NoDup_singleton].
    intros k Hk ->%list_elem_of_singleton. done.
  - clear Hdup Hoff. induction (cache c) as [|[k v] m IH]; simpl.
    + by apply Forall_singleton.
    + apply Forall_cons in Hkeys as [Hk Hm]. simpl in Hk.
      destruct (String.eqb k _) eqn:Heq.
      * apply String.eqb_eq in Heq. apply Forall_cons. by split.
      * apply Forall_cons. split; [done|]. by apply IH.
  - done.
Qed.

(** X1.  With the cache enabled, what [set] stores under a name and file is
    what [get] returns for them, stamped with the clock of the [set]; the
    other keys read as before.  With the cache disabled, [set] stores
    nothing and [get] finds nothing. *)
Theorem cacheTs_get_set (c : SchemaCache) (name file : string)
    (payload : Json) (now : Z) :
  (enabled c = true →
   get (set c name file payload now) name file
     = Some {| interfaceName := name; filePath := file; schema := payload;
               lastUpdated := now |}
   ∧ ∀ name' file',
       generateKey name' file' ≠ generateKey name file →
       get (set c name file payload now) name' file' = get c name' file')
  ∧ (enabled c = false →
     set c name file payload now = c
     ∧ ∀ name' file', get (set c name file payload now) name' file' = None).
Proof.
  split; intros He; unfold get, set; rewrite He; simpl.
  - rewrite ?He. split; [apply mapGet_mapSet_same|].
    intros name' file' Hne. by apply mapGet_mapSet_other.
  - split; [done|]. intros. by rewrite ?He.
Qed.

Lemma filter_ext_in {A} (P Q : A → Prop) `{∀ x, Decision (P x)}
    `{∀ x, Decision (Q x)} (l : list A) :
  (∀ x, x ∈ l → P x ↔ Q x) → filter P l = filter Q l.
Proof.
  induction l as [|x l IH]; intros Hext; [done|].
  assert (Hl : filter P l = filter Q l).
  { apply IH. intros y Hy. apply Hext. by apply list_elem_of_further. }
  destruct (decide (P x)) as [HP|HP].
  - rewrite !filter_cons_True; [by rewrite Hl| |done].
    by apply (Hext x (list_elem_of_here _ _)).
  - rewrite !filter_cons_False; [done| |done].
    intros HQ. apply HP. by apply (Hext x (list_elem_of_here _ _)).
Qed.

Lemma filter_split_length {A} (p : A → bool) (l : list A) :
  (length (filter (λ x, negb (p x) = true) l)
   + length (filter (λ x, p x = true) l))%nat = length l.
Proof.
  induction l as [|x l IH]; [done|].
  destruct (p x) eqn:Hp.
  - rewrite filter_cons_False by (by rewrite Hp).
    rewrite filter_cons_True by done. simpl. lia.
  - rewrite filter_cons_True by (by rewrite Hp).
    rewrite filter_cons_False by (by rewrite Hp). simpl. lia.
Qed.

Lemma invalidateLoop_filter file todo : ∀ m count,
  invalidateLoop file todo m count =
    (filter (λ kv, fst kv ∉ map fst (filter (λ e, ofFile file e = true) todo)) m,
     (count + length (filter (λ e, ofFile file e = true) todo))%nat).
Proof.
  induction todo as [|[key value] todo IH]; intros m count; simpl.
  - f_equal; [|lia]. symmetry. induction m as [|kv m IHm]; [done|].
    rewrite filter_cons_True by apply not_elem_of_nil. by f_equal.
  - destruct (String.eqb (filePath value) file) eqn:Hf.
    + rewrite filter_cons_True by done. rewrite IH, mapDelete_filter.
      rewrite list_filter_filter. simpl. f_equal; [|lia].
      apply list_filter_iff. intros kv. rewrite not_elem_of_cons. tauto.
    + rewrite filter_cons_False by (unfold ofFile; simpl; by rewrite Hf).
      apply IH.
Qed.

Lemma mapGet_absent {V} key (m : list (string * V)) :
  key ∉ map fst m → mapGet key m = None.
Proof.
  induction m as [|[k v] m IH]; simpl; [done|].
  rewrite not_elem_of_cons. intros [Hne Hm].
  rewrite (proj2 (String.eqb_neq k key)) by done. by apply IH.
Qed.

Lemma mapGet_filter {V} (p : string * V → bool) key (m : list (string * V)) :
  NoDup (map fst m) →
  mapGet key (filter (λ kv, p kv = true) m) =
    match mapGet key m with
    | Some v => if p (key, v) then Some v else None
    | None => None
    end.
Proof.
  induction m as [|[k v] m IH]; simpl; [done|]. intros Hdup.
  apply NoDup_cons in Hdup as [Hk Hdup].
  destruct (String.eqb k key) eqn:Heq.
  - apply String.eqb_eq in Heq as <-.
    destruct (p (k, v)) eqn:Hp.
    + rewrite filter_cons_True by done. simpl. by rewrite String.eqb_refl.
    + rewrite filter_cons_False by (by rewrite Hp).
      apply mapGet_absent. intros Hin. apply Hk.
      apply list_elem_of_fmap in Hin as (kv & -> & Hkv).
      apply list_elem_of_filter in Hkv as [_ Hkv].
      apply list_elem_of_fmap. by exists kv.
  - destruct (p (k, v)) eqn:Hp.
    + rewrite filter_cons_True by done. simpl. rewrite Heq. by apply IH.
    + rewrite filter_cons_False by (by rewrite Hp). by apply IH.
Qed.

Lemma invalidateFile_cache (c : SchemaCache) (file : string) :
  NoDup (map fst (cache c)) →
  invalidateFile c file =
    ({| cache := filter (λ e, negb (ofFile file e) = true) (cache c);
        enabled := enabled c |},
     if (0 <? length (filter (λ e, ofFile file e = true) (cache c)))%nat
     then [Logged Info
             ("Cache invalidated: "
                +:+ pretty (length (filter (λ e, ofFile file e = true)
                                      (cache c)))
                +:+ " schema(s) from " +:+ file)]
     else []).
Proof.
  intros Hdup. unfold invalidateFile. rewrite invalidateLoop_filter. simpl.
  f_equal. f_equal. apply filter_ext_in. intros [k v] Hkv. simpl.
  rewrite negb_true_iff. split.
  - intros Hnot. destruct (ofFile file (k, v)) eqn:Hf; [|done].
    destruct Hnot. apply list_elem_of_fmap. exists (k, v). split; [done|].
    by apply list_elem_of_filter.
  - intros Hf Hin. apply list_elem_of_fmap in Hin as ([k' v'] & Hk & Hin).
    simpl in Hk. subst k'. apply list_elem_of_filter in Hin as [Hf' Hin].
    assert (v' = v) as ->; [|congruence].
    clear -Hdup Hkv Hin. induction (cache c) as [|[k0 v0] m IH]; simpl in *.
    { by apply elem_of_nil in Hin. }
    apply NoDup_cons in Hdup as [Hk0 Hdup].
    apply elem_of_cons in Hkv as [Hkv|Hkv];
      apply elem_of_cons in Hin as [Hin|Hin].
    + congruence.
    + injection Hkv as -> ->. destruct Hk0.
      apply list_elem_of_fmap. by exists (k0, v').
    + injection Hin as -> ->. destruct Hk0.
      apply list_elem_of_fmap. by exists (k0, v).
    + by apply IH.
Qed.

Lemma invalidateFile_consistent (c : SchemaCache) (file : string) :
  cacheConsistent c → cacheConsistent (fst (invalidateFile c file)).
Proof.
  intros (Hdup & Hkeys & Hoff).
  rewrite (invalidateFile_cache c file Hdup). simpl.
  split; [|split]; simpl.
  - clear -Hdup. induction (cache c) as [|[k v] m IH]; simpl; [done|].
    apply NoDup_cons in Hdup as [Hk Hdup].
    destruct (negb (ofFile file (k, v))) eqn:Hp.
    + rewrite filter_cons_True by done. simpl. apply NoDup_cons.
      split; [|by apply IH]. intros Hin. apply Hk.
      apply list_elem_of_fmap in Hin as (kv & -> & Hkv).
      apply list_elem_of_filter in Hkv as [_ Hkv].
      apply list_elem_of_fmap. by exists kv.
    + rewrite filter_cons_False by (by rewrite Hp). by apply IH.
  - apply Forall_forall. intros kv Hkv.
    apply list_elem_of_filter in Hkv as [_ Hkv].
    by apply (proj1 (Forall_forall _ _) Hkeys).
  - intros He. by rewrite (Hoff He).
Qed.

(** X2.  On a cache in a consistent state, [invalidateFile] removes the
    entries whose own [filePath] is the file, keeps the others in their
    order, and logs the number removed when it is not zero; [get] then
    returns what it returned before, but for the entries of the file,
    which are gone; the state stays consistent.  The [enabled] flag is not
    looked at. *)
Theorem cacheTs_invalidateFile (c : SchemaCache) (file : string) :
  cacheConsistent c →
  let removed := length (filter (λ e, ofFile file e = true) (cache c)) in
  cache (fst (invalidateFile c file))
    = filter (λ e, negb (ofFile file e) = true) (cache c)
  ∧ enabled (fst (invalidateFile c file)) = enabled c
  ∧ (size (fst (invalidateFile c file)) + removed)%nat = size c
  ∧ snd (invalidateFile c file)
      = (if (0 <? removed)%nat
         then [Logged Info ("Cache invalidated: " +:+ pretty removed
                              +:+ " schema(s) from " +:+ file)]
         else [])
  ∧ (∀ name file',
       get (fst (invalidateFile c file)) name file' =
         match get c name file' with
         | Some e => if String.eqb (filePath e) file then None else Some e
         | None => None
         end)
  ∧ cacheConsistent (fst (invalidateFile c file)).
Proof.
  intros Hc removed. subst removed.
  pose proof (invalidateFile_consistent c file Hc) as Hc'. revert Hc'.
  destruct Hc as (Hdup & Hkeys & Hoff).
  rewrite (invalidateFile_cache c file Hdup). simpl. intros Hc'.
  split; [done|]. split; [done|].
  split; [apply filter_split_length|]. split; [done|]. split; [|done].
  intros name file'. unfold get. simpl.
  destruct (enabled c); [|done].
  rewrite (mapGet_filter (λ e, negb (ofFile file e))) by done.
  destruct (mapGet _ _) as [e|]; [|done]. unfold ofFile. simpl.
  by destruct (String.eqb (filePath e) file).
Qed.

Lemma cacheTs_invalidateFile_witness :
  cacheConsistent twoFiles
  ∧ size (fst (invalidateFile twoFiles "/contracts/user.ts")) = 1%nat
  ∧ get (fst (invalidateFile twoFiles "/contracts/user.ts"))
      "User" "/contracts/user.ts" = None.
Proof.
  assert (Hc : cacheConsistent twoFiles).
  { apply cacheConsistent_set, cacheConsistent_set, cacheConsistent_create. }
  split; [exact Hc|].
  pose proof (cacheTs_invalidateFile twoFiles "/contracts/user.ts" Hc)
    as (_ & _ & Hsize & _ & Hget & _).
  split; [vm_compute in Hsize; vm_compute; lia|].
  exact (Hget "User" "/contracts/user.ts").
Defined.

Lemma length_mapSet {V} key (value : V) m :
  length (mapSet key value m) =
    match mapGet key m with
    | Some _ => length m
    | None => S (length m)
    end.
Proof.
  induction m as [|[k v] m IH]; simpl; [done|].
  destruct (String.eqb k key); simpl; [done|].
  rewrite IH. by destruct (mapGet key m).
Qed.

(** X3.  A new cache is in a consistent state (one entry per key, every
    entry under the key of its own name and file, nothing stored while
    disabled), and [set] and [clear] keep it so.  [set] makes the cache one
    entry larger when [get] found nothing for the name and file and the
    cache is enabled, and leaves its size as it is otherwise; [clear]
    leaves no entry and logs how many there were. *)
Theorem cacheTs_consistent_size (isEnabled : bool) (c : SchemaCache)
    (name file : string) (payload : Json) (now : Z) :
  cacheConsistent (create isEnabled)
  ∧ size (create isEnabled) = O
  ∧ (cacheConsistent c →
     cacheConsistent (set c name file payload now)
     ∧ size (set c name file payload now)
         = match get c name file with
           | Some _ => size c
           | None => if enabled c then S (size c) else size c
           end
     ∧ cacheConsistent (fst (clear c))
     ∧ size (fst (clear c)) = O
     ∧ (∀ name' file', get (fst (clear c)) name' file' = None)
     ∧ snd (clear c)
         = [Logged Info ("Cache cleared: " +:+ pretty (size c)
                           +:+ " schema(s) removed")]).
Proof.
  split; [apply cacheConsistent_create|]. split; [done|]. intros Hc.
  split; [by apply cacheConsistent_set|]. split.
  - unfold size, set, get. destruct (enabled c); [|done]. simpl.
    apply length_mapSet.
  - split.
    + destruct Hc as (_ & _ & Hoff).
      repeat split; simpl; [apply NoDup_nil_2|apply Forall_nil_2].
    + split; [done|]. split; [|done].
      intros name' file'. unfold get. simpl. by destruct (enabled c).
Qed.

Lemma colonFree_app a b : colonFree (a +:+ String ":" b) = false.
Proof.
  induction a as [|c a IH]; rewrite ?append_empty_l, ?append_cons; simpl.
  - done.
  - rewrite IH. apply andb_false_r.
Qed.

(** The key determines the name and the file, for names without a colon. *)
Lemma generateKey_inj n1 f1 n2 f2 :
  colonFree n1 = true → colonFree n2 = true →
  generateKey n1 f1 = generateKey n2 f2 → n1 = n2 ∧ f1 = f2.
Proof.
  unfold generateKey. intros H1 H2. revert f2.
  induction f1 as [|c f1 IH]; intros [|c2 f2]; intros Heq;
    repeat (rewrite append_cons in Heq || rewrite append_empty_l in Heq).
  - by injection Heq as ->.
  - injection Heq as <- Heq. destruct f2 as [|c3 f2];
      repeat (rewrite append_cons in Heq || rewrite append_empty_l in Heq).
    + injection Heq as ->. simpl in H1. done.
    + injection Heq as <- ->.
      by rewrite (colonFree_app f2 (String ":" n2)) in H1.
  - injection Heq as -> Heq. destruct f1 as [|c3 f1];
      repeat (rewrite append_cons in Heq || rewrite append_empty_l in Heq).
    + injection Heq as <-. simpl in H2. done.
    + injection Heq as -> <-.
      by rewrite (colonFree_app f1 (String ":" n1)) in H2.
  - injection Heq as -> Heq. destruct (IH _ Heq) as [-> ->]. done.
Qed.

Local Abbreviation keyed m :=
  (Forall (λ kv : string * ParsedSchema,
     fst kv = generateKey (interfaceName (snd kv)) (filePath (snd kv))) m).
Local Abbreviation named m :=
  (Forall (λ kv : string * ParsedSchema,
     colonFree (interfaceName (snd kv)) = true) m).

Lemma abstraction_lookup m n f :
  keyed m → named m →
  (list_to_map (map byPair m) : gmap (string * string) specCache.CachedSchema)
    !! (n, f)
  = if colonFree n then toCached <$> mapGet (generateKey n f) m else None.
Proof.
  induction m as [|[k v] m IH]; intros Hk Hn.
  { simpl. rewrite lookup_empty. by destruct (colonFree n). }
  apply Forall_cons in Hk as [Hk Hks]. apply Forall_cons in Hn as [Hn Hns].
  simpl in Hk, Hn.
  change (map byPair ((k, v) :: m))
    with (((interfaceName v, filePath v), toCached v) :: map byPair m).
  rewrite list_to_map_cons.
  change (mapGet (generateKey n f) ((k, v) :: m))
    with (if String.eqb k (generateKey n f) then Some v
          else mapGet (generateKey n f) m).
  destruct (decide ((interfaceName v, filePath v) = (n, f))) as [Heq|Hne].
  - injection Heq as Hn1 Hf1. subst n f.
    rewrite lookup_insert_eq, Hn, <- Hk. by rewrite String.eqb_refl.
  - rewrite lookup_insert_ne by done. rewrite (IH Hks Hns).
    destruct (colonFree n) eqn:Hc; [|done].
    destruct (String.eqb k (generateKey n f)) eqn:Hkey; [|done].
    apply String.eqb_eq in Hkey. rewrite Hk in Hkey.
    destruct (generateKey_inj _ _ _ _ Hn Hc Hkey) as [E1 E2]. congruence.
Qed.

Lemma mapGet_Some {V} key (m : list (string * V)) v :
  mapGet key m = Some v → (key, v) ∈ m.
Proof.
  induction m as [|[k v'] m IH]; simpl; [done|].
  destruct (String.eqb k key) eqn:Hk.
  - apply String.eqb_eq in Hk as ->. intros [= ->]. apply list_elem_of_here.
  - intros Hm. by apply list_elem_of_further, IH.
Qed.

Lemma colonFreeNames_set c name file payload now :
  colonFree name = true → colonFreeNames c →
  colonFreeNames (set c name file payload now).
Proof.
  intros Hname Hc. unfold colonFreeNames, set in *.
  destruct (enabled c); [|done]. simpl.
  induction (cache c) as [|[k v] m IH]; simpl.
  - by apply Forall_singleton.
  - apply Forall_cons in Hc as [Hv Hm].
    destruct (String.eqb k _); apply Forall_cons; split; auto.
Qed.

Lemma abstraction_get c name file :
  cacheConsistent c → colonFreeNames c → colonFree name = true →
  specCache.get (abstraction c) name file = toCached <$> get c name file.
Proof.
  intros (Hdup & Hkeys & Hoff) Hnames Hname.
  unfold specCache.get, get, abstraction. simpl.
  destruct (enabled c); [|done].
  by rewrite (abstraction_lookup _ _ _ Hkeys Hnames), Hname.
Qed.

Lemma abstraction_set c name file payload now :
  cacheConsistent c → colonFreeNames c → colonFree name = true →
  abstraction (set c name file payload now)
    = specCache.set (abstraction c) name file payload now.
Proof.
  intros Hc Hnames Hname. pose proof Hc as (Hdup & Hkeys & Hoff).
  pose proof (cacheConsistent_set c name file payload now Hc)
    as (_ & Hkeys' & _).
  pose proof (colonFreeNames_set c name file payload now Hname Hnames)
    as Hnames'.
  unfold colonFreeNames in Hnames'. revert Hkeys' Hnames'.
  unfold specCache.set, set, abstraction. simpl.
  destruct (enabled c) eqn:He; simpl; rewrite ?He; [|done].
  intros Hkeys' Hnames'. f_equal. apply map_eq. intros [n' f'].
  rewrite (abstraction_lookup _ _ _ Hkeys' Hnames').
  destruct (decide ((name, file) = (n', f'))) as [Heq|Hne].
  - injection Heq as <- <-.
    by rewrite lookup_insert_eq, Hname, mapGet_mapSet_same.
  - rewrite lookup_insert_ne by done.
    rewrite (abstraction_lookup _ _ _ Hkeys Hnames).
    destruct (colonFree n') eqn:Hn'; [|done].
    rewrite mapGet_mapSet_other; [done|]. intros Hkey.
    destruct (generateKey_inj _ _ _ _ Hn' Hname Hkey) as [E1 E2].
    congruence.
Qed.

Lemma abstraction_invalidateFile c file :
  cacheConsistent c → colonFreeNames c →
  abstraction (fst (invalidateFile c file))
    = specCache.invalidateFile (abstraction c) file
  ∧ colonFreeNames (fst (invalidateFile c file)).
Proof.
  intros (Hdup & Hkeys & Hoff) Hnames.
  pose proof (invalidateFile_cache c file Hdup) as Hinv.
  assert (Hkeys' : keyed (filter (λ e, negb (ofFile file e) = true)
                            (cache c))).
  { apply Forall_forall. intros kv Hkv.
    apply list_elem_of_filter in Hkv as [_ Hkv].
    by apply (proj1 (Forall_forall _ _) Hkeys). }
  assert (Hnames' : named (filter (λ e, negb (ofFile file e) = true)
                             (cache c))).
  { apply Forall_forall. intros kv Hkv.
    apply list_elem_of_filter in Hkv as [_ Hkv].
    by apply (proj1 (Forall_forall _ _) Hnames). }
  rewrite Hinv. simpl. split; [|exact Hnames'].
  unfold specCache.invalidateFile, abstraction. simpl.
  destruct (enabled c) eqn:He; simpl.
  - f_equal. apply map_eq. intros [n' f'].
    rewrite (abstraction_lookup _ _ _ Hkeys' Hnames').
    rewrite map_lookup_filter.
    rewrite (abstraction_lookup _ _ _ Hkeys Hnames).
    destruct (colonFree n') eqn:Hn'; [|done].
    rewrite (mapGet_filter (λ e, negb (ofFile file e))) by done.
    destruct (mapGet (generateKey n' f') (cache c)) as [e|] eqn:Hget;
      [|done].
    simpl. apply mapGet_Some in Hget.
    pose proof (proj1 (Forall_forall _ _) Hkeys _ Hget) as Hk.
    pose proof (proj1 (Forall_forall _ _) Hnames _ Hget) as Hn.
    simpl in Hk, Hn.
    destruct (generateKey_inj _ _ _ _ Hn' Hn Hk) as [_ ->].
    unfold ofFile. simpl.
    destruct (String.eqb (filePath e) file) eqn:Hf; simpl.
    + apply String.eqb_eq in Hf. by rewrite option_guard_False by auto.
    + apply String.eqb_neq in Hf. by rewrite option_guard_True by auto.
  - rewrite ?He, Hoff by done. done.
Qed.

(** X4.  The cache of the sources, keyed by the string "file::name",
    behaves as the cache of the specification, keyed by the pair of name
    and file, as long as the names hold no colon (a colon would let two
    pairs share a key): on consistent states [get], [set] and
    [invalidateFile] commute with the abstraction. *)
Theorem cacheTs_refines_cache (c : SchemaCache) :
  cacheConsistent c → colonFreeNames c →
  (∀ name file, colonFree name = true →
     specCache.get (abstraction c) name file = toCached <$> get c name file)
  ∧ (∀ name file payload now, colonFree name = true →
       abstraction (set c name file payload now)
         = specCache.set (abstraction c) name file payload now
       ∧ colonFreeNames (set c name file payload now))
  ∧ (∀ file,
       abstraction (fst (invalidateFile c file))
         = specCache.invalidateFile (abstraction c) file
       ∧ colonFreeNames (fst (invalidateFile c file))).
Proof.
  intros Hc Hnames. split; [|split].
  - intros name file Hname. by apply abstraction_get.
  - intros name file payload now Hname.
    split; [by apply abstraction_set|by apply colonFreeNames_set].
  - intros file. by apply abstraction_invalidateFile.
Qed.

Lemma cacheTs_refines_cache_witness :
  specCache.get (abstraction twoFiles) "User" "/contracts/user.ts"
    = toCached <$> get twoFiles "User" "/contracts/user.ts".
Proof.
  refine (proj1 (cacheTs_refines_cache twoFiles _ _)
            "User" "/contracts/user.ts" eq_refl).
  - apply cacheConsistent_set, cacheConsistent_set, cacheConsistent_create.
  - repeat (apply colonFreeNames_set; [reflexivity|]). apply Forall_nil_2.
Defined.

End CacheTs.

(** ** core/cache.ts: look-ups after [set] and [invalidateFile] *)

Section CacheLookups.
Import cache.



Lemma mapSet_absent {V} key (value : V) m :
  mapGet key m = None → mapSet key value m = m ++ [(key, value)].
Proof.
  induction m as [|[k v] m IH]; simpl; [done|].
  destruct (String.eqb k key); [done|]. intros Hm. by rewrite (IH Hm).
Qed.


(** After [invalidateFile] nothing is found for the file, and what is
    found for another file is what was found before; the names are taken
    without a colon, so that a key belongs to one name and file. *)
Lemma get_invalidateFile c file name file' :
  cacheConsistent c → colonFreeNames c → colonFree name = true →
  get (fst (invalidateFile c file)) name file' =
    if decide (file' = file) then None else get c name file'.
Proof.
  intros (Hdup & Hkeys & Hoff) Hnames Hname.
  rewrite (invalidateFile_cache c file Hdup). unfold get. simpl.
  destruct (enabled c); [|by case_decide].
  rewrite (mapGet_filter (λ e, negb (ofFile file e))) by done.
  destruct (mapGet (generateKey name file') (cache c)) as [e|] eqn:Hget;
    [|by case_decide].
  apply mapGet_Some in Hget.
  pose proof (proj1 (Forall_forall _ _) Hkeys _ Hget) as Hk.
  pose proof (proj1 (Forall_forall _ _) Hnames _ Hget) as Hn.
  simpl in Hk, Hn.
  destruct (generateKey_inj _ _ _ _ Hname Hn Hk) as [_ Hfile].
  unfold ofFile. simpl. rewrite <- Hfile.
  case_decide as Heq.
  - subst. by rewrite String.eqb_refl.
  - by rewrite (proj2 (String.eqb_neq file' file) Heq).
Qed.

End CacheLookups.

(** ** core/parser.ts *)

Section ParserTs.
Import parser.
Context {G : Type} `{Intermock G} (disk : fs.FileSystem).

Lemma generateMockFromInterface_failed file name g message g' :
  generateMockFromInterface disk file name g = (inl message, g') →
  ∃ reason, message = failedMessage name reason.
Proof.
  unfold generateMockFromInterface.
  destruct (mock file (fs.readFileSync disk file) name g)
    as [[reason|[data|]] g1].
  - intros [= <- _]. by exists reason.
  - destruct (truthyJson data); [done|]. intros [= <- _]. by eexists.
  - intros [= <- _]. by eexists.
Qed.

Lemma pushItems_result n file name : ∀ items g,
  match pushItems disk n file name items g with
  | (inr all, _) => ∃ new, all = items ++ new ∧ length new = n
  | (inl message, g') =>
      ∃ g0, generateMockFromInterface disk file name g0 = (inl message, g')
  end.
Proof.
  induction n as [|n IH]; intros items g; simpl.
  - exists []. by rewrite app_nil_r.
  - destruct (generateMockFromInterface disk file name g)
      as [[message|item] g1] eqn:Hgen.
    + by exists g.
    + specialize (IH (items ++ [item]) g1).
      destruct (pushItems disk n file name (items ++ [item]) g1)
        as [[message|all] g2]; [done|].
      destruct IH as (new & -> & Hlen). exists (item :: new).
      split; [by rewrite <- app_assoc|]. simpl. by rewrite Hlen.
Qed.

Lemma getRandomArrayLength_range g :
  unitRandom → 3 ≤ fst (getRandomArrayLength g) ≤ 10.
Proof.
  intros Hunit. unfold getRandomArrayLength. specialize (Hunit g).
  destruct (mathRandom g) as [[k e] g']. simpl in *.
  assert (0 < 2 ^ e) by lia.
  assert (0 ≤ 8 * k / 2 ^ e) by (apply Z.div_pos; lia).
  assert (8 * k / 2 ^ e < 8) by (apply Z.div_lt_upper_bound; lia).
  lia.
Qed.

(** The items of [generateMockArray], or the failure of one call. *)
Lemma generateMockArray_items (file name : string)
    (arrayLength : option Z) (g : G) :
  unitRandom →
  match generateMockArray disk file name arrayLength g with
  | (inr items, _) =>
      match arrayLength with
      | Some n => length items = Z.to_nat n
      | None => (3 ≤ length items ≤ 10)%nat
      end
  | (inl message, g') =>
      (∃ g0, generateMockFromInterface disk file name g0 = (inl message, g'))
      ∧ ∃ reason, message = failedMessage name reason
  end.
Proof.
  intros Hunit. unfold generateMockArray.
  destruct arrayLength as [n|].
  - pose proof (pushItems_result (Z.to_nat n) file name [] g) as Hres.
    destruct (pushItems disk (Z.to_nat n) file name [] g)
      as [[message|items] g'].
    + split; [done|]. destruct Hres as [g0 Hg0].
      by apply generateMockFromInterface_failed in Hg0.
    + by destruct Hres as (new & -> & Hlen).
  - pose proof (getRandomArrayLength_range g Hunit) as Hrange.
    destruct (getRandomArrayLength g) as [n g1]. simpl in Hrange.
    pose proof (pushItems_result (Z.to_nat n) file name [] g1) as Hres.
    destruct (pushItems disk (Z.to_nat n) file name [] g1)
      as [[message|items] g'].
    + split; [done|]. destruct Hres as [g0 Hg0].
      by apply generateMockFromInterface_failed in Hg0.
    + destruct Hres as (new & -> & Hlen). simpl. lia.
Qed.

(** X5.  [generateMockArray] returns as many items as [arrayLength] asks
    for (none for a negative number), and between 3 and 10 items when no
    length is given, as long as [Math.random] keeps to its interval.  It
    fails only with the message of a failed call of
    [generateMockFromInterface], which is "Failed to generate mock for",
    the interface name and the reason. *)
Theorem generateMockArray_length (file name : string)
    (arrayLength : option Z) (g : G) :
  unitRandom →
  match generateMockArray disk file name arrayLength g with
  | (inr items, _) =>
      match arrayLength with
      | Some n => length items = Z.to_nat n
      | None => (3 ≤ length items ≤ 10)%nat
      end
  | (inl message, g') =>
      (∃ g0, generateMockFromInterface disk file name g0 = (inl message, g'))
      ∧ ∃ reason, message = failedMessage name reason
  end.
Proof. apply generateMockArray_items. Qed.

End ParserTs.

Lemma numbering_unitRandom : @unitRandom nat numbering.
Proof. intros g. simpl. apply Z.mod_pos_bound. lia. Qed.

Lemma generateMockArray_length_witness :
  (3 ≤ length
         (match fst (@parser.generateMockArray nat numbering sample.disk
                       "/contracts/user.ts" "User" None 700%nat) with
          | inr items => items
          | inl _ => []
          end) ≤ 10)%nat.
Proof.
  exact (@generateMockArray_length nat numbering sample.disk
           "/contracts/user.ts" "User" None 700%nat numbering_unitRandom).
Defined.

Section ParserRoutes.
Import typeMapping router parser.
Context `{Pluralize} {G : Type} `{Intermock G}.
Context (config : ServerConfig) (disk : fs.FileSystem).

Local Abbreviation handler :=
  (@dynamicRouteHandler _ G (parser.asCalled disk) config disk).

(** X6.  With the generator of core/parser.ts behind the handler, a
    request for an array route that carries no forced error status is
    answered with an array of between 3 and 10 items under status 200 (or
    the forced status below 400), or, when a call of the data library
    fails, with status 500 (or the forced status) and the "Failed to
    generate mock for" message of the type; the cache is left as it was
    either way. *)
Theorem array_route_reply (now : Z) (req : Request) (res : ResponseObject)
    (w : World G) (mapping : RouteTypeMapping) :
  unitRandom →
  findTypeForUrl disk (url req) (allDirs config) = Some mapping →
  isArray mapping = true →
  forcedError (forcedStatus res) = None →
  schemaCache (snd (handler now req res w)) = schemaCache w
  ∧ ((status (fst (handler now req res w)) = JS.orNum (forcedStatus res) 200
      ∧ ∃ items, body (fst (handler now req res w)) = JArr items
                 ∧ (3 ≤ length items ≤ 10)%nat)
     ∨ (status (fst (handler now req res w)) = JS.orNum (forcedStatus res) 500
        ∧ ∃ reason,
            body (fst (handler now req res w))
              = generationFailedBody
                  (failedMessage (typeName mapping) reason))).
Proof.
  intros Hunit Hm Harray Hforced.
  pose proof (cacheable_array config mapping Harray) as Hc.
  pose proof (generateMockArray_items disk (filePath mapping)
                (typeName mapping) None (generator w) Hunit) as Hlen.
  assert (Hgen : @generate G (parser.asCalled disk) mapping (generator w) =
            let '(result, g') :=
              generateMockArray disk (filePath mapping) (typeName mapping)
                None (generator w) in
            (match result with
             | inl message => inl message
             | inr items => inr (JArr items)
             end, g')).
  { unfold generate. by rewrite Harray. }
  destruct (generateMockArray disk (filePath mapping) (typeName mapping)
              None (generator w)) as [[message|items] g'].
  - destruct Hlen as [_ [reason ->]].
    rewrite (@handler_failed _ G (parser.asCalled disk) config disk now
               req res w mapping (failedMessage (typeName mapping) reason)
               g' Hm Hforced); [|by rewrite Hc|done].
    simpl. split; [done|]. right. split; [done|]. by exists reason.
  - rewrite (@handler_uncached _ G (parser.asCalled disk) config disk now
               req res w mapping (JArr items) g' Hm Hforced Hc Hgen).
    simpl. split; [done|]. left. split; [done|]. by exists items.
Qed.

(** X7.  With the functions of core/parser.ts behind the handler, a
    request for a single object that carries no forced error status and
    is not served from the cache calls the data library once.  A value
    found under the interface name is sent under status 200 (or the forced
    status below 400).  When the library finds nothing under the name, or
    throws, the reply has status 500 (or the forced status) and the
    message "Failed to generate mock for", the type and the reason: that
    the interface was not found in the file, or the library's own. *)
Theorem singular_route_reply (now : Z) (req : Request) (res : ResponseObject)
    (w : World G) (mapping : RouteTypeMapping) :
  findTypeForUrl disk (url req) (allDirs config) = Some mapping →
  isArray mapping = false →
  forcedError (forcedStatus res) = None →
  (cacheable config mapping = true →
   cache.get (schemaCache w) (typeName mapping) (filePath mapping) = None) →
  let called :=
    mock (filePath mapping) (fs.readFileSync disk (filePath mapping))
      (typeName mapping) (generator w) in
  generator (snd (handler now req res w)) = snd called
  ∧ fst (handler now req res w) =
      match fst called with
      | inr (Some mockData) =>
          if truthyJson mockData
          then {| status := JS.orNum (forcedStatus res) 200;
                  body := mockData |}
          else {| status := JS.orNum (forcedStatus res) 500;
                  body := generationFailedBody
                            (failedMessage (typeName mapping)
                               (notFoundMessage (typeName mapping)
                                  (filePath mapping))) |}
      | inr None =>
          {| status := JS.orNum (forcedStatus res) 500;
             body := generationFailedBody
                       (failedMessage (typeName mapping)
                          (notFoundMessage (typeName mapping)
                             (filePath mapping))) |}
      | inl message =>
          {| status := JS.orNum (forcedStatus res) 500;
             body := generationFailedBody
                       (failedMessage (typeName mapping) message) |}
      end.
Proof.
  intros Hm Hsingle Hforced Hmiss called. subst called.
  assert (Hgen : @generate G (parser.asCalled disk) mapping (generator w)
                 = generateMockFromInterface disk (filePath mapping)
                     (typeName mapping) (generator w)).
  { unfold generate. by rewrite Hsingle. }
  unfold generateMockFromInterface in Hgen.
  destruct (mock (filePath mapping) (fs.readFileSync disk (filePath mapping))
              (typeName mapping) (generator w)) as [[message|[data|]] g'];
    cbn [fst snd].
  - by rewrite (@handler_failed _ G (parser.asCalled disk) config disk now
                  req res w mapping _ g' Hm Hforced Hmiss Hgen).
  - destruct (truthyJson data).
    + destruct (cacheable config mapping) eqn:Hc.
      * by rewrite (@handler_miss _ G (parser.asCalled disk) config disk
                      now req res w mapping data g' Hm Hforced Hc
                      (Hmiss eq_refl) Hgen).
      * by rewrite (@handler_uncached _ G (parser.asCalled disk) config
                      disk now req res w mapping data g' Hm Hforced Hc Hgen).
    + by rewrite (@handler_failed _ G (parser.asCalled disk) config disk
                    now req res w mapping _ g' Hm Hforced Hmiss Hgen).
  - by rewrite (@handler_failed _ G (parser.asCalled disk) config disk now
                  req res w mapping _ g' Hm Hforced Hmiss Hgen).
Qed.

End ParserRoutes.

Lemma singular_route_reply_witness :
  fst (@router.dynamicRouteHandler sample.inflector nat
         (@parser.asCalled nat numbering sample.disk)
         sample.config sample.disk 1 (sample.GET "/api/user")
         sample.expressResponse sample.world)
  = {| status := 200; body := JObj [("id", JNum 0)] |}.
Proof.
  exact (proj2 (@singular_route_reply sample.inflector nat numbering
                  sample.config sample.disk 1 (sample.GET "/api/user")
                  sample.expressResponse sample.world
                  {| typeMapping.typeName := "User";
                     typeMapping.isArray := false;
                     typeMapping.filePath := "/contracts/user.ts" |}
                  eq_refl eq_refl eq_refl (λ _, eq_refl))).
Defined.

Lemma array_route_reply_witness :
  ∃ items,
    body (fst (@router.dynamicRouteHandler sample.inflector nat
                 (@parser.asCalled nat numbering sample.disk)
                 sample.config sample.disk 1
                 (sample.GET "/api/users") sample.expressResponse
                 sample.world))
    = JArr items.
Proof.
  destruct (@array_route_reply sample.inflector nat numbering sample.config
              sample.disk 1 (sample.GET "/api/users") sample.expressResponse
              sample.world
              {| typeMapping.typeName := "User";
                 typeMapping.isArray := true;
                 typeMapping.filePath := "/contracts/user.ts" |}
              numbering_unitRandom eq_refl eq_refl eq_refl)
    as [_ [[_ (items & Hitems & _)]|[Hstatus _]]].
  - by exists items.
  - vm_compute in Hstatus. discriminate.
Defined.

(** ** utils/typeMapping.ts: the scan and the interface names *)

Section Scan.
Import fs typeMapping.

Lemma scanEntry_leadsTo entry : ∀ currentDir p,
  p ∈ scanEntry currentDir entry ↔
  ∃ names, leadsTo entry names ∧ p = foldl join currentDir names.
Proof.
  induction entry as [name|name entries IH|name] using Dirent_nested_ind;
    intros currentDir p; simpl.
  - destruct (JS.endsWith name ".ts") eqn:Hts.
    + rewrite list_elem_of_singleton. split.
      * intros ->. exists [name]. split; [by constructor|done].
      * intros (names & Hl & ->). by inversion Hl; subst.
    + split; [by intros ?%elem_of_nil|].
      intros (names & Hl & _). inversion Hl; subst. congruence.
  - case_bool_decide as Hig.
    + split; [by intros ?%elem_of_nil|].
      intros (names & Hl & _). by inversion Hl; subst.
    + rewrite list_elem_of_In, in_flat_map. split.
      * intros (entry & Hin & Hp). apply list_elem_of_In in Hin, Hp.
        apply (proj1 (Forall_forall _ _) IH entry Hin) in Hp
          as (names & Hl & ->).
        exists (name :: names). split; [by econstructor|done].
      * intros (names & Hl & ->). inversion Hl as [|? ? entry rest ? Hin Hl'];
          subst.
        exists entry. split; [by apply list_elem_of_In|].
        apply list_elem_of_In.
        apply (proj1 (Forall_forall _ _) IH entry Hin). by exists rest.
  - split; [by intros ?%elem_of_nil|].
    intros (names & Hl & _). inversion Hl.
Qed.

Lemma append_associative a b c : (a +:+ b) +:+ c = a +:+ (b +:+ c).
Proof.
  induction a as [|x a IH]; rewrite ?append_empty_l, ?append_cons; [done|].
  by rewrite IH.
Qed.

Lemma length_append a b :
  String.length (a +:+ b) = (String.length a + String.length b)%nat.
Proof.
  induction a as [|x a IH]; rewrite ?append_empty_l, ?append_cons; [done|].
  simpl. by rewrite IH.
Qed.

Lemma substring_all s m :
  (String.length s ≤ m)%nat → String.substring 0 m s = s.
Proof.
  revert m. induction s as [|c s IH]; intros [|m] Hm; simpl in *;
    [done|done|lia|].
  rewrite IH; [done|lia].
Qed.

Lemma substring_skip pre s m :
  String.substring (String.length pre) m (pre +:+ s) = String.substring 0 m s.
Proof.
  induction pre as [|c pre IH]; rewrite ?append_empty_l, ?append_cons; [done|].
  exact IH.
Qed.

Lemma endsWith_append pre suffix : JS.endsWith (pre +:+ suffix) suffix = true.
Proof.
  unfold JS.endsWith. rewrite length_append.
  replace (String.length pre + String.length suffix - String.length suffix)%nat
    with (String.length pre) by lia.
  rewrite substring_skip, substring_all by done. apply String.eqb_refl.
Qed.

Lemma substring_suffix s : ∀ n suffix,
  n = (String.length s - String.length suffix)%nat →
  String.substring n (String.length suffix) s = suffix →
  ∃ pre, s = pre +:+ suffix.
Proof.
  induction s as [|c s IH]; intros n suffix Hn Hsub.
  - exists EmptyString. simpl in Hn. subst n. simpl in Hsub.
    destruct suffix; simpl in Hsub; [done|discriminate].
  - destruct n as [|n].
    + exists EmptyString. rewrite substring_all in Hsub; [done|lia].
    + simpl in Hsub. destruct (IH n suffix) as [pre ->]; [simpl in Hn; lia|done|].
      by exists (String c pre).
Qed.

Lemma endsWith_inv s suffix :
  JS.endsWith s suffix = true → ∃ pre, s = pre +:+ suffix.
Proof.
  unfold JS.endsWith. intros Heq%String.eqb_eq.
  by apply (substring_suffix s _ suffix eq_refl).
Qed.

Lemma endsWith_longer pre s suffix :
  JS.endsWith s suffix = true → JS.endsWith (pre +:+ s) suffix = true.
Proof.
  intros [mid ->]%endsWith_inv. rewrite <- append_associative.
  apply endsWith_append.
Qed.

Lemma foldl_join dir names :
  names ≠ [] →
  ∃ rest, foldl join dir names = dir +:+ "/" +:+ rest
          ∧ (∀ suffix, (∃ name, last names = Some name
                                ∧ JS.endsWith name suffix = true) →
                       JS.endsWith (foldl join dir names) suffix = true).
Proof.
  revert dir. induction names as [|name names IH]; intros dir Hne; [done|].
  destruct names as [|next names].
  - exists name. split; [done|]. intros suffix (? & [= <-] & Hs). simpl.
    unfold join. by apply endsWith_longer, endsWith_longer.
  - destruct (IH (join dir name)) as (rest & Heq & Hsuffix); [done|].
    exists (name +:+ "/" +:+ rest). split.
    + change (foldl join dir (name :: next :: names))
        with (foldl join (join dir name) (next :: names)).
      rewrite Heq. unfold join. by rewrite !append_associative.
    + intros suffix Hlast. apply Hsuffix. exact Hlast.
Qed.

Lemma leadsTo_last entry names :
  leadsTo entry names →
  ∃ name, last names = Some name ∧ JS.endsWith name ".ts" = true.
Proof.
  induction 1 as [name Hts|name entries entry names _ _ _ (final & Hl & Hts)].
  - by exists name.
  - exists final. split; [|done]. by destruct names.
Qed.

Lemma findTypeScriptFiles_leadsTo (disk : FileSystem) (dir p : string) :
  p ∈ findTypeScriptFiles disk dir ↔
  ∃ entries entry names,
    readdirSync disk dir = Some entries ∧ entry ∈ entries
    ∧ leadsTo entry names ∧ p = foldl join dir names.
Proof.
  unfold findTypeScriptFiles.
  destruct (readdirSync disk dir) as [entries|].
  - rewrite list_elem_of_In, in_flat_map. split.
    + intros (entry & Hin & Hp). apply list_elem_of_In in Hin, Hp.
      apply scanEntry_leadsTo in Hp as (names & Hl & ->).
      by exists entries, entry, names.
    + intros (? & entry & names & [= <-] & Hin & Hl & ->).
      exists entry. split; [by apply list_elem_of_In|].
      apply list_elem_of_In, scanEntry_leadsTo. by exists names.
  - split; [by intros ?%elem_of_nil|]. by intros (? & ? & ? & ? & _).
Qed.

Lemma findTypeScriptFiles_shape (disk : FileSystem) (dir p : string) :
  p ∈ findTypeScriptFiles disk dir →
  JS.endsWith p ".ts" = true ∧ ∃ rest, p = dir +:+ "/" +:+ rest.
Proof.
  intros (entries & entry & names & _ & _ & Hl & ->)%findTypeScriptFiles_leadsTo.
  pose proof (leadsTo_last _ _ Hl) as Hlast.
  destruct (foldl_join dir names) as (rest & Heq & Hsuffix).
  { destruct Hlast as (? & Hlast & _). by destruct names. }
  split; [by apply Hsuffix|]. by exists rest.
Qed.

(** X9.  [findTypeScriptFiles] reports exactly the regular files named
    "*.ts" that are reached from the directory through directories none
    of which is called node_modules, dist, build or .git, each under the
    path that joins the names on the way; entries that are neither files
    nor directories are not followed, and a directory that does not exist
    has no files.  Every path reported ends in ".ts" and lies below the
    directory. *)
Theorem findTypeScriptFiles_scan (disk : FileSystem) (dir p : string) :
  (p ∈ findTypeScriptFiles disk dir ↔
   ∃ entries entry names,
     readdirSync disk dir = Some entries ∧ entry ∈ entries
     ∧ leadsTo entry names ∧ p = foldl join dir names)
  ∧ (p ∈ findTypeScriptFiles disk dir →
     JS.endsWith p ".ts" = true ∧ ∃ rest, p = dir +:+ "/" +:+ rest).
Proof.
  split; [apply findTypeScriptFiles_leadsTo|apply findTypeScriptFiles_shape].
Qed.

End Scan.

Section InterfaceNames.
Import fs typeMapping.

Lemma stripPrefix_Some p : ∀ s r, JS.stripPrefix p s = Some r → s = p +:+ r.
Proof.
  induction p as [|a p IH]; intros s r; simpl.
  - by intros [= ->].
  - destruct s as [|b s]; [done|].
    destruct (Ascii.eqb a b) eqn:Hab; [|done].
    apply Ascii.eqb_eq in Hab as ->. intros Hs. rewrite append_cons.
    by rewrite (IH _ _ Hs).
Qed.

Lemma span_spec f s :
  s = fst (JS.span f s) +:+ snd (JS.span f s)
  ∧ allChars f (fst (JS.span f s)) = true
  ∧ notLedBy f (snd (JS.span f s)) = true.
Proof.
  induction s as [|c s (IHs & IHa & IHb)]; simpl; [done|].
  destruct (f c) eqn:Hc.
  - destruct (JS.span f s) as [a b]. simpl in *.
    rewrite append_cons, Hc. by rewrite <- IHs.
  - simpl. by rewrite Hc.
Qed.

Local Arguments JS.stripPrefix : simpl never.
Local Arguments JS.span : simpl never.

Lemma matchInterface_Some s name after :
  matchInterface s = Some (name, after) →
  ∃ sp1 sp2,
    s = "export" +:+ sp1 +:+ "interface" +:+ sp2 +:+ name +:+ after
    ∧ (JS.truthy sp1 = true ∧ allChars JS.isSpace sp1 = true)
    ∧ (JS.truthy sp2 = true ∧ allChars JS.isSpace sp2 = true)
    ∧ (JS.truthy name = true ∧ allChars JS.isWord name = true)
    ∧ notLedBy JS.isWord after = true.
Proof.
  unfold matchInterface.
  destruct (JS.stripPrefix "export" s) as [s1|] eqn:H1; [|done]. simpl.
  pose proof (span_spec JS.isSpace s1) as (E1 & A1 & _).
  destruct (JS.span JS.isSpace s1) as [sp1 s2]. simpl in E1, A1.
  destruct (JS.truthy sp1) eqn:T1; [|done].
  destruct (JS.stripPrefix "interface" s2) as [s3|] eqn:H2; [|done]. simpl.
  pose proof (span_spec JS.isSpace s3) as (E2 & A2 & _).
  destruct (JS.span JS.isSpace s3) as [sp2 s4]. simpl in E2, A2.
  destruct (JS.truthy sp2) eqn:T2; [|done].
  pose proof (span_spec JS.isWord s4) as (E3 & A3 & N3).
  destruct (JS.span JS.isWord s4) as [name' s5]. simpl in E3, A3, N3.
  destruct (JS.truthy name') eqn:T3; [|done].
  intros [= -> ->]. exists sp1, sp2.
  apply stripPrefix_Some in H1, H2. subst s s1 s2 s3 s4. done.
Qed.

Lemma execAll_sound name : ∀ s skip,
  name ∈ execAll skip s →
  ∃ before found after,
    s = before +:+ found ∧ matchInterface found = Some (name, after).
Proof.
  induction s as [|c s IH]; intros skip; simpl; [by intros ?%elem_of_nil|].
  assert (Hrest : ∀ k, name ∈ execAll k s →
            ∃ before found after,
              String c s = before +:+ found
              ∧ matchInterface found = Some (name, after)).
  { intros k (before & found & after & -> & Hm)%IH.
    by exists (String c before), found, after. }
  destruct skip as [|k]; [|apply Hrest].
  destruct (matchInterface (String c s)) as [[name' after]|] eqn:Hm;
    [|apply Hrest].
  intros [->|Hin]%elem_of_cons; [|by apply Hrest in Hin].
  by exists EmptyString, (String c s), after.
Qed.

(** X10.  Every name [extractInterfaceNames] reports for a file stands in
    the text of the file after the word "export", white space, the word
    "interface" and white space; it is a non-empty run of letters, digits
    and underscores, taken as far as it goes. *)
Theorem extractInterfaceNames_sound (disk : FileSystem)
    (file name : string) :
  name ∈ extractInterfaceNames disk file →
  ∃ before sp1 sp2 after,
    readFileSync disk file
      = before +:+ "export" +:+ sp1 +:+ "interface" +:+ sp2
          +:+ name +:+ after
    ∧ (JS.truthy sp1 = true ∧ allChars JS.isSpace sp1 = true)
    ∧ (JS.truthy sp2 = true ∧ allChars JS.isSpace sp2 = true)
    ∧ (JS.truthy name = true ∧ allChars JS.isWord name = true)
    ∧ notLedBy JS.isWord after = true.
Proof.
  unfold extractInterfaceNames. rewrite list_elem_of_filter.
  intros [_ (before & found & after & Hs & Hm)%execAll_sound].
  apply matchInterface_Some in Hm as (sp1 & sp2 & -> & Hrest).
  by exists before, sp1, sp2, after.
Qed.

Lemma extractInterfaceNames_sound_witness :
  ∃ before sp1 sp2 after,
    readFileSync sample.disk "/contracts/models/order.ts"
      = before +:+ "export" +:+ sp1 +:+ "interface" +:+ sp2
          +:+ "Order" +:+ after
    ∧ (JS.truthy sp1 = true ∧ allChars JS.isSpace sp1 = true)
    ∧ (JS.truthy sp2 = true ∧ allChars JS.isSpace sp2 = true)
    ∧ (JS.truthy "Order" = true ∧ allChars JS.isWord "Order" = true)
    ∧ notLedBy JS.isWord after = true.
Proof.
  apply (extractInterfaceNames_sound sample.disk
           "/contracts/models/order.ts" "Order").
  vm_compute. apply list_elem_of_here.
Defined.

Lemma extractInterfaceNames_word disk file name :
  name ∈ extractInterfaceNames disk file → allChars JS.isWord name = true.
Proof.
  unfold extractInterfaceNames. rewrite list_elem_of_filter.
  intros [_ (before & found & after & Hs & Hm)%execAll_sound].
  by apply matchInterface_Some in Hm as (sp1 & sp2 & _ & _ & _ & [_ ?] & _).
Qed.

End InterfaceNames.

(** ** utils/pluralize.ts: the shape of a PascalCased name *)

Section PascalCase.
Import pluralize.

Lemma toUpperCaseChar_facts c :
  JS.isWord (JS.toUpperCaseChar c) = JS.isWord c
  ∧ isSeparator (JS.toUpperCaseChar c) = isSeparator c
  ∧ JS.isLineTerminator (JS.toUpperCaseChar c) = JS.isLineTerminator c
  ∧ JS.toUpperCaseChar (JS.toUpperCaseChar c) = JS.toUpperCaseChar c.
Proof. by destruct c as [[] [] [] [] [] [] [] []]. Qed.

Lemma plain_replaceSeparators s : ∀ flag,
  plain (replaceSeparators flag s) = true.
Proof.
  induction s as [|c s IH]; intros flag; simpl; [done|].
  destruct (isSeparator c) eqn:Hc; [apply IH|].
  destruct (flag && negb (JS.isLineTerminator c)); simpl.
  - rewrite (proj1 (proj2 (toUpperCaseChar_facts c))), Hc. apply IH.
  - rewrite Hc. apply IH.
Qed.

Lemma plain_capitalizeFirst s : plain (capitalizeFirst s) = plain s.
Proof.
  destruct s as [|c s]; simpl; [done|].
  destruct (JS.isLineTerminator c); simpl; [done|].
  by rewrite (proj1 (proj2 (toUpperCaseChar_facts c))).
Qed.

Lemma capitalizeFirst_idempotent s :
  capitalizeFirst (capitalizeFirst s) = capitalizeFirst s.
Proof.
  destruct s as [|c s]; simpl; [done|].
  destruct (JS.isLineTerminator c) eqn:Hc; simpl; [by rewrite Hc|].
  destruct (toUpperCaseChar_facts c) as (_ & _ & Hl & Hu).
  by rewrite Hl, Hc, Hu.
Qed.

Lemma allChars_replaceSeparators s : ∀ flag,
  allChars JS.isWord (replaceSeparators flag s)
    = allChars isWordOrSeparator s.
Proof.
  induction s as [|c s IH]; intros flag; simpl; [done|].
  unfold isWordOrSeparator at 1.
  destruct (isSeparator c) eqn:Hc; [by rewrite orb_true_r, IH|].
  rewrite orb_false_r.
  destruct (flag && negb (JS.isLineTerminator c)); simpl.
  - by rewrite (proj1 (toUpperCaseChar_facts c)), IH.
  - by rewrite IH.
Qed.

Lemma allChars_capitalizeFirst s :
  allChars JS.isWord (capitalizeFirst s) = allChars JS.isWord s.
Proof.
  destruct s as [|c s]; simpl; [done|].
  destruct (JS.isLineTerminator c); simpl; [done|].
  by rewrite (proj1 (toUpperCaseChar_facts c)).
Qed.

Lemma allChars_toPascalCase s :
  allChars JS.isWord (toPascalCase s) = allChars isWordOrSeparator s.
Proof.
  unfold toPascalCase.
  by rewrite allChars_capitalizeFirst, allChars_replaceSeparators.
Qed.

(** X11.  A name [toPascalCase] returns holds no hyphen and no underscore,
    and PascalCasing it again changes nothing.  Its characters all are
    letters, digits or underscores exactly when those of the string given
    all were letters, digits, underscores or hyphens: the other characters
    are kept as they are. *)
Theorem toPascalCase_normal_form (s : string) :
  plain (toPascalCase s) = true
  ∧ toPascalCase (toPascalCase s) = toPascalCase s
  ∧ allChars JS.isWord (toPascalCase s) = allChars isWordOrSeparator s.
Proof.
  assert (Hplain : plain (toPascalCase s) = true).
  { unfold toPascalCase.
    by rewrite plain_capitalizeFirst, plain_replaceSeparators. }
  split; [exact Hplain|]. split; [|apply allChars_toPascalCase].
  unfold toPascalCase at 1.
  rewrite (replaceSeparators_plain false _ Hplain).
  unfold toPascalCase. apply capitalizeFirst_idempotent.
Qed.

End PascalCase.

(** ** The entries of the type map, and the paths that cannot resolve *)

Section Entries.
Import typeMapping router.
Context (disk : fs.FileSystem).

Lemma buildTypeMap_Some directories T f :
  buildTypeMap disk directories !! T = Some f →
  (JS.truthy T = true ∧ allChars JS.isWord T = true)
  ∧ T ∈ extractInterfaceNames disk f
  ∧ ∃ dir, dir ∈ directories ∧ f ∈ findTypeScriptFiles disk dir.
Proof.
  rewrite buildTypeMap_lookup. intros [Hf HT]%firstDeclaring_Some.
  split; [|split; [done|]].
  - split; [by eapply extractInterfaceNames_truthy|].
    by eapply extractInterfaceNames_word.
  - apply list_elem_of_In in Hf. unfold scanOrder in Hf.
    apply in_flat_map in Hf as (dir & Hdir & Hf).
    exists dir. by split; apply list_elem_of_In.
Qed.

(** X12.  An entry of the type map has a name that is a non-empty run of
    letters, digits and underscores, and a file that declares the name,
    ends in ".ts" and was found by the scan of one of the directories
    given. *)
Theorem buildTypeMap_entries (directories : list string) (T f : string) :
  buildTypeMap disk directories !! T = Some f →
  (JS.truthy T = true ∧ allChars JS.isWord T = true)
  ∧ T ∈ extractInterfaceNames disk f
  ∧ JS.endsWith f ".ts" = true
  ∧ ∃ dir rest, dir ∈ directories ∧ f ∈ findTypeScriptFiles disk dir
                ∧ f = dir +:+ "/" +:+ rest.
Proof.
  intros (Hword & Hdecl & dir & Hdir & Hf)%buildTypeMap_Some.
  destruct (findTypeScriptFiles_shape disk dir f Hf) as (Hts & rest & Hrest).
  split; [done|]. split; [done|]. split; [done|]. by exists dir, rest.
Qed.

Context `{Pluralize} {G : Type} `{MockGenerator G}.

Lemma findTypeForUrl_foreign url directories :
  isPlural (pluralize.extractLastSegment url) = false →
  allChars isWordOrSeparator (pluralize.extractLastSegment url) = false →
  findTypeForUrl disk url directories = None.
Proof.
  intros Hplural Hforeign. unfold findTypeForUrl.
  destruct (buildTypeMap disk directories !! _) as [f|] eqn:Hf; [|done].
  apply buildTypeMap_Some in Hf as ([_ Hword] & _).
  rewrite parseUrlToType_unfold in Hword. simpl in Hword.
  rewrite Hplural, allChars_toPascalCase in Hword. congruence.
Qed.

(** X13.  A path whose last segment is no plural and holds a character
    other than a letter, a digit, an underscore or a hyphen (the question
    mark of a query string, a dot, a percent sign) resolves to no type,
    whatever the directories hold: [req.url] is resolved as it comes.  The
    handler answers it "Type not found" under status 404 (or the forced
    status) and touches neither the cache nor the generator. *)
Theorem foreign_character_unresolved (config : ServerConfig) (now : Z)
    (req : Request) (res : ResponseObject) (w : World G) :
  isPlural (pluralize.extractLastSegment (url req)) = false →
  allChars isWordOrSeparator (pluralize.extractLastSegment (url req))
    = false →
  findTypeForUrl disk (url req) (allDirs config) = None
  ∧ dynamicRouteHandler config disk now req res w
      = ({| status := JS.orNum (forcedStatus res) 404;
            body := typeNotFoundBody (url req) |},
         emit (TypeMapBuilt (allDirs config)) w).
Proof.
  intros Hplural Hforeign.
  pose proof (findTypeForUrl_foreign (url req) (allDirs config)
                Hplural Hforeign) as Hnone.
  split; [exact Hnone|]. by apply handler_unresolved.
Qed.

End Entries.

Lemma buildTypeMap_entries_witness :
  JS.endsWith "/contracts/models/order.ts" ".ts" = true
  ∧ "Order" ∈ typeMapping.extractInterfaceNames sample.disk
                "/contracts/models/order.ts".
Proof.
  destruct (buildTypeMap_entries sample.disk ["/contracts"] "Order"
              "/contracts/models/order.ts" eq_refl)
    as (_ & Hdecl & Hts & _).
  by split.
Defined.

Lemma foreign_character_unresolved_witness :
  status (fst (@router.dynamicRouteHandler sample.inflector nat
                 sample.counting sample.config sample.disk 1
                 (sample.GET "/api/user?expand=1")
                 sample.expressResponse sample.world)) = 404.
Proof.
  rewrite (proj2 (@foreign_character_unresolved sample.disk sample.inflector
                    nat sample.counting sample.config 1
                    (sample.GET "/api/user?expand=1")
                    sample.expressResponse sample.world eq_refl eq_refl)).
  reflexivity.
Defined.

(** ** core/swagger.ts: the schema of a TypeScript type *)

Section TypeSchema.
Import text swagger.

Lemma length_removeSpaces s :
  (String.length (removeSpaces s) ≤ String.length s)%nat.
Proof.
  induction s as [|c s IH]; simpl; [done|].
  destruct (JS.isSpace c); simpl; lia.
Qed.

Lemma removeSpaces_idempotent s : removeSpaces (removeSpaces s) = removeSpaces s.
Proof.
  induction s as [|c s IH]; simpl; [done|].
  destruct (JS.isSpace c) eqn:Hc; simpl; [done|]. by rewrite Hc, IH.
Qed.

Lemma removeSpaces_append a b :
  removeSpaces (a +:+ b) = removeSpaces a +:+ removeSpaces b.
Proof.
  induction a as [|c a IH]; rewrite ?append_empty_l, ?append_cons; simpl;
    [done|].
  destruct (JS.isSpace c); rewrite ?append_cons; by rewrite IH.
Qed.

Lemma dropLast_append pre suffix :
  dropLast (String.length suffix) (pre +:+ suffix) = pre.
Proof.
  unfold dropLast. rewrite length_append.
  replace (String.length pre + String.length suffix - String.length suffix)%nat
    with (String.length pre) by lia.
  induction pre as [|c pre IH]; rewrite ?append_empty_l, ?append_cons; simpl.
  - by destruct suffix.
  - by rewrite IH.
Qed.

Lemma removeNullable_cons skip c s :
  removeNullable skip (String c s) =
    match skip with
    | S k => removeNullable k s
    | O =>
        if startsWith "|null" (String c s) then removeNullable 4 s
        else if startsWith "|undefined" (String c s)
             then removeNullable 9 s
             else String c (removeNullable 0 s)
    end.
Proof. reflexivity. Qed.

Lemma includes_cons sub c s :
  includes sub (String c s) = startsWith sub (String c s) || includes sub s.
Proof. reflexivity. Qed.

Lemma length_removeNullable s : ∀ skip,
  (String.length (removeNullable skip s) ≤ String.length s)%nat.
Proof.
  induction s as [|c s IH]; intros skip; [done|].
  rewrite removeNullable_cons.
  destruct skip as [|k]; [|specialize (IH k); simpl; lia].
  destruct (startsWith "|null" (String c s));
    [specialize (IH 4%nat); simpl; lia|].
  destruct (startsWith "|undefined" (String c s));
    [specialize (IH 9%nat); simpl; lia|].
  specialize (IH 0%nat). simpl. lia.
Qed.

Lemma removeNullable_shorter s :
  includes "|null" s || includes "|undefined" s = true →
  (String.length (removeNullable 0 s) < String.length s)%nat.
Proof.
  induction s as [|c s IH]; [done|].
  rewrite removeNullable_cons, !includes_cons.
  destruct (startsWith "|null" (String c s)).
  { intros _. pose proof (length_removeNullable s 4). simpl. lia. }
  destruct (startsWith "|undefined" (String c s)).
  { intros _. pose proof (length_removeNullable s 9). simpl. lia. }
  intros Hin. specialize (IH Hin). simpl. lia.
Qed.

Lemma endsWith_length s suffix :
  JS.endsWith s suffix = true → (String.length suffix ≤ String.length s)%nat.
Proof. intros [pre ->]%endsWith_inv. rewrite length_append. lia. Qed.

Lemma length_dropLast n s :
  (n ≤ String.length s)%nat →
  String.length (dropLast n s) = (String.length s - n)%nat.
Proof.
  unfold dropLast. intros Hn.
  generalize (String.length s - n)%nat (Nat.le_sub_l (String.length s) n).
  clear Hn. induction s as [|c s IH]; intros [|m] Hm; simpl in *;
    [done|lia|done|].
  rewrite IH; [done|lia].
Qed.

(** The bound on the depth is enough as soon as it is the length of the
    type without its white space. *)
Lemma convert_enough n1 : ∀ n2 s,
  (String.length (removeSpaces s) ≤ n1)%nat →
  (String.length (removeSpaces s) ≤ n2)%nat →
  convert n1 s = convert n2 s.
Proof.
  induction n1 as [|n1 IH]; intros n2 s H1 H2.
  - destruct (removeSpaces s) as [|c b] eqn:Hb; [|simpl in H1; lia].
    destruct n2; simpl; by rewrite Hb.
  - destruct n2 as [|n2].
    + destruct (removeSpaces s) as [|c b] eqn:Hb; [|simpl in H2; lia].
      simpl. by rewrite Hb.
    + simpl. destruct (JS.endsWith (removeSpaces s) "[]") eqn:Harr.
      * pose proof (endsWith_length _ _ Harr) as Hlen. simpl in Hlen.
        pose proof (length_removeSpaces (dropLast 2 (removeSpaces s))).
        rewrite length_dropLast in * by done.
        f_equal. f_equal. apply IH; lia.
      * destruct (includes "|null" (removeSpaces s)
                  || includes "|undefined" (removeSpaces s)) eqn:Hnull;
          [|done].
        pose proof (removeNullable_shorter _ Hnull).
        pose proof (length_removeSpaces (removeNullable 0 (removeSpaces s))).
        apply IH; lia.
Qed.

Lemma typeToOpenAPISchema_equation tsType :
  typeToOpenAPISchema tsType =
    let baseType := removeSpaces tsType in
    if JS.endsWith baseType "[]"
    then Schema "array" (Some (typeToOpenAPISchema (dropLast 2 baseType)))
           None
    else if includes "|null" baseType || includes "|undefined" baseType
         then typeToOpenAPISchema (removeNullable 0 baseType)
         else primitive baseType.
Proof.
  unfold typeToOpenAPISchema.
  pose proof (length_removeSpaces tsType) as Hlen.
  rewrite (convert_enough _ (S (String.length tsType)) tsType) by lia.
  simpl. destruct (JS.endsWith (removeSpaces tsType) "[]") eqn:Harr.
  - pose proof (endsWith_length _ _ Harr) as Hlen'. simpl in Hlen'.
    pose proof (length_removeSpaces (dropLast 2 (removeSpaces tsType))).
    pose proof (length_dropLast 2 (removeSpaces tsType) Hlen').
    f_equal. f_equal. apply convert_enough; lia.
  - destruct (includes "|null" (removeSpaces tsType)
              || includes "|undefined" (removeSpaces tsType)) eqn:Hnull;
      [|done].
    pose proof (removeNullable_shorter _ Hnull).
    pose proof (length_removeSpaces
                  (removeNullable 0 (removeSpaces tsType))).
    apply convert_enough; lia.
Qed.

Lemma wellFormed_primitive baseType : wellFormed (primitive baseType) = true.
Proof.
  unfold primitive.
  repeat (match goal with |- context [if ?b then _ else _] => destruct b end);
    done.
Qed.

Lemma wellFormed_convert depth : ∀ s, wellFormed (convert depth s) = true.
Proof.
  induction depth as [|depth IH]; intros s; simpl.
  - apply wellFormed_primitive.
  - destruct (JS.endsWith _ _).
    + simpl. by rewrite IH.
    + destruct (_ || _); [apply IH|apply wellFormed_primitive].
Qed.

(** X14.  [typeToOpenAPISchema] ends on every type: the recursion of the
    source holds of it, each call being on a shorter string.  The schema
    it returns is always well formed: its type is array, string, number,
    boolean or object, an array has the schema of its items, and a format
    ("date-time") is only set on a string. *)
Theorem typeToOpenAPISchema_total (tsType : string) :
  typeToOpenAPISchema tsType =
    (let baseType := removeSpaces tsType in
     if JS.endsWith baseType "[]"
     then Schema "array" (Some (typeToOpenAPISchema (dropLast 2 baseType)))
            None
     else if includes "|null" baseType || includes "|undefined" baseType
          then typeToOpenAPISchema (removeNullable 0 baseType)
          else primitive baseType)
  ∧ wellFormed (typeToOpenAPISchema tsType) = true.
Proof.
  split; [apply typeToOpenAPISchema_equation|apply wellFormed_convert].
Qed.

Lemma typeToOpenAPISchema_removeSpaces s :
  typeToOpenAPISchema (removeSpaces s) = typeToOpenAPISchema s.
Proof.
  rewrite (typeToOpenAPISchema_equation s),
    (typeToOpenAPISchema_equation (removeSpaces s)).
  by rewrite removeSpaces_idempotent.
Qed.

Lemma lastChar_append a c b :
  lastChar (a +:+ String c b) = lastChar (String c b).
Proof.
  induction a as [|x a IH]; rewrite ?append_empty_l, ?append_cons; [done|].
  rewrite <- IH. simpl. by destruct a.
Qed.

Lemma endsWith_lastChar s suffix c :
  lastChar suffix = Some c →
  JS.endsWith s suffix = true → lastChar s = Some c.
Proof.
  intros Hc [pre ->]%endsWith_inv.
  destruct suffix as [|x suffix]; [done|]. by rewrite lastChar_append.
Qed.

Lemma allChars_lastChar f s c :
  allChars f s = true → lastChar s = Some c → f c = true.
Proof.
  induction s as [|x s IH]; [done|]. simpl.
  intros [Hx Hs]%andb_true_iff. destruct s; [by intros [= <-]|by apply IH].
Qed.

Lemma allChars_impl (f g : ascii → bool) s :
  (∀ c, f c = true → g c = true) →
  allChars f s = true → allChars g s = true.
Proof.
  intros Hfg. induction s as [|c s IH]; simpl; [done|].
  intros [Hc Hs]%andb_true_iff. by rewrite (Hfg c Hc), IH.
Qed.

Lemma allChars_append f a b :
  allChars f (a +:+ b) = allChars f a && allChars f b.
Proof.
  induction a as [|c a IH]; rewrite ?append_empty_l, ?append_cons; simpl;
    [done|].
  by rewrite IH, andb_assoc.
Qed.

(** A string none of whose characters is the first one of [sub] does not
    include it. *)
Lemma includes_absent c0 sub s :
  allChars (λ c, negb (Ascii.eqb c c0)) s = true →
  includes (String c0 sub) s = false.
Proof.
  induction s as [|c s IH]; [done|]. simpl.
  intros [Hc Hs]%andb_true_iff. rewrite (IH Hs), orb_false_r.
  unfold startsWith. simpl. rewrite Ascii.eqb_sym.
  by rewrite (proj1 (negb_true_iff _) Hc).
Qed.

Lemma startsWith_cons a p c s :
  startsWith (String a p) (String c s) = Ascii.eqb a c && startsWith p s.
Proof. unfold startsWith. simpl. by destruct (Ascii.eqb a c). Qed.

Lemma startsWith_append p s : startsWith p (p +:+ s) = true.
Proof.
  unfold startsWith.
  induction p as [|c p IH]; rewrite ?append_empty_l, ?append_cons; simpl;
    [done|].
  by rewrite Ascii.eqb_refl.
Qed.

Lemma includes_append sub a b : includes sub (a +:+ sub +:+ b) = true.
Proof.
  induction a as [|c a IH]; rewrite ?append_empty_l, ?append_cons.
  - destruct (sub +:+ b) eqn:Hs; simpl; rewrite <- Hs;
      by rewrite startsWith_append.
  - rewrite includes_cons, IH. apply orb_true_r.
Qed.

Lemma removeSpaces_fixed s :
  allChars (λ c, negb (JS.isSpace c)) s = true → removeSpaces s = s.
Proof.
  induction s as [|c s IH]; simpl; [done|].
  intros [Hc Hs]%andb_true_iff. apply negb_true_iff in Hc.
  by rewrite Hc, IH.
Qed.

Lemma barFree_removeSpaces s :
  barFree s = true → barFree (removeSpaces s) = true.
Proof.
  unfold barFree. induction s as [|c s IH]; simpl; [done|].
  intros [Hc Hs]%andb_true_iff.
  destruct (JS.isSpace c); simpl; rewrite ?Hc; by apply IH.
Qed.

(** Without a bar before it, the one nullable mark at the end is what
    the replacement drops. *)
Lemma removeNullable_end b mark :
  barFree b = true →
  mark = "|null" ∨ mark = "|undefined" →
  removeNullable 0 (b +:+ mark) = b.
Proof.
  intros Hb Hmark.
  induction b as [|c b IH]; rewrite ?append_empty_l, ?append_cons.
  - by destruct Hmark as [-> | ->].
  - unfold barFree in Hb. simpl in Hb.
    apply andb_true_iff in Hb as [Hc Hb]. apply negb_true_iff in Hc.
    rewrite removeNullable_cons, !startsWith_cons.
    rewrite (Ascii.eqb_sym "|" c), Hc. simpl. by rewrite (IH Hb).
Qed.

(** X15.  Laws of [typeToOpenAPISchema].  White space in a type does not
    matter.  A type followed by "[]" is an array of the schema of the
    type.  A type without a vertical bar, followed by "|null" or
    "|undefined", has the schema of the type alone. *)
Theorem typeToOpenAPISchema_laws (t : string) :
  typeToOpenAPISchema (removeSpaces t) = typeToOpenAPISchema t
  ∧ typeToOpenAPISchema (t +:+ "[]")
      = Schema "array" (Some (typeToOpenAPISchema t)) None
  ∧ (barFree t = true →
     typeToOpenAPISchema (t +:+ "|null") = typeToOpenAPISchema t
     ∧ typeToOpenAPISchema (t +:+ "|undefined") = typeToOpenAPISchema t
     ∧ typeToOpenAPISchema (t +:+ " | null") = typeToOpenAPISchema t).
Proof.
  split; [apply typeToOpenAPISchema_removeSpaces|]. split.
  - rewrite typeToOpenAPISchema_equation. cbv zeta.
    rewrite removeSpaces_append.
    change (removeSpaces "[]") with "[]".
    rewrite endsWith_append.
    change 2%nat with (String.length "[]"). rewrite dropLast_append.
    by rewrite typeToOpenAPISchema_removeSpaces.
  - intros Hbar.
    assert (Hmark : ∀ mark, mark = "|null" ∨ mark = "|undefined" →
              typeToOpenAPISchema (removeSpaces t +:+ mark)
                = typeToOpenAPISchema t).
    { intros mark Hmark. rewrite typeToOpenAPISchema_equation. cbv zeta.
      rewrite removeSpaces_append, removeSpaces_idempotent.
      assert (removeSpaces mark = mark) as -> by by destruct Hmark as [-> | ->].
      destruct (JS.endsWith (removeSpaces t +:+ mark) "[]") eqn:Harr.
      { apply (endsWith_lastChar _ "[]" "]" eq_refl) in Harr.
        destruct Hmark as [-> | ->]; by rewrite lastChar_append in Harr. }
      assert (includes "|null" (removeSpaces t +:+ mark)
              || includes "|undefined" (removeSpaces t +:+ mark) = true)
        as ->.
      { destruct Hmark as [-> | ->].
        - by rewrite (includes_append "|null" _ EmptyString).
        - rewrite (includes_append "|undefined" _ EmptyString).
          apply orb_true_r. }
      rewrite (removeNullable_end _ mark (barFree_removeSpaces _ Hbar) Hmark).
      apply typeToOpenAPISchema_removeSpaces. }
    split; [|split].
    + rewrite <- (typeToOpenAPISchema_removeSpaces (t +:+ "|null")).
      rewrite removeSpaces_append. apply Hmark. by left.
    + rewrite <- (typeToOpenAPISchema_removeSpaces (t +:+ "|undefined")).
      rewrite removeSpaces_append. apply Hmark. by right.
    + rewrite <- (typeToOpenAPISchema_removeSpaces (t +:+ " | null")).
      rewrite removeSpaces_append. apply Hmark. by left.
Qed.

(** X16.  A type written as one identifier gets the schema of the table:
    string, number and boolean as they are, Date as a date-time string,
    any and unknown as an object, and every other identifier (the name of
    another interface, of an enum or of an alias) as a plain string. *)
Theorem typeToOpenAPISchema_identifier (name : string) :
  allChars JS.isWord name = true →
  typeToOpenAPISchema name = primitive name
  ∧ (name ∉ knownTypes →
     typeToOpenAPISchema name = Schema "string" None None).
Proof.
  intros Hword.
  assert (Hnot : ∀ c0, JS.isWord c0 = false →
            allChars (λ c, negb (Ascii.eqb c c0)) name = true).
  { intros c0 Hc0. apply (allChars_impl JS.isWord); [|done].
    intros c Hc. apply negb_true_iff, Ascii.eqb_neq. congruence. }
  assert (Heq : typeToOpenAPISchema name = primitive name).
  { rewrite typeToOpenAPISchema_equation. cbv zeta.
    rewrite removeSpaces_fixed.
    2:{ apply (allChars_impl JS.isWord); [|done].
        intros c Hc. apply negb_true_iff.
        by destruct c as [[] [] [] [] [] [] [] []]. }
    destruct (JS.endsWith name "[]") eqn:Harr.
    { apply (endsWith_lastChar _ "[]" "]" eq_refl) in Harr.
      by apply (allChars_lastChar _ _ _ Hword) in Harr. }
    by rewrite !(includes_absent "|") by by apply Hnot. }
  split; [exact Heq|]. intros Hunknown. rewrite Heq. unfold primitive.
  assert (Hne : ∀ known, known ∈ knownTypes → String.eqb name known = false).
  { intros known Hk. apply String.eqb_neq. by intros ->. }
  rewrite !Hne by (apply list_elem_of_In; simpl; tauto). simpl.
  by rewrite (includes_absent "{") by by apply Hnot.
Qed.

Lemma typeToOpenAPISchema_identifier_witness :
  typeToOpenAPISchema "Address" = Schema "string" None None.
Proof.
  refine (proj2 (typeToOpenAPISchema_identifier "Address" eq_refl) _).
  intros Hin. apply list_elem_of_In in Hin. simpl in Hin.
  repeat destruct Hin as [Hin|Hin]; try discriminate; done.
Defined.

End TypeSchema.

(** ** core/swagger.ts: the documented paths against the resolution *)

Section DocumentedPaths.
Import text swagger pluralize.

Lemma upper_facts c :
  JS.isUpper c = true →
  isSeparator (toLowerCaseChar c) = false
  ∧ JS.isLineTerminator (toLowerCaseChar c) = false
  ∧ JS.toUpperCaseChar (toLowerCaseChar c) = c
  ∧ Ascii.eqb (toLowerCaseChar c) "-" = false.
Proof. by destruct c as [[] [] [] [] [] [] [] []]. Qed.

Lemma alphanumeric_facts c :
  isAlphanumeric c = true →
  isSeparator c = false ∧ Ascii.eqb c "/" = false
  ∧ isSeparator (toLowerCaseChar c) = false
  ∧ Ascii.eqb (toLowerCaseChar c) "/" = false
  ∧ (JS.isUpper c = false → toLowerCaseChar c = c).
Proof. by destruct c as [[] [] [] [] [] [] [] []]. Qed.

Lemma replaceSeparators_dashed rest :
  allChars isAlphanumeric rest = true →
  replaceSeparators false (toLowerCase (dashCapitals rest)) = rest.
Proof.
  induction rest as [|c rest IH]; simpl; [done|].
  intros [Hc Hrest]%andb_true_iff. specialize (IH Hrest).
  destruct (JS.isUpper c) eqn:Hup; simpl.
  - destruct (upper_facts c Hup) as (Hsep & Hterm & Hback & _).
    by rewrite Hsep, Hterm, Hback, IH.
  - destruct (alphanumeric_facts c Hc) as (Hsep & _ & _ & _ & Hsame).
    by rewrite (Hsame Hup), Hsep, IH.
Qed.

(** The kebab-case form of a name is PascalCased back to the name. *)
Lemma toPascalCase_kebab c rest :
  JS.isUpper c = true →
  allChars isAlphanumeric rest = true →
  toPascalCase (kebab (String c rest)) = String c rest.
Proof.
  intros Hup Hrest. unfold kebab, toPascalCase. simpl. rewrite Hup. simpl.
  destruct (upper_facts c Hup) as (Hsep & Hterm & Hback & _).
  rewrite Hsep. simpl. rewrite (replaceSeparators_dashed rest Hrest).
  simpl. by rewrite Hterm, Hback.
Qed.

Lemma noSlash_toLowerCase s :
  allChars isAlphanumeric s = true → noSlash (toLowerCase s) = true.
Proof.
  induction s as [|c s IH]; simpl; [done|].
  intros [Hc Hs]%andb_true_iff.
  destruct (alphanumeric_facts c Hc) as (_ & _ & _ & Hslash & _).
  by rewrite Hslash, IH.
Qed.

Lemma plain_toLowerCase s :
  allChars isAlphanumeric s = true → plain (toLowerCase s) = true.
Proof.
  induction s as [|c s IH]; simpl; [done|].
  intros [Hc Hs]%andb_true_iff.
  destruct (alphanumeric_facts c Hc) as (_ & _ & Hsep & _ & _).
  by rewrite Hsep, IH.
Qed.

Lemma extractLastSegment_single segment :
  JS.truthy segment = true → noSlash segment = true →
  extractLastSegment ("/" +:+ segment) = segment.
Proof.
  intros Ht Hs.
  pose proof (extractLastSegment_last EmptyString segment 0 Ht Hs) as Hlast.
  simpl in Hlast. by rewrite append_empty_r in Hlast.
Qed.

Lemma toLowerCase_fixed s :
  toLowerCase s = s ↔ allChars (λ c, negb (JS.isUpper c)) s = true.
Proof.
  induction s as [|c s IH]; simpl; [done|].
  rewrite andb_true_iff, negb_true_iff, <- IH. unfold toLowerCaseChar.
  destruct (JS.isUpper c) eqn:Hup.
  - split; [|by intros [? _]]. intros [= Hc _]. exfalso.
    revert Hup Hc. clear. by destruct c as [[] [] [] [] [] [] [] []].
  - split; [by intros [= ->]|]. by intros [_ ->].
Qed.

Context `{Pluralize} `{PluralizeWord}.

(** X17.  The list path the documentation gives for an interface routes
    to that interface, as an array: for a name made of letters and digits
    that begins with a capital, and an inflection package for which the
    plural of the kebab-case name is a plural, has that name as its
    singular and holds no slash, [parseUrlToType] of
    [interfaceNameToPath name] is the name with the array flag, and
    [findTypeForUrl] finds the file the type map has for the name. *)
Theorem documented_list_path_resolves (disk : fs.FileSystem)
    (directories : list string) (c : ascii) (rest : string) :
  JS.isUpper c = true →
  allChars isAlphanumeric rest = true →
  isPlural (plural (kebab (String c rest))) = true →
  singular (plural (kebab (String c rest))) = kebab (String c rest) →
  JS.truthy (plural (kebab (String c rest))) = true →
  noSlash (plural (kebab (String c rest))) = true →
  parseUrlToType (interfaceNameToPath (String c rest))
    = {| typeName := String c rest; isArray := true |}
  ∧ typeMapping.findTypeForUrl disk (interfaceNameToPath (String c rest))
      directories
    = (λ file, {| typeMapping.typeName := String c rest;
                  typeMapping.isArray := true;
                  typeMapping.filePath := file |})
        <$> typeMapping.buildTypeMap disk directories !! String c rest.
Proof.
  intros Hup Hrest Hplural Hsingular Htruthy Hslash.
  assert (Hparse : parseUrlToType (interfaceNameToPath (String c rest))
                   = {| typeName := String c rest; isArray := true |}).
  { rewrite parseUrlToType_unfold. unfold interfaceNameToPath.
    rewrite (extractLastSegment_single _ Htruthy Hslash).
    by rewrite Hplural, Hsingular, (toPascalCase_kebab c rest Hup Hrest). }
  split; [exact Hparse|].
  rewrite findTypeForUrl_first, Hparse, buildTypeMap_lookup. done.
Qed.

(** X18.  The single-item path the documentation gives for an interface
    is the name in lower case.  For a name made of letters and digits that
    begins with a capital, and whose lower-case form is no plural, that
    path resolves to the name with only its first letter in upper case:
    to the interface itself exactly when the name holds no other capital
    letter, and to another name otherwise. *)
Theorem documented_item_path_resolves (c : ascii) (rest : string) :
  JS.isUpper c = true →
  allChars isAlphanumeric rest = true →
  isPlural (toLowerCase (String c rest)) = false →
  parseUrlToType (singularPath (String c rest))
    = {| typeName := String c (toLowerCase rest); isArray := false |}
  ∧ (typeName (parseUrlToType (singularPath (String c rest))) = String c rest
     ↔ allChars (λ x, negb (JS.isUpper x)) rest = true).
Proof.
  intros Hup Hrest Hplural.
  assert (Hname : allChars isAlphanumeric (String c rest) = true).
  { simpl. unfold isAlphanumeric at 1. by rewrite Hup, Hrest. }
  assert (Hparse : parseUrlToType (singularPath (String c rest))
            = {| typeName := String c (toLowerCase rest);
                 isArray := false |}).
  { rewrite parseUrlToType_unfold. unfold singularPath.
    rewrite (extractLastSegment_single (toLowerCase (String c rest))
               eq_refl (noSlash_toLowerCase _ Hname)).
    rewrite Hplural. f_equal. unfold toPascalCase.
    rewrite (replaceSeparators_plain false _ (plain_toLowerCase _ Hname)).
    simpl. destruct (upper_facts c Hup) as (_ & Hterm & Hback & _).
    by rewrite Hterm, Hback. }
  split; [exact Hparse|]. rewrite Hparse. simpl.
  rewrite <- toLowerCase_fixed. split; [by intros [= ->]|by intros ->].
Qed.

End DocumentedPaths.

Lemma documented_list_path_resolves_witness :
  @pluralize.parseUrlToType sample.inflector
    (@swagger.interfaceNameToPath addS "UserProfile")
  = {| pluralize.typeName := "UserProfile"; pluralize.isArray := true |}.
Proof.
  exact (proj1 (@documented_list_path_resolves sample.inflector addS
                  sample.disk ["/contracts"] "U" "serProfile"
                  eq_refl eq_refl eq_refl eq_refl eq_refl eq_refl)).
Defined.

Lemma documented_item_path_resolves_witness :
  @pluralize.parseUrlToType sample.inflector
    (swagger.singularPath "UserProfile")
  = {| pluralize.typeName := "Userprofile"; pluralize.isArray := false |}.
Proof.
  exact (proj1 (@documented_item_path_resolves sample.inflector
                  "U" "serProfile" eq_refl eq_refl eq_refl)).
Defined.

(** ** Decimal numerals: [parseInt] after the printing of a number *)

Section Decimal.

Lemma digitsValue_acc s : ∀ acc,
  JS.digitsValue acc s
    = acc * 10 ^ Z.of_nat (String.length s) + JS.digitsValue 0 s.
Proof.
  induction s as [|c s IH]; intros acc; simpl String.length.
  - simpl. lia.
  - simpl JS.digitsValue. rewrite (IH (10 * acc + _)), (IH (10 * 0 + _)).
    rewrite Nat2Z.inj_succ, Z.pow_succ_r by lia. lia.
Qed.

Lemma pretty_N_char_digit x :
  (x < 10)%N →
  JS.isDigit (pretty_N_char x) = true
  ∧ Z.of_nat (nat_of_ascii (pretty_N_char x)) - 48 = Z.of_N x.
Proof.
  intros Hx.
  assert (x = 0 ∨ x = 1 ∨ x = 2 ∨ x = 3 ∨ x = 4 ∨ x = 5 ∨ x = 6 ∨ x = 7
          ∨ x = 8 ∨ x = 9)%N as Hcases by lia.
  repeat destruct Hcases as [->|Hcases]; try subst x; done.
Qed.

Lemma pretty_N_go_digits x : ∀ s,
  allChars JS.isDigit s = true →
  allChars JS.isDigit (pretty_N_go x s) = true
  ∧ JS.digitsValue 0 (pretty_N_go x s)
      = Z.of_N x * 10 ^ Z.of_nat (String.length s) + JS.digitsValue 0 s.
Proof.
  induction (N.lt_wf_0 x) as [x _ IH]. intros s Hs.
  assert (x = 0 ∨ 0 < x)%N as [->|Hpos] by lia.
  - rewrite pretty_N_go_0. split; [done|]. lia.
  - rewrite pretty_N_go_step by done.
    destruct (pretty_N_char_digit (x `mod` 10)) as [Hd Hv].
    { by apply N.mod_lt. }
    destruct (IH (x `div` 10)%N (N.div_lt x 10 Hpos eq_refl)
                (String (pretty_N_char (x `mod` 10)) s)) as [Hall Hval].
    { simpl. by rewrite Hd, Hs. }
    split; [exact Hall|]. rewrite Hval. simpl String.length.
    simpl JS.digitsValue. rewrite (digitsValue_acc s (10 * 0 + _)), Hv.
    rewrite Nat2Z.inj_succ, Z.pow_succ_r by lia.
    rewrite (N.div_mod x 10) at 3 by done.
    rewrite N2Z.inj_add, N2Z.inj_mul. simpl Z.of_N. lia.
Qed.


(** The decimal numeral of a natural number: digits only, at least one,
    of the value of the number. *)
Lemma pretty_N_numeral (x : N) :
  allChars JS.isDigit (pretty x) = true
  ∧ JS.truthy (pretty x) = true
  ∧ JS.digitsValue 0 (pretty x) = Z.of_N x.
Proof.
  unfold pretty, pretty_N. case_decide as Hx; [by subst x|].
  destruct (pretty_N_go_digits x EmptyString eq_refl) as [Hall Hval].
  split; [exact Hall|]. split.
  - assert (Hne : pretty_N_go x "" ≠ EmptyString).
    { rewrite pretty_N_go_step by lia. intros Hempty.
      pose proof (f_equal String.length Hempty) as Hlen.
      assert (∀ y s, (String.length s ≤ String.length (pretty_N_go y s))%nat)
        as Hgrow.
      { clear. intros y. induction (N.lt_wf_0 y) as [y _ IH]. intros s.
        assert (y = 0 ∨ 0 < y)%N as [->|Hpos] by lia;
          [by rewrite pretty_N_go_0|].
        rewrite pretty_N_go_step by done.
        etrans; [|apply IH; by apply N.div_lt]. simpl. lia. }
      specialize (Hgrow (x `div` 10)%N
                    (String (pretty_N_char (x `mod` 10)) "")).
      rewrite Hlen in Hgrow. simpl in Hgrow. lia. }
    by destruct (pretty_N_go x "").
  - rewrite Hval. simpl. lia.
Qed.

Lemma digits_not_space s :
  allChars JS.isDigit s = true → JS.truthy s = true →
  JS.span JS.isSpace s = (EmptyString, s)
  ∧ ∃ c rest, s = String c rest ∧ JS.isDigit c = true.
Proof.
  destruct s as [|c s]; [done|]. simpl.
  intros [Hc Hs]%andb_true_iff _.
  assert (JS.isSpace c = false) as ->.
  { revert Hc. clear. by destruct c as [[] [] [] [] [] [] [] []]. }
  split; [done|]. by exists c, s.
Qed.



Lemma span_append f a b :
  allChars f a = true → notLedBy f b = true →
  JS.span f (a +:+ b) = (a, b).
Proof.
  intros Ha Hb. induction a as [|c a IH];
    rewrite ?append_empty_l, ?append_cons.
  - destruct b as [|c b]; [done|]. simpl in *.
    by rewrite (proj1 (negb_true_iff _) Hb).
  - simpl in *. apply andb_true_iff in Ha as [Hc Ha]. by rewrite Hc, (IH Ha).
Qed.

(** [parseInt] reads the numeral at the head of a text and ignores what
    follows it. *)
Lemma parseInt_numeral (x : N) (rest : string) :
  notLedBy JS.isDigit rest = true →
  JS.parseInt (pretty x +:+ rest) = Some (Z.of_N x)
  ∧ JS.truthy (pretty x +:+ rest) = true.
Proof.
  intros Hrest. destruct (pretty_N_numeral x) as (Hall & Ht & Hval).
  destruct (digits_not_space _ Hall Ht) as (_ & c & s & Hs & Hc).
  split; [|by rewrite Hs]. unfold JS.parseInt.
  assert (JS.span JS.isSpace (pretty x +:+ rest)
          = (EmptyString, pretty x +:+ rest)) as ->.
  { rewrite Hs, append_cons. simpl.
    assert (JS.isSpace c = false) as ->; [|done].
    revert Hc. clear. by destruct c as [[] [] [] [] [] [] [] []]. }
  cbn [snd].
  assert (Hsign : match pretty x +:+ rest with
                  | String "-" r => (true, r)
                  | String "+" r => (false, r)
                  | _ => (false, pretty x +:+ rest)
                  end = (false, pretty x +:+ rest)).
  { rewrite Hs, append_cons. revert Hc. clear.
    by destruct c as [[] [] [] [] [] [] [] []]. }
  rewrite Hsign, (span_append _ _ _ Hall Hrest). cbn [fst].
  by rewrite Ht, Hval.
Qed.

End Decimal.

Section NumeralStatus.
Import statusOverride.
Context {G : Type}.

(** X19.  A status header that begins with the decimal numeral of [n],
    whatever follows the numeral, is read as [n]: with [n] from 100 to 599
    the middleware records it and logs nothing, and otherwise it records
    nothing and logs the warning with the header as it came. *)
Theorem status_header_numeral (req : Request) (res : ResponseObject)
    (w : World G) (n : N) (rest : string) :
  headers req !! "x-mock-status" = Some (pretty n +:+ rest) →
  notLedBy JS.isDigit rest = true →
  statusOverrideMiddleware req res w =
    if (100 <=? Z.of_N n) && (Z.of_N n <? 600)
    then ({| forcedStatus := Some (Z.of_N n);
             instanceofResponse := instanceofResponse res |}, w)
    else (res, emit (Logged Warn ("Invalid x-mock-status header: "
                                    +:+ pretty n +:+ rest)) w).
Proof.
  intros Hheader Hrest. unfold statusOverrideMiddleware. rewrite Hheader.
  destruct (parseInt_numeral n rest Hrest) as [-> ->]. done.
Qed.

End NumeralStatus.

Lemma status_header_numeral_witness :
  forcedStatus
    (fst (statusOverride.statusOverrideMiddleware
            (sample.GETwith "/api/user" "404 Not Found")
            sample.expressResponse sample.world))
  = Some 404.
Proof.
  rewrite (@status_header_numeral nat
             (sample.GETwith "/api/user" "404 Not Found")
             sample.expressResponse sample.world 404%N " Not Found"
             eq_refl eq_refl).
  reflexivity.
Defined.

Section Latency.
Import cli.





End Latency.


(** The first integer that is not stored as written, and a range given
    the wrong way round. *)
Example parseLatency_rounds :
  fst (cli.parseLatency (Some "9007199254740993-1"))
    = Some (JS.Finite 9007199254740992, JS.Finite 1)
  ∧ fst (cli.parseLatency (Some "500-100"))
      = Some (JS.Finite 500, JS.Finite 100).
Proof. split; reflexivity. Qed.

(** ** core/swagger.ts: the generated document *)

Section Document.
Import text swagger cache.

Lemma mapSet_elem {V} key (value : V) m k v :
  (k, v) ∈ mapSet key value m → (k, v) = (key, value) ∨ (k, v) ∈ m.
Proof.
  induction m as [|[k' v'] m IH]; simpl.
  - intros ->%list_elem_of_singleton. by left.
  - destruct (String.eqb k' key) eqn:Hk.
    + apply String.eqb_eq in Hk as ->.
      intros [->|Hin]%elem_of_cons; [by left|].
      right. by apply list_elem_of_further.
    + intros [->|Hin]%elem_of_cons; [right; apply list_elem_of_here|].
      destruct (IH Hin) as [?|?]; [by left|].
      right. by apply list_elem_of_further.
Qed.

Lemma mapGet_elem {V} (m : list (string * V)) k v :
  NoDup (map fst m) → (k, v) ∈ m → mapGet k m = Some v.
Proof.
  induction m as [|[k' v'] m IH]; simpl; [by intros _ ?%elem_of_nil|].
  intros [Hk' Hdup]%NoDup_cons [[= -> ->]|Hin]%elem_of_cons.
  - by rewrite String.eqb_refl.
  - destruct (String.eqb k' k) eqn:Hk; [|by apply IH].
    apply String.eqb_eq in Hk as ->. destruct Hk'.
    apply list_elem_of_fmap. by exists (k, v).
Qed.

Lemma mapGet_mapSet_is_Some {V} key (value : V) m k :
  is_Some (mapGet k m) → is_Some (mapGet k (mapSet key value m)).
Proof.
  destruct (decide (k = key)) as [->|Hne].
  - by rewrite mapGet_mapSet_same.
  - by rewrite mapGet_mapSet_other.
Qed.

(** A key that is an array index is a numeral: it begins with a digit. *)
Lemma arrayIndex_digit c key :
  JS.isDigit c = false → arrayIndex (String c key) = None.
Proof.
  intros Hc. unfold arrayIndex.
  destruct (String.eqb _ _) eqn:Heq; [|done].
  apply String.eqb_eq in Heq.
  destruct (pretty_N_numeral (Z.to_N (JS.digitsValue 0 (String c key))))
    as (Hdigits & _). rewrite Heq in Hdigits. simpl in Hdigits.
  by rewrite Hc in Hdigits.
Qed.

Lemma arrayIndex_notLedBy key :
  notLedBy JS.isDigit key = true → arrayIndex key = None.
Proof.
  destruct key as [|c key]; [done|]. simpl. intros Hc%negb_true_iff.
  by apply arrayIndex_digit.
Qed.

Lemma insertIndex_elem {V} index key (value : V) m k v :
  (k, v) ∈ insertIndex index key value m →
  (k, v) = (key, value) ∨ (k, v) ∈ m.
Proof.
  induction m as [|[k' v'] m IH]; simpl.
  - intros ->%list_elem_of_singleton. by left.
  - destruct (arrayIndex k') as [below|].
    + destruct (below <? index)%N.
      * intros [->|Hin]%elem_of_cons; [right; apply list_elem_of_here|].
        destruct (IH Hin) as [?|?]; [by left|].
        right. by apply list_elem_of_further.
      * intros [->|Hin]%elem_of_cons; [by left|by right].
    + intros [->|Hin]%elem_of_cons; [by left|by right].
Qed.

Lemma mapGet_insertIndex {V} index key (value : V) m k :
  mapGet key m = None →
  mapGet k (insertIndex index key value m) =
    if decide (k = key) then Some value else mapGet k m.
Proof.
  induction m as [|[k' v'] m IH]; simpl.
  - intros _. case_decide as Hk.
    + subst. by rewrite String.eqb_refl.
    + by rewrite (proj2 (String.eqb_neq key k)).
  - destruct (String.eqb k' key) eqn:Hk'; [done|]. intros Hm.
    apply String.eqb_neq in Hk'.
    assert (Hhere : mapGet k ((key, value) :: (k', v') :: m)
              = if decide (k = key) then Some value
                else if String.eqb k' k then Some v' else mapGet k m).
    { simpl. case_decide as Hk.
      - subst. by rewrite String.eqb_refl.
      - by rewrite (proj2 (String.eqb_neq key k)). }
    destruct (arrayIndex k') as [below|]; [|exact Hhere].
    destruct (below <? index)%N; [|exact Hhere].
    simpl. rewrite (IH Hm).
    destruct (String.eqb k' k) eqn:Hkk; [|done].
    apply String.eqb_eq in Hkk as ->. by rewrite decide_False.
Qed.

(** What [obj[key]] reads after an assignment. *)
Lemma mapGet_setField {V} key (value : V) m k :
  mapGet k (setField key value m) =
    if String.eqb key "__proto__" then mapGet k m
    else if decide (k = key) then Some value else mapGet k m.
Proof.
  unfold setField. destruct (String.eqb key "__proto__"); [done|].
  assert (Hset : mapGet k (mapSet key value m)
            = if decide (k = key) then Some value else mapGet k m).
  { case_decide as Hk.
    - subst. apply mapGet_mapSet_same.
    - by apply mapGet_mapSet_other. }
  destruct (mapGet key m) eqn:Hget; [exact Hset|].
  destruct (arrayIndex key); [|exact Hset].
  by apply mapGet_insertIndex.
Qed.

Lemma mapGet_setField_same {V} key (value : V) m :
  key ≠ "__proto__" → mapGet key (setField key value m) = Some value.
Proof.
  intros Hkey. rewrite mapGet_setField.
  rewrite (proj2 (String.eqb_neq key "__proto__") Hkey).
  by rewrite decide_True.
Qed.

Lemma mapGet_setField_other {V} key (value : V) m k :
  k ≠ key → mapGet k (setField key value m) = mapGet k m.
Proof.
  intros Hk. rewrite mapGet_setField.
  destruct (String.eqb key "__proto__"); [done|]. by rewrite decide_False.
Qed.

Lemma mapGet_setField_is_Some {V} key (value : V) m k :
  is_Some (mapGet k m) → is_Some (mapGet k (setField key value m)).
Proof.
  rewrite mapGet_setField. destruct (String.eqb key "__proto__"); [done|].
  case_decide; [by eexists|done].
Qed.

Lemma path_not_proto p : "/" +:+ p ≠ "__proto__".
Proof. by rewrite append_cons. Qed.

Section WithDisk.
Context (disk : fs.FileSystem).

Lemma addInterface_mapGet file typeMap n T :
  mapGet T (swagger.addInterface file typeMap n) =
    match mapGet T typeMap with
    | Some f => Some f
    | None => if decide (n = T) then Some file else None
    end.
Proof.
  unfold swagger.addInterface.
  destruct (mapGet n typeMap) as [f|] eqn:Hn.
  - destruct (mapGet T typeMap) eqn:HT; [done|].
    case_decide; [congruence|done].
  - case_decide as HnT.
    + subst T. by rewrite mapGet_mapSet_same, Hn.
    + rewrite mapGet_mapSet_other by done. by destruct (mapGet T typeMap).
Qed.

Lemma addInterface_NoDup file typeMap n :
  NoDup (map fst typeMap) →
  NoDup (map fst (swagger.addInterface file typeMap n)).
Proof.
  intros Hdup. unfold swagger.addInterface.
  destruct (mapGet n typeMap) as [f|] eqn:Hn; [done|].
  rewrite mapSet_keys. case_bool_decide as Hin; [done|].
  apply NoDup_app. split; [done|]. split; [|apply NoDup_singleton].
  by intros k Hk ->%list_elem_of_singleton.
Qed.

(** The list of entries agrees with the type map, and has one entry
    per name. *)
Lemma buildTypeList_spec directories :
  NoDup (map fst (buildTypeList disk directories))
  ∧ ∀ T, mapGet T (buildTypeList disk directories)
         = typeMapping.buildTypeMap disk directories !! T.
Proof.
  unfold buildTypeList, typeMapping.buildTypeMap.
  assert (Hinit : NoDup (map fst ([] : list (string * string)))
                  ∧ ∀ T, mapGet T ([] : list (string * string))
                         = (∅ : gmap string string) !! T).
  { split; [apply NoDup_nil_2|]. intros T. by rewrite lookup_empty. }
  revert Hinit.
  generalize ([] : list (string * string)) (∅ : gmap string string).
  induction directories as [|dir directories IHd]; intros l m Hlm; [done|].
  simpl. apply IHd. unfold typeMapping.addDirectory. clear IHd. revert l m Hlm.
  induction (typeMapping.findTypeScriptFiles disk dir) as [|file files IHf];
    intros l m Hlm; [done|].
  simpl. apply IHf. unfold typeMapping.addFile. clear IHf. revert l m Hlm.
  induction (typeMapping.extractInterfaceNames disk file) as [|n names IHn];
    intros l m [Hdup Hlm]; [done|].
  simpl. apply IHn. split; [by apply addInterface_NoDup|].
  intros T. rewrite addInterface_mapGet, addInterface_lookup, Hlm.
  destruct (m !! T); [done|]. by destruct (decide (n = T)).
Qed.

Lemma buildTypeList_elem directories T f :
  (T, f) ∈ buildTypeList disk directories ↔
  typeMapping.buildTypeMap disk directories !! T = Some f.
Proof.
  destruct (buildTypeList_spec directories) as [Hdup Hget].
  rewrite <- Hget. split; [by apply mapGet_elem|apply mapGet_Some].
Qed.

Lemma setField_elem {V} key (value : V) m k v :
  (k, v) ∈ setField key value m → (k, v) = (key, value) ∨ (k, v) ∈ m.
Proof.
  unfold setField. destruct (String.eqb key "__proto__"); [by right|].
  destruct (mapGet key m); [apply mapSet_elem|].
  destruct (arrayIndex key); [apply insertIndex_elem|apply mapSet_elem].
Qed.

Lemma matchProperty_name s propName optional propType after :
  matchProperty s = Some (propName, optional, propType, after) →
  JS.truthy propName = true ∧ allChars JS.isWord propName = true.
Proof.
  unfold matchProperty.
  pose proof (span_spec JS.isWord s) as (_ & Hword & _).
  destruct (JS.span JS.isWord s) as [name r1]. simpl in Hword.
  destruct (JS.truthy name) eqn:Ht; [|done].
  destruct (match r1 with
            | EmptyString => (false, r1)
            | String c r => if Ascii.eqb c "?" then (true, r) else (false, r1)
            end) as [opt r2].
  destruct r2 as [|c r3]; [done|]. destruct (Ascii.eqb c ":"); [|done].
  destruct (JS.span JS.isSpace r3) as [spaces r4].
  destruct (JS.span _ r4) as [type r5]. destruct r5 as [|? ?]; [done|].
  destruct (JS.truthy type); [by intros [= <- _ _ _]|].
  destruct (lastChar spaces); [by intros [= <- _ _ _]|done].
Qed.

Lemma execProperties_names s : ∀ skip,
  Forall (λ p, JS.truthy (fst (fst p)) = true
               ∧ allChars JS.isWord (fst (fst p)) = true)
    (execProperties skip s).
Proof.
  induction s as [|c s IH]; intros skip; simpl; [apply Forall_nil_2|].
  destruct skip as [|k]; [|apply IH].
  destruct (matchProperty (String c s)) as [[[[n o] ty] after]|] eqn:Hm;
    [|apply IH].
  apply Forall_cons. split; [|apply IH].
  by apply matchProperty_name in Hm.
Qed.

Lemma extractInterfaceProperties_elem file name k v :
  (k, v) ∈ extractInterfaceProperties disk file name →
  (JS.truthy k = true ∧ allChars JS.isWord k = true)
  ∧ k ≠ "__proto__" ∧ wellFormed v = true.
Proof.
  unfold extractInterfaceProperties.
  destruct (findBody name _) as [body|]; [|by intros ?%elem_of_nil].
  destruct (JS.truthy body); [|by intros ?%elem_of_nil].
  pose proof (execProperties_names body 0) as Hnames. revert Hnames.
  assert (Hinit : ∀ k v, (k, v) ∈ ([] : list (string * OpenAPISchema)) →
            (JS.truthy k = true ∧ allChars JS.isWord k = true)
            ∧ k ≠ "__proto__" ∧ wellFormed v = true)
    by by intros ? ? ?%elem_of_nil.
  revert Hinit. generalize ([] : list (string * OpenAPISchema)).
  induction (execProperties 0 body) as [|[[n o] ty] items IH];
    intros acc Hacc Hnames; simpl; [by apply Hacc|].
  apply Forall_cons in Hnames as [Hn Hnames]. simpl in Hn.
  apply IH; [|done]. intros k' v'.
  destruct (String.eqb n "__proto__") eqn:Hproto.
  { unfold setField. rewrite Hproto. by apply Hacc. }
  intros [[= -> ->]|Hin]%setField_elem; [|by apply Hacc].
  split; [done|]. split; [by apply String.eqb_neq|].
  apply wellFormed_convert.
Qed.

Lemma refsOf_fields fields :
  (∀ k v, (k, v) ∈ fields → k ≠ "$ref" ∧ refsOf v = []) →
  refsOf (JObj fields) = [].
Proof.
  simpl. induction fields as [|[k v] fields IH]; intros Hall; [done|].
  simpl. destruct (Hall k v (list_elem_of_here _ _)) as [Hk ->].
  rewrite (proj2 (String.eqb_neq k "$ref") Hk). simpl. apply IH.
  intros k' v' Hin. apply Hall. by apply list_elem_of_further.
Qed.

Lemma refsOf_schemaJson s : refsOf (schemaJson s) = [].
Proof.
  revert s. fix ind 1. intros [type [item|] format].
  - simpl. rewrite (ind item). by destruct format.
  - by destruct format.
Qed.

Lemma word_not_ref k : allChars JS.isWord k = true → k ≠ "$ref".
Proof. by intros Hk ->. Qed.

Lemma refsOf_schemaDefinition file name :
  refsOf (schemaDefinition disk file name) = [].
Proof.
  unfold schemaDefinition. apply refsOf_fields.
  intros k v [[= -> ->]|Hin]%elem_of_cons; [done|].
  apply list_elem_of_singleton in Hin as [= -> ->]. split; [done|].
  apply refsOf_fields. intros k v Hin.
  apply list_elem_of_fmap in Hin as ([k' s] & [= -> ->] & Hin).
  apply extractInterfaceProperties_elem in Hin as ([_ Hword] & _).
  split; [by apply word_not_ref|apply refsOf_schemaJson].
Qed.

Context `{PluralizeWord}.

Local Abbreviation listed l p item :=
  (∃ T f, (T, f) ∈ l
          ∧ ((p = interfaceNameToPath T ∧ item = arrayPathItem T)
             ∨ (p = singularPath T ∧ item = singularPathItem T))).

(** What the [forEach] loop has written after the entries [l]. *)
Lemma document_fold (l : list (string * string)) :
  NoDup (map fst l) →
  (∀ p item, (p, item) ∈ fst (foldl (document disk) ([], []) l) →
     listed l p item)
  ∧ (∀ T d, (T, d) ∈ snd (foldl (document disk) ([], []) l) →
       ∃ f, (T, f) ∈ l ∧ d = schemaDefinition disk f T)
  ∧ (∀ T f, (T, f) ∈ l →
       is_Some (mapGet (interfaceNameToPath T)
                  (fst (foldl (document disk) ([], []) l)))
       ∧ is_Some (mapGet (singularPath T)
                    (fst (foldl (document disk) ([], []) l)))
       ∧ (T ≠ "__proto__" →
          mapGet T (snd (foldl (document disk) ([], []) l))
            = Some (schemaDefinition disk f T))).
Proof.
  induction l as [|[T0 f0] l IH] using rev_ind; intros Hdup.
  { split; [by intros ? ? ?%elem_of_nil|].
    split; [by intros ? ? ?%elem_of_nil|]. by intros ? ? ?%elem_of_nil. }
  rewrite map_app in Hdup. apply NoDup_app in Hdup as (Hdup & Hnew & _).
  destruct (IH Hdup) as (Hpaths & Hschemas & Hfound). clear IH.
  rewrite foldl_app. simpl.
  destruct (foldl (document disk) ([], []) l) as [paths schemas].
  simpl in *. unfold interfaceNameToPath, singularPath in *.
  split; [|split].
  - intros p item [[= -> ->]|[[= -> ->]|Hin]%setField_elem]%setField_elem.
    + exists T0, f0. split; [apply elem_of_app; right; apply list_elem_of_here|].
      by right.
    + exists T0, f0. split; [apply elem_of_app; right; apply list_elem_of_here|].
      by left.
    + destruct (Hpaths p item Hin) as (T & f & Hl & Hcase).
      exists T, f. split; [apply elem_of_app; by left|done].
  - intros T d [[= -> ->]|Hin]%setField_elem.
    + exists f0. split; [apply elem_of_app; right; apply list_elem_of_here|done].
    + destruct (Hschemas T d Hin) as (f & Hl & ->).
      exists f. split; [apply elem_of_app; by left|done].
  - intros T f [Hl|[= -> ->]%list_elem_of_singleton]%elem_of_app.
    + destruct (Hfound T f Hl) as (Harray & Hsingle & Hschema).
      split; [by apply mapGet_setField_is_Some, mapGet_setField_is_Some|].
      split; [by apply mapGet_setField_is_Some, mapGet_setField_is_Some|].
      intros Hproto. rewrite mapGet_setField_other; [by apply Hschema|].
      intros ->. apply (Hnew T0); [|apply list_elem_of_here].
      apply list_elem_of_fmap. by exists (T0, f).
    + split.
      { apply mapGet_setField_is_Some.
        rewrite mapGet_setField_same by apply path_not_proto. by eexists. }
      split.
      { rewrite mapGet_setField_same by apply path_not_proto. by eexists. }
      intros Hproto. by apply mapGet_setField_same.
Qed.

Lemma refsOf_generateOpenAPISpec config :
  refsOf (generateOpenAPISpec disk config)
  = refsOf (JObj (fst (documented disk config)))
      ++ refsOf (JObj (snd (documented disk config))).
Proof.
  unfold generateOpenAPISpec.
  destruct (documented disk config) as [paths schemas].
  cbn [fst snd]. simpl. by rewrite !app_nil_r.
Qed.

(** X21.  The document [generateOpenAPISpec] builds.  "/health" is
    documented as the health check, whatever the interfaces are called.
    Every interface of the type map has its list path and its single-item
    path documented and, unless it is called "__proto__", its schema under
    its name, an object with the properties read from its file; every
    schema is that of an interface of the type map.  Every "$ref" of the
    document names an interface of the type map, whose schema is in the
    document unless the interface is called "__proto__". *)
Theorem generateOpenAPISpec_references (config : ServerConfig) :
  let paths := fst (documented disk config) in
  let schemas := snd (documented disk config) in
  let typeMap := typeMapping.buildTypeMap disk (allDirs config) in
  mapGet "/health" paths = Some healthPath
  ∧ (∀ T f, typeMap !! T = Some f →
       is_Some (mapGet (interfaceNameToPath T) paths)
       ∧ is_Some (mapGet (singularPath T) paths)
       ∧ (T ≠ "__proto__" →
          mapGet T schemas = Some (schemaDefinition disk f T)))
  ∧ (∀ T d, (T, d) ∈ schemas →
       ∃ f, typeMap !! T = Some f ∧ d = schemaDefinition disk f T)
  ∧ (∀ target, target ∈ refsOf (generateOpenAPISpec disk config) →
       ∃ T, target = "#/components/schemas/" +:+ T
            ∧ is_Some (typeMap !! T)
            ∧ (T ≠ "__proto__" → is_Some (mapGet T schemas))).
Proof.
  intros paths schemas typeMap.
  destruct (buildTypeList_spec (allDirs config)) as [Hdup _].
  destruct (document_fold _ Hdup) as (Hpaths & Hschemas & Hfound).
  assert (Hdoc : documented disk config
            = (setField "/health" healthPath
                 (fst (foldl (document disk) ([], [])
                         (buildTypeList disk (allDirs config)))),
               snd (foldl (document disk) ([], [])
                      (buildTypeList disk (allDirs config))))).
  { unfold documented. by destruct (foldl _ _ _). }
  subst paths schemas typeMap. rewrite refsOf_generateOpenAPISpec, Hdoc.
  cbn [fst snd].
  split; [by apply mapGet_setField_same|]. split; [|split].
  - intros T f HT%buildTypeList_elem.
    destruct (Hfound T f HT) as (Harray & Hsingle & Hschema).
    split; [by apply mapGet_setField_is_Some|].
    split; [by apply mapGet_setField_is_Some|done].
  - intros T d (f & Hl%buildTypeList_elem & ->)%Hschemas. by exists f.
  - intros target [Hin|Hin]%elem_of_app.
    + simpl in Hin. apply list_elem_of_In, in_flat_map in Hin
        as ([p item] & Hfield%list_elem_of_In & Htarget%list_elem_of_In).
      apply setField_elem in Hfield as [[= -> ->]|Hfield];
        [by apply elem_of_nil in Htarget|].
      destruct (Hpaths p item Hfield) as (T & f & Hl & Hcase).
      assert (Href : target = "#/components/schemas/" +:+ T).
      { destruct Hcase as [[-> ->]|[-> ->]]; simpl in Htarget;
          rewrite ?app_nil_r in Htarget;
          by apply list_elem_of_singleton in Htarget. }
      exists T. split; [done|].
      destruct (Hfound T f Hl) as (_ & _ & Hschema).
      apply buildTypeList_elem in Hl. split; [by exists f|].
      intros Hproto. rewrite (Hschema Hproto). by eexists.
    + rewrite refsOf_fields in Hin; [by apply elem_of_nil in Hin|].
      intros T d (f & Hl & ->)%Hschemas.
      apply buildTypeList_elem, buildTypeMap_Some in Hl as ([_ Hword] & _).
      split; [by apply word_not_ref|apply refsOf_schemaDefinition].
Qed.

End WithDisk.
End Document.

(** ** core/swagger.ts: the properties of an interface *)

Section Properties.
Import text swagger.

Local Arguments JS.stripPrefix : simpl never.
Local Arguments JS.span : simpl never.

Lemma execProperties_skip a b :
  execProperties (String.length a) (a +:+ b) = execProperties 0 b.
Proof.
  induction a as [|c a IH]; rewrite ?append_empty_l, ?append_cons; [done|].
  exact IH.
Qed.

Lemma span_none f s : notLedBy f s = true → JS.span f s = (EmptyString, s).
Proof.
  destruct s as [|c s]; [done|]. unfold JS.span. simpl.
  by intros ->%negb_true_iff.
Qed.

Lemma notLedBy_append f a b :
  JS.truthy a = true → notLedBy f a = true → notLedBy f (a +:+ b) = true.
Proof. by destruct a. Qed.

Lemma execProperties_filler pad s :
  filler pad = true →
  execProperties 0 (pad +:+ s) = execProperties 0 s.
Proof.
  unfold filler.
  induction pad as [|c pad IH]; rewrite ?append_empty_l, ?append_cons;
    [done|].
  simpl. intros [[Hc _]%andb_true_iff Hpad]%andb_true_iff.
  unfold matchProperty. rewrite span_none by (by simpl; rewrite Hc).
  simpl. by apply IH.
Qed.

Lemma execProperties_tail tail :
  filler tail = true → execProperties 0 tail = [].
Proof.
  intros Htail. rewrite <- (append_empty_r tail).
  by rewrite execProperties_filler.
Qed.

Lemma matchProperty_declaration d rest :
  wellWritten d = true →
  matchProperty
    (declName d +:+ (if declOptional d then "?" else EmptyString)
       +:+ ":" +:+ declGap d +:+ declType d +:+ ";" +:+ rest)
  = Some (declName d, declOptional d, declType d, rest).
Proof.
  unfold wellWritten. rewrite !andb_true_iff.
  intros [[[_ [Hn Hword]] Hgap] [[Ht Hled] Htype]].
  unfold matchProperty.
  rewrite (span_append JS.isWord (declName d)) by (done || by destruct (declOptional d)).
  rewrite Hn.
  assert ((match (if declOptional d then "?" else EmptyString) +:+ ":"
                   +:+ declGap d +:+ declType d +:+ ";" +:+ rest with
           | EmptyString => (false, EmptyString)
           | String c r =>
               if Ascii.eqb c "?" then (true, r)
               else (false,
                     (if declOptional d then "?" else EmptyString) +:+ ":"
                       +:+ declGap d +:+ declType d +:+ ";" +:+ rest)
           end)
          = (declOptional d,
             ":" +:+ declGap d +:+ declType d +:+ ";" +:+ rest)) as Hopt
    by by destruct (declOptional d).
  destruct ((if declOptional d then "?" else EmptyString) +:+ ":"
              +:+ declGap d +:+ declType d +:+ ";" +:+ rest) as [|c r] eqn:Hr.
  { by destruct (declOptional d). }
  rewrite Hopt. rewrite append_cons, append_empty_l. simpl Ascii.eqb. cbv iota.
  rewrite (span_append JS.isSpace (declGap d)) by
    (done || by apply notLedBy_append).
  rewrite (span_append (λ x, negb (Ascii.eqb x ";")) (declType d)).
  - rewrite append_cons, append_empty_l. by rewrite Ht.
  - apply (allChars_impl inType); [|done].
    unfold inType. by intros x [? _]%andb_true_iff.
  - done.
Qed.

Lemma execProperties_declaration d rest :
  wellWritten d = true →
  execProperties 0 (declarationText d +:+ rest)
  = (declName d, declOptional d, declType d) :: execProperties 0 rest.
Proof.
  intros Hd. pose proof (matchProperty_declaration d rest Hd) as Hm.
  unfold declarationText. rewrite !append_associative.
  unfold wellWritten in Hd. rewrite !andb_true_iff in Hd.
  destruct Hd as [[[Hlead [Hn _]] _] _].
  rewrite (execProperties_filler _ _ Hlead).
  destruct (declName d) as [|c n] eqn:Hname; [done|].
  rewrite append_cons in *. simpl. rewrite Hm. f_equal.
  set (m := n +:+ (if declOptional d then "?" else "") +:+ ":"
              +:+ declGap d +:+ declType d +:+ ";").
  assert (Hsplit : n +:+ (if declOptional d then "?" else "") +:+ ":"
                     +:+ declGap d +:+ declType d +:+ ";" +:+ rest
                   = m +:+ rest).
  { unfold m. by rewrite !append_associative. }
  rewrite Hsplit, length_append.
  replace (String.length m + String.length rest - String.length rest)%nat
    with (String.length m) by lia.
  apply execProperties_skip.
Qed.

Lemma execProperties_body declarations tail :
  forallb wellWritten declarations = true → filler tail = true →
  execProperties 0 (bodyText declarations tail)
  = map (λ d, (declName d, declOptional d, declType d)) declarations.
Proof.
  intros Hds Htail. induction declarations as [|d ds IH]; simpl.
  - by apply execProperties_tail.
  - simpl in Hds. apply andb_true_iff in Hds as [Hd Hds].
    by rewrite (execProperties_declaration d _ Hd), IH.
Qed.

Lemma stripPrefix_cons a p b s :
  JS.stripPrefix (String a p) (String b s)
  = if Ascii.eqb a b then JS.stripPrefix p s else None.
Proof. reflexivity. Qed.

Lemma stripPrefix_append p s : JS.stripPrefix p (p +:+ s) = Some s.
Proof.
  induction p as [|c p IH]; rewrite ?append_empty_l, ?append_cons; [done|].
  by rewrite stripPrefix_cons, Ascii.eqb_refl.
Qed.

(** No match of "export" begins in a text that does not include the
    word, whatever follows the text. *)
Lemma stripPrefix_export b x :
  JS.truthy b = true → includes "export" b = false →
  JS.stripPrefix "export" (b +:+ "export" +:+ x) = None.
Proof.
  intros Hb Hin. destruct b as [|c1 b]; [done|]. clear Hb.
  rewrite includes_cons in Hin. apply orb_false_iff in Hin as [Hstart _].
  unfold startsWith in Hstart. rewrite stripPrefix_cons in Hstart.
  rewrite append_cons, stripPrefix_cons.
  destruct (Ascii.eqb "e" c1); [|done].
  destruct b as [|c2 b]; [by vm_compute|].
  rewrite stripPrefix_cons in Hstart. rewrite append_cons, stripPrefix_cons.
  destruct (Ascii.eqb "x" c2); [|done].
  destruct b as [|c3 b]; [by vm_compute|].
  rewrite stripPrefix_cons in Hstart. rewrite append_cons, stripPrefix_cons.
  destruct (Ascii.eqb "p" c3); [|done].
  destruct b as [|c4 b]; [by vm_compute|].
  rewrite stripPrefix_cons in Hstart. rewrite append_cons, stripPrefix_cons.
  destruct (Ascii.eqb "o" c4); [|done].
  destruct b as [|c5 b]; [by vm_compute|].
  rewrite stripPrefix_cons in Hstart. rewrite append_cons, stripPrefix_cons.
  destruct (Ascii.eqb "r" c5); [|done].
  destruct b as [|c6 b]; [by vm_compute|].
  rewrite stripPrefix_cons in Hstart. rewrite append_cons, stripPrefix_cons.
  destruct (Ascii.eqb "t" c6); [|done].
  by destruct b.
Qed.

Lemma findBody_leftmost T pre x body :
  includes "export" pre = false →
  matchBody T ("export" +:+ x) = Some body →
  findBody T (pre +:+ "export" +:+ x) = Some body.
Proof.
  intros Hpre Hm. induction pre as [|c pre IH].
  - rewrite append_empty_l. rewrite append_cons in *. simpl. by rewrite Hm.
  - pose proof (stripPrefix_export (String c pre) x eq_refl Hpre) as Hnone.
    rewrite includes_cons in Hpre. apply orb_false_iff in Hpre as [_ Hpre].
    rewrite append_cons in *. simpl. unfold matchBody at 1. rewrite Hnone.
    simpl. by apply IH.
Qed.

Lemma word_not_space c : JS.isWord c = true → JS.isSpace c = false.
Proof. by destruct c as [[] [] [] [] [] [] [] []]. Qed.

Lemma matchBody_here T body rest :
  JS.truthy T = true → allChars JS.isWord T = true →
  allChars (λ x, negb (Ascii.eqb x "}")) body = true →
  matchBody T ("export" +:+ " interface " +:+ T +:+ " {" +:+ body
                 +:+ "}" +:+ rest)
  = Some body.
Proof.
  intros HT Hword Hbody. unfold matchBody.
  rewrite stripPrefix_append. simpl mbind.
  assert (Hled : notLedBy JS.isSpace
                   (T +:+ " {" +:+ body +:+ "}" +:+ rest) = true).
  { destruct T as [|c T]; [done|]. rewrite append_cons. simpl in *.
    apply andb_true_iff in Hword as [Hc _]. by rewrite (word_not_space c Hc). }
  rewrite (span_append JS.isSpace " "
             (T +:+ " {" +:+ body +:+ "}" +:+ rest) eq_refl Hled).
  cbn [JS.truthy]. rewrite stripPrefix_append. simpl mbind.
  rewrite append_empty_l.
  rewrite (span_append _ body ("}" +:+ rest) Hbody eq_refl).
  by rewrite startsWith_append.
Qed.

Lemma removeSpaces_trim s : removeSpaces (trim s) = removeSpaces s.
Proof.
  unfold trim.
  assert (Hend : ∀ r, removeSpaces (trimEnd r) = removeSpaces r).
  { induction r as [|c r IH]; simpl; [done|].
    destruct (JS.isSpace c) eqn:Hc; simpl.
    - destruct (trimEnd r) as [|x r'] eqn:Hr; simpl in *; [done|].
      by rewrite Hc.
    - by rewrite Hc, IH. }
  rewrite Hend. induction s as [|c s IH]; [done|].
  unfold JS.span. fold JS.span. simpl.
  destruct (JS.isSpace c) eqn:Hc.
  - destruct (JS.span JS.isSpace s) as [a b]. simpl in *. exact IH.
  - simpl. by rewrite Hc.
Qed.

Lemma typeToOpenAPISchema_trim s :
  typeToOpenAPISchema (trim s) = typeToOpenAPISchema s.
Proof.
  rewrite <- (typeToOpenAPISchema_removeSpaces (trim s)), removeSpaces_trim.
  apply typeToOpenAPISchema_removeSpaces.
Qed.

Lemma bodyText_braceless declarations tail :
  forallb wellWritten declarations = true → filler tail = true →
  allChars (λ x, negb (Ascii.eqb x "}")) (bodyText declarations tail) = true.
Proof.
  intros Hds Htail.
  assert (Hfiller : ∀ s, filler s = true →
            allChars (λ x, negb (Ascii.eqb x "}")) s = true).
  { intros s. apply allChars_impl. by intros x [_ ?]%andb_true_iff. }
  induction declarations as [|d ds IH]; simpl; [by apply Hfiller|].
  simpl in Hds. apply andb_true_iff in Hds as [Hd Hds].
  unfold wellWritten in Hd. rewrite !andb_true_iff in Hd.
  destruct Hd as [[[Hlead [_ Hword]] Hgap] [_ Htype]].
  unfold declarationText. rewrite !allChars_append, (IH Hds).
  rewrite (Hfiller _ Hlead).
  rewrite (allChars_impl JS.isWord _ (declName d)); [|clear|done].
  2:{ intros c. by destruct c as [[] [] [] [] [] [] [] []]. }
  rewrite (allChars_impl JS.isSpace _ (declGap d)); [|clear|done].
  2:{ intros c. by destruct c as [[] [] [] [] [] [] [] []]. }
  rewrite (allChars_impl inType _ (declType d)); [|clear|done].
  2:{ unfold inType. by intros c [_ ?]%andb_true_iff. }
  by destruct (declOptional d).
Qed.

(** Assignments to keys the object does not have yet, none of them an
    array index or "__proto__", add the properties at the end, in the
    order of the assignments. *)
Lemma foldl_setField_distinct {V} (g : Declaration → V) declarations :
  ∀ properties,
  NoDup (map fst properties ++ map declName declarations) →
  Forall (λ d, notLedBy JS.isDigit (declName d) = true
               ∧ declName d ≠ "__proto__") declarations →
  foldl (λ properties d, setField (declName d) (g d) properties)
    properties declarations
  = properties ++ map (λ d, (declName d, g d)) declarations.
Proof.
  induction declarations as [|d ds IH]; intros properties Hdup Hnames;
    simpl; [by rewrite app_nil_r|].
  apply Forall_cons in Hnames as [[Hdigit Hproto] Hnames].
  assert (Hnew : cache.mapGet (declName d) properties = None).
  { apply mapGet_absent. intros Hin.
    apply NoDup_app in Hdup as (_ & Hdup & _).
    apply (Hdup _ Hin), list_elem_of_here. }
  assert (Hset : setField (declName d) (g d) properties
            = properties ++ [(declName d, g d)]).
  { unfold setField.
    rewrite (proj2 (String.eqb_neq _ _) Hproto), Hnew.
    rewrite (arrayIndex_notLedBy _ Hdigit). by apply mapSet_absent. }
  rewrite Hset, IH; [by rewrite <- app_assoc| |done].
  rewrite map_app. simpl. by rewrite <- app_assoc.
Qed.

(** X22.  The properties [extractInterfaceProperties] reads.  The file
    holds, after a text without the word "export", the declaration of the
    interface with a body of well-written declarations (a name, an
    optional question mark, a colon, a type without semicolon and brace,
    a semicolon), separated by text without letters, digits, underscores
    and braces.  Then the properties are what assigning the declarations
    to an empty object, one after the other, gives: each name with the
    schema [typeToOpenAPISchema] gives its type; a name declared twice
    keeps its place and takes the later type, and the optional mark
    changes nothing.  When the names are distinct identifiers (no name
    begins with a digit, none is "__proto__"), the properties are listed
    in the order of the declarations; a name that is a numeral is listed
    before the identifiers, as JavaScript orders the keys of an object. *)
Theorem extractInterfaceProperties_declarations (disk : fs.FileSystem)
    (file T pre tail rest : string) (declarations : list Declaration) :
  fs.readFileSync disk file
    = pre +:+ "export interface " +:+ T +:+ " {"
        +:+ bodyText declarations tail +:+ "}" +:+ rest →
  includes "export" pre = false →
  JS.truthy T = true → allChars JS.isWord T = true →
  forallb wellWritten declarations = true → filler tail = true →
  extractInterfaceProperties disk file T
  = foldl (λ properties d,
             setField (declName d) (typeToOpenAPISchema (declType d))
               properties)
      [] declarations
  ∧ (NoDup (map declName declarations) →
     Forall (λ d, notLedBy JS.isDigit (declName d) = true
                  ∧ declName d ≠ "__proto__") declarations →
     extractInterfaceProperties disk file T
     = map (λ d, (declName d, typeToOpenAPISchema (declType d)))
         declarations).
Proof.
  intros Hfile Hpre HT Hword Hds Htail.
  assert (Hfold : extractInterfaceProperties disk file T
            = foldl (λ properties d,
                       setField (declName d)
                         (typeToOpenAPISchema (declType d)) properties)
                [] declarations).
  { unfold extractInterfaceProperties. rewrite Hfile.
    change ("export interface " +:+ T +:+ " {"
              +:+ bodyText declarations tail +:+ "}" +:+ rest)
      with ("export" +:+ " interface " +:+ T +:+ " {"
              +:+ bodyText declarations tail +:+ "}" +:+ rest).
    rewrite (findBody_leftmost T pre _ (bodyText declarations tail) Hpre)
      by (apply matchBody_here; [done|done|by apply bodyText_braceless]).
    rewrite (execProperties_body _ _ Hds Htail).
    destruct (JS.truthy (bodyText declarations tail)) eqn:Hbody.
    - generalize ([] : list (string * OpenAPISchema)).
      clear. induction declarations as [|d ds IH]; intros acc; simpl; [done|].
      by rewrite typeToOpenAPISchema_trim, IH.
    - destruct declarations as [|d ds]; [done|]. exfalso.
      simpl in Hds. apply andb_true_iff in Hds as [Hd _].
      unfold wellWritten in Hd. rewrite !andb_true_iff in Hd.
      destruct Hd as [[[_ [Hn _]] _] _].
      simpl in Hbody. unfold declarationText in Hbody.
      destruct (declLead d); destruct (declName d); try done. }
  split; [done|]. intros Hdup Hnames. rewrite Hfold.
  by rewrite (foldl_setField_distinct
                (λ d, typeToOpenAPISchema (declType d)) declarations []).
Qed.

Lemma extractInterfaceProperties_declarations_witness :
  extractInterfaceProperties orderDisk "/contracts/order.ts" "Order"
  = [("id", Schema "number" None None);
     ("tags", Schema "array" (Some (Schema "string" None None)) None)].
Proof.
  exact (proj1 (extractInterfaceProperties_declarations orderDisk
                  "/contracts/order.ts" "Order" "// orders
" " " EmptyString
                  [{| declLead := " "; declName := "id";
                      declOptional := false; declGap := " ";
                      declType := "number" |};
                   {| declLead := " "; declName := "tags";
                      declOptional := true; declGap := " ";
                      declType := "string[]" |}]
                  eq_refl eq_refl eq_refl eq_refl eq_refl eq_refl)).
Defined.

(** Names that are numerals come first, in ascending order. *)
Example numeral_names_first :
  extractInterfaceProperties
    {| fs.readdirSync _ := None;
       fs.readFileSync _ :=
         "export interface Mixed { b: string; 2: number; a: boolean; 1: Date; }" |}
    "/contracts/mixed.ts" "Mixed"
  = [("1", Schema "string" None (Some "date-time"));
     ("2", Schema "number" None None);
     ("b", Schema "string" None None);
     ("a", Schema "boolean" None None)].
Proof. reflexivity. Qed.

End Properties.

(** ** utils/typeMapping.ts: the names of a file of exported interfaces *)

Section ExportedInterfaces.
Import text typeMapping.

Local Arguments JS.stripPrefix : simpl never.
Local Arguments JS.span : simpl never.

Lemma execAll_skip a b :
  execAll (String.length a) (a +:+ b) = execAll 0 b.
Proof.
  induction a as [|c a IH]; rewrite ?append_empty_l, ?append_cons; [done|].
  exact IH.
Qed.

Lemma matchInterface_unexported s :
  JS.stripPrefix "export" s = None → matchInterface s = None.
Proof. unfold matchInterface. by intros ->. Qed.

(** No name is found in a text without the word "export". *)
Lemma execAll_none seg :
  includes "export" seg = false → execAll 0 seg = [].
Proof.
  induction seg as [|c seg IH]; [done|].
  rewrite includes_cons. intros [Hstart Hseg]%orb_false_iff. simpl.
  rewrite matchInterface_unexported; [by apply IH|].
  unfold startsWith in Hstart.
  by destruct (JS.stripPrefix "export" (String c seg)).
Qed.

(** Nor before the next "export" that follows such a text. *)
Lemma execAll_before seg x :
  includes "export" seg = false →
  execAll 0 (seg +:+ "export" +:+ x) = execAll 0 ("export" +:+ x).
Proof.
  induction seg as [|c seg IH]; intros Hseg; [done|].
  pose proof (stripPrefix_export (String c seg) x eq_refl Hseg) as Hnone.
  rewrite includes_cons in Hseg. apply orb_false_iff in Hseg as [_ Hseg].
  rewrite append_cons in *. simpl.
  rewrite (matchInterface_unexported _ Hnone). by apply IH.
Qed.

Lemma matchInterface_here d rest :
  plainExport d = true →
  matchInterface (exportedText d +:+ rest)
  = Some (exportedName d, afterName d +:+ rest).
Proof.
  unfold plainExport. rewrite !andb_true_iff.
  intros [[[[T1 A1] [T2 A2]] [Tn An]] [[Ta La] _]].
  unfold exportedText, matchInterface. rewrite !append_associative.
  rewrite stripPrefix_append. simpl mbind.
  rewrite (span_append JS.isSpace (afterExport d)
             ("interface" +:+ afterInterface d +:+ exportedName d
                +:+ afterName d +:+ rest) A1 eq_refl).
  rewrite T1, stripPrefix_append. simpl mbind.
  assert (Hled : notLedBy JS.isSpace
                   (exportedName d +:+ afterName d +:+ rest) = true).
  { destruct (exportedName d) as [|c n]; [done|]. rewrite append_cons.
    simpl in *. apply andb_true_iff in An as [Hc _].
    by rewrite (word_not_space c Hc). }
  rewrite (span_append JS.isSpace (afterInterface d) _ A2 Hled), T2.
  rewrite (span_append JS.isWord (exportedName d) (afterName d +:+ rest) An)
    by by apply notLedBy_append.
  by rewrite Tn.
Qed.

Lemma execAll_exported d rest :
  plainExport d = true →
  execAll 0 (exportedText d +:+ rest)
  = exportedName d :: execAll 0 (afterName d +:+ rest).
Proof.
  intros Hd. pose proof (matchInterface_here d rest Hd) as Hm.
  set (m := "xport" +:+ afterExport d +:+ "interface" +:+ afterInterface d
              +:+ exportedName d).
  assert (Hsplit : exportedText d +:+ rest
                   = String "e" (m +:+ afterName d +:+ rest)).
  { unfold exportedText, m. by rewrite !append_associative. }
  clearbody m. rewrite Hsplit in *. simpl. rewrite Hm. f_equal.
  rewrite length_append.
  replace (String.length m + String.length (afterName d +:+ rest)
           - String.length (afterName d +:+ rest))%nat
    with (String.length m) by lia.
  apply execAll_skip.
Qed.

Lemma execAll_exports declarations :
  forallb plainExport declarations = true →
  execAll 0 (exportsText declarations) = map exportedName declarations.
Proof.
  induction declarations as [|d ds IH]; [done|].
  cbn [exportsText forallb map].
  intros [Hd Hds]%andb_true_iff.
  rewrite (execAll_exported d _ Hd). f_equal. rewrite <- (IH Hds).
  assert (Hafter : includes "export" (afterName d) = false).
  { unfold plainExport in Hd. rewrite !andb_true_iff in Hd.
    destruct Hd as [_ [_ Hd]]. by apply negb_true_iff in Hd. }
  destruct ds as [|d' ds'].
  - cbn [exportsText]. rewrite append_empty_r. by apply execAll_none.
  - cbn [exportsText]. unfold exportedText at 1 2.
    rewrite !append_associative. by apply execAll_before.
Qed.

(** X25.  The names of a file of exported interfaces.  In a file whose
    only occurrences of the word "export" are those of declarations
    "export interface Name", each written with white space between the
    words and followed by a character that cannot belong to the name,
    [extractInterfaceNames] finds the names of all the declarations, in
    the order of the file, and nothing else. *)
Theorem extractInterfaceNames_exports (disk : fs.FileSystem)
    (file head : string) (declarations : list Exported) :
  fs.readFileSync disk file = head +:+ exportsText declarations →
  includes "export" head = false →
  forallb plainExport declarations = true →
  extractInterfaceNames disk file = map exportedName declarations.
Proof.
  intros Hfile Hhead Hds. unfold extractInterfaceNames. rewrite Hfile.
  assert (Hexec : execAll 0 (head +:+ exportsText declarations)
                  = map exportedName declarations).
  { rewrite <- (execAll_exports _ Hds). destruct declarations as [|d ds].
    - cbn [exportsText]. rewrite append_empty_r. by apply execAll_none.
    - cbn [exportsText]. unfold exportedText. rewrite !append_associative.
      by apply execAll_before. }
  rewrite Hexec. clear Hexec Hfile.
  induction declarations as [|d ds IH]; [done|]. simpl in *.
  apply andb_true_iff in Hds as [Hd Hds].
  unfold plainExport in Hd. rewrite !andb_true_iff in Hd.
  destruct Hd as [[[_ _] [Tn _]] _].
  rewrite filter_cons_True by done. by rewrite (IH Hds).
Qed.

Lemma extractInterfaceNames_exports_witness :
  extractInterfaceNames sample.disk "/contracts/user.ts"
  = ["User"; "UserProfile"].
Proof.
  exact (extractInterfaceNames_exports sample.disk "/contracts/user.ts"
           EmptyString
           [{| afterExport := " "; afterInterface := " ";
               exportedName := "User";
               afterName := " { id: number; }
" |};
            {| afterExport := " "; afterInterface := " ";
               exportedName := "UserProfile";
               afterName := " { userId: number; }" |}]
           eq_refl eq_refl eq_refl).
Defined.

End ExportedInterfaces.

(** ** utils/fileWatcher.ts *)

Section WatcherTs.
Import fileWatcher.
Context {G : Type}.

Local Abbreviation step := (@onEvent G (Some server.onReload)).
Local Abbreviation others file c :=
  (filter (λ e, negb (ofFile file e) = true) (cache.cache c)).

Lemma invalidate_consistent (w w' : World G) (path : string) :
  NoDup (map fst (cache.cache (schemaCache w))) →
  schemaCache w' = schemaCache w → generator w' = generator w →
  invalidate path w' =
    {| schemaCache :=
         {| cache.cache := others path (schemaCache w);
            cache.enabled := cache.enabled (schemaCache w) |};
       generator := generator w;
       trace := trace w' ++ invalidatedLine (schemaCache w) path |}.
Proof.
  intros Hdup Hc Hg. unfold invalidate. rewrite Hc, Hg.
  by rewrite (invalidateFile_cache _ path Hdup).
Qed.

(** X8.  The watcher [startServer] installs, on the cache as core/cache.ts
    has it.  A change of a file prints "File changed", then the line of
    [invalidateFile] when the cache held entries of the file, then
    "Contract updated"; a removal prints "File deleted" and that line.
    Both leave in the cache exactly the entries of the other files.  A new
    file prints "New file detected" and "Contract updated"; it, a watcher
    error and the ready event leave the cache as it is.  The cache stays
    consistent through every event. *)
Theorem watcher_on_source_cache (w : World G) (path message : string) :
  cacheConsistent (schemaCache w) →
  (trace (step (Change path) w)
     = trace w
         ++ [Logged Info ("File changed: " +:+ fs.basename path)]
         ++ invalidatedLine (schemaCache w) path
         ++ [Logged Info ("Contract updated: " +:+ path)]
   ∧ cache.cache (schemaCache (step (Change path) w))
       = others path (schemaCache w))
  ∧ (trace (step (Unlink path) w)
       = trace w
           ++ [Logged Warn ("File deleted: " +:+ fs.basename path)]
           ++ invalidatedLine (schemaCache w) path
     ∧ cache.cache (schemaCache (step (Unlink path) w))
         = others path (schemaCache w))
  ∧ (trace (step (Add path) w)
       = trace w
           ++ [Logged Success ("New file detected: " +:+ fs.basename path);
               Logged Info ("Contract updated: " +:+ path)]
     ∧ schemaCache (step (Add path) w) = schemaCache w)
  ∧ schemaCache (step (Failure message) w) = schemaCache w
  ∧ schemaCache (step Ready w) = schemaCache w
  ∧ (∀ ev, cacheConsistent (schemaCache (step ev w))).
Proof.
  intros Hc. pose proof Hc as (Hdup & Hkeys & Hoff).
  split; [|split; [|split; [|split; [|split]]]].
  - simpl. unfold callReload, server.onReload.
    rewrite (invalidate_consistent w _ path Hdup) by done. simpl.
    by rewrite <- !app_assoc.
  - simpl. rewrite (invalidate_consistent w _ path Hdup) by done. simpl.
    by rewrite <- !app_assoc.
  - simpl. by rewrite <- !app_assoc.
  - done.
  - done.
  - intros [p|p|p|m|]; simpl; try done.
    + unfold callReload, server.onReload, invalidate. simpl.
      pose proof (invalidateFile_consistent (schemaCache w) p Hc) as Hp.
      by destruct (cache.invalidateFile (schemaCache w) p).
    + unfold invalidate. simpl.
      pose proof (invalidateFile_consistent (schemaCache w) p Hc) as Hp.
      by destruct (cache.invalidateFile (schemaCache w) p).
Qed.

End WatcherTs.

Lemma watcher_on_source_cache_witness :
  trace (fileWatcher.onEvent (Some server.onReload)
           (fileWatcher.Change "/contracts/user.ts")
           {| schemaCache := twoFiles; generator := O; trace := [] |})
  = [Logged Info "File changed: user.ts";
     Logged Info "Cache invalidated: 1 schema(s) from /contracts/user.ts";
     Logged Info "Contract updated: /contracts/user.ts"].
Proof.
  refine (proj1 (proj1 (@watcher_on_source_cache nat
                          {| schemaCache := twoFiles; generator := O;
                             trace := [] |}
                          "/contracts/user.ts" EmptyString _))).
  apply cacheConsistent_set, cacheConsistent_set, cacheConsistent_create.
Defined.

(** ** core/router.ts against the handler on the specification's cache *)

Section HandlerOnSourceCache.
Import typeMapping router.
Context `{Pluralize} {G : Type} `{MockGenerator G}.
Context (config : ServerConfig) (disk : fs.FileSystem).

Lemma word_colonFree s : allChars JS.isWord s = true → colonFree s = true.
Proof.
  induction s as [|c s IH]; simpl; [done|].
  intros [Hc Hs]%andb_true_iff. rewrite (IH Hs), andb_true_r.
  revert Hc. clear. by destruct c as [[] [] [] [] [] [] [] []].
Qed.

Lemma findTypeForUrl_word url directories mapping :
  findTypeForUrl disk url directories = Some mapping →
  allChars JS.isWord (typeName mapping) = true.
Proof.
  unfold findTypeForUrl.
  destruct (buildTypeMap disk directories !! _) as [path|] eqn:Hpath;
    [|done].
  apply buildTypeMap_Some in Hpath as ([_ Hword] & _).
  destruct (JS.truthy path); [|done]. by intros [= <-].
Qed.

(** X23.  The handler on the cache of the sources is simulated by the
    handler on the cache of the specification: from a consistent cache
    whose names hold no colon, both send the same reply and end in
    corresponding states (the caches by the abstraction, the same
    generator state and trace), and the cache the handler leaves is again
    consistent, with names without a colon: the names it stores are those
    of the type map. *)
Theorem handler_on_source_cache (now : Z) (req : Request)
    (res : ResponseObject) (w : World G) :
  cacheConsistent (schemaCache w) →
  colonFreeNames (schemaCache w) →
  specRouter.dynamicRouteHandler config disk now req res (abstractWorld w)
    = (fst (dynamicRouteHandler config disk now req res w),
       abstractWorld (snd (dynamicRouteHandler config disk now req res w)))
  ∧ cacheConsistent
      (schemaCache (snd (dynamicRouteHandler config disk now req res w)))
  ∧ colonFreeNames
      (schemaCache (snd (dynamicRouteHandler config disk now req res w))).
Proof.
  intros Hc Hnames.
  unfold dynamicRouteHandler, specRouter.dynamicRouteHandler.
  destruct (findTypeForUrl disk (url req) (allDirs config)) as [mapping|]
    eqn:Hm; [|done].
  pose proof (word_colonFree _ (findTypeForUrl_word _ _ _ Hm)) as Hname.
  destruct (forcedError (forcedStatus res)) as [code|]; [done|].
  destruct (cacheable config mapping) eqn:Hcacheable; simpl.
  - rewrite (abstraction_get _ _ (filePath mapping) Hc Hnames Hname).
    destruct (cache.get (schemaCache w) (typeName mapping)
                (filePath mapping)) as [entry|]; simpl; [done|].
    destruct (generate mapping (generator w))
      as [[message|payload] g]; simpl; [done|].
    split; [|split].
    + unfold abstractWorld, withCache, specRouter.withCache. simpl.
      by rewrite (abstraction_set _ _ _ _ _ Hc Hnames Hname).
    + by apply cacheConsistent_set.
    + by apply colonFreeNames_set.
  - by destruct (generate mapping (generator w))
      as [[message|payload] g].
Qed.

End HandlerOnSourceCache.

Lemma twoFiles_consistent : cacheConsistent twoFiles.
Proof.
  apply cacheConsistent_set, cacheConsistent_set, cacheConsistent_create.
Qed.

Lemma twoFiles_colonFree : colonFreeNames twoFiles.
Proof.
  repeat (apply colonFreeNames_set; [reflexivity|]). apply Forall_nil_2.
Qed.

Lemma handler_on_source_cache_witness :
  body (fst (@router.dynamicRouteHandler sample.inflector nat
               sample.counting sample.config sample.disk 30
               (sample.GET "/api/user") sample.expressResponse
               {| schemaCache := twoFiles; generator := 7%nat;
                  trace := [] |}))
  = body (fst (@specRouter.dynamicRouteHandler sample.inflector nat
                 sample.counting sample.config sample.disk 30
                 (sample.GET "/api/user") sample.expressResponse
                 (abstractWorld
                    {| schemaCache := twoFiles; generator := 7%nat;
                       trace := [] |}))).
Proof.
  rewrite (proj1 (@handler_on_source_cache sample.inflector nat
                    sample.counting sample.config sample.disk 30
                    (sample.GET "/api/user") sample.expressResponse
                    {| schemaCache := twoFiles; generator := 7%nat;
                       trace := [] |}
                    twoFiles_consistent twoFiles_colonFree)).
  reflexivity.
Defined.

Section WatcherRefinement.
Import fileWatcher.
Context {G : Type}.

(** X24.  The watcher on the cache of the specification against the
    watcher on the cache of the sources, from a consistent cache whose
    names hold no colon: after any event the two caches correspond by the
    abstraction, and the two logs are the same whenever [invalidateFile]
    logs nothing (no entry of the file was cached); otherwise the log of
    the sources has that one line more. *)
Theorem watcher_refines_model (w : World G) (ev : WatchEvent) :
  cacheConsistent (schemaCache w) →
  colonFreeNames (schemaCache w) →
  let model :=
    specWatcher.onEvent (Some specWatcher.onReload) ev (abstractWorld w) in
  let real := onEvent (Some server.onReload) ev w in
  specRouter.schemaCache model = abstraction (schemaCache real)
  ∧ specRouter.generator model = generator w
  ∧ length (trace real)
      = (length (specRouter.trace model)
         + length (invalidatedBy (schemaCache w) ev))%nat
  ∧ (invalidatedBy (schemaCache w) ev = [] →
     trace real = specRouter.trace model).
Proof.
  intros Hc Hnames. pose proof Hc as (Hdup & _ & _).
  assert (Hinv : ∀ p, cache.invalidateFile (schemaCache w) p
            = (fst (cache.invalidateFile (schemaCache w) p),
               invalidatedLine (schemaCache w) p)).
  { intros p. by rewrite (invalidateFile_cache _ p Hdup). }
  destruct ev as [p|p|p|m|]; simpl.
  - unfold invalidate, callReload, specWatcher.callReload,
      server.onReload, specWatcher.onReload, specWatcher.invalidate. simpl.
    rewrite (Hinv p). simpl.
    rewrite <- (proj1 (abstraction_invalidateFile _ p Hc Hnames)).
    split; [done|]. split; [done|]. split.
    + rewrite !length_app. simpl. lia.
    + intros ->. by rewrite app_nil_r.
  - unfold callReload, specWatcher.callReload, server.onReload,
      specWatcher.onReload. simpl.
    split; [done|]. split; [done|]. split; [|done].
    rewrite !length_app. simpl. lia.
  - unfold invalidate, specWatcher.invalidate. simpl.
    rewrite (Hinv p). simpl.
    rewrite <- (proj1 (abstraction_invalidateFile _ p Hc Hnames)).
    split; [done|]. split; [done|]. split.
    + rewrite !length_app. simpl. lia.
    + intros ->. by rewrite app_nil_r.
  - split; [done|]. split; [done|]. split; [|done].
    rewrite !length_app. simpl. lia.
  - split; [done|]. split; [done|]. split; [|done].
    rewrite !length_app. simpl. lia.
Qed.

End WatcherRefinement.

Lemma watcher_refines_model_witness :
  length (trace
            (fileWatcher.onEvent (Some server.onReload)
               (fileWatcher.Change "/contracts/user.ts")
               {| schemaCache := twoFiles; generator := 0%nat;
                  trace := [] |}))
  = 3%nat.
Proof.
  rewrite (proj1 (proj2 (proj2
             (@watcher_refines_model nat
                {| schemaCache := twoFiles; generator := 0%nat;
                   trace := [] |}
                (fileWatcher.Change "/contracts/user.ts")
                twoFiles_consistent twoFiles_colonFree)))).
  reflexivity.
Defined.

(** ** The file watcher *)

Section WatcherClaims.
Import typeMapping router fileWatcher.
Context `{Pluralize} {G : Type} `{MockGenerator G}.

Lemma since_app (w w' : World G) events :
  trace w' = trace w ++ events → since w w' = events.
Proof. intros Ht. unfold since. rewrite Ht. apply drop_app_length. Qed.

Lemma handler_builds config disk now req res (w : World G) :
  ∃ rest,
    since w (snd (dynamicRouteHandler config disk now req res w))
      = TypeMapBuilt (allDirs config) :: rest.
Proof.
  unfold dynamicRouteHandler.
  destruct (findTypeForUrl _ _ _) as [mapping|];
    [|exists []; by apply since_app].
  destruct (forcedError _); [exists []; by apply since_app|].
  destruct (if cacheable config mapping then _ else _) as [entry|];
    [exists []; by apply since_app|].
  destruct (generate _ _) as [[message|payload] g].
  - eexists. apply since_app. simpl. by rewrite <- app_assoc.
  - exists []. apply since_app. by destruct (cacheable config mapping).
Qed.

Lemma isTypeMapBuilt_invalidatedLine c path :
  existsb isTypeMapBuilt (invalidatedLine c path) = false.
Proof. unfold invalidatedLine. by destruct (0 <? _)%nat. Qed.

(** C4, as the code has it.  The cache is in a state the class can be in,
    with names without a colon, as the handler leaves it.  On a change or
    unlink event for a path the watcher removes the cache entries of that
    file, and no others, and the cache logs how many went when some did;
    on an add event, a watcher error or the ready event the cache stays as
    it is, an error being logged only.  The reload callback of the server,
    which logs, is called on change and add.  No event makes the watcher
    build the type map, and nothing needs to: no catalog is kept, every
    request builds the map from the configured directories first. *)
Theorem watcher_invalidates_without_rebuild (w : World G) (path : string) :
  cacheConsistent (schemaCache w) →
  colonFreeNames (schemaCache w) →
  let handle := onEvent (Some server.onReload) in
  (∀ ev, ev = Change path ∨ ev = Unlink path →
     cache.cache (schemaCache (handle ev w))
       = filter (λ e, negb (ofFile path e) = true)
           (cache.cache (schemaCache w))
     ∧ cache.enabled (schemaCache (handle ev w))
         = cache.enabled (schemaCache w)
     ∧ (∀ name, colonFree name = true →
          cache.get (schemaCache (handle ev w)) name path = None)
     ∧ (∀ name file, colonFree name = true → file ≠ path →
          cache.get (schemaCache (handle ev w)) name file
            = cache.get (schemaCache w) name file))
  ∧ schemaCache (handle (Add path) w) = schemaCache w
  ∧ (∀ message,
       schemaCache (handle (Failure message) w) = schemaCache w
       ∧ since w (handle (Failure message) w)
           = [Logged Error ("File watcher error: " +:+ message)])
  ∧ since w (handle (Change path) w)
      = [Logged Info ("File changed: " +:+ fs.basename path)]
          ++ invalidatedLine (schemaCache w) path
          ++ [Logged Info ("Contract updated: " +:+ path)]
  ∧ since w (handle (Unlink path) w)
      = [Logged Warn ("File deleted: " +:+ fs.basename path)]
          ++ invalidatedLine (schemaCache w) path
  ∧ since w (handle (Add path) w)
      = [Logged Success ("New file detected: " +:+ fs.basename path);
         Logged Info ("Contract updated: " +:+ path)]
  ∧ (∀ ev, generator (handle ev w) = generator w
           ∧ existsb isTypeMapBuilt (since w (handle ev w)) = false)
  ∧ (∀ config disk now req res,
       ∃ rest,
         since w (snd (dynamicRouteHandler config disk now req res w))
           = TypeMapBuilt (allDirs config) :: rest).
Proof.
  intros Hc Hnames. simpl. pose proof Hc as (Hdup & _ & _).
  assert (Hinv : ∀ p w', schemaCache w' = schemaCache w →
            generator w' = generator w →
            invalidate p w' =
              {| schemaCache := fst (cache.invalidateFile (schemaCache w) p);
                 generator := generator w;
                 trace := trace w' ++ invalidatedLine (schemaCache w) p |}).
  { intros p w' Hw' Hg. unfold invalidate. rewrite Hw', Hg.
    by rewrite (invalidateFile_cache _ p Hdup). }
  assert (Hchange : ∀ p,
            since w (onEvent (Some server.onReload) (Change p) w)
            = [Logged Info ("File changed: " +:+ fs.basename p)]
                ++ invalidatedLine (schemaCache w) p
                ++ [Logged Info ("Contract updated: " +:+ p)]).
  { intros p. apply since_app. simpl. unfold callReload, server.onReload.
    rewrite Hinv by done. simpl. by rewrite <- !app_assoc. }
  assert (Hunlink : ∀ p,
            since w (onEvent (Some server.onReload) (Unlink p) w)
            = [Logged Warn ("File deleted: " +:+ fs.basename p)]
                ++ invalidatedLine (schemaCache w) p).
  { intros p. apply since_app. simpl. rewrite Hinv by done. simpl.
    by rewrite <- !app_assoc. }
  assert (Hadd : ∀ p,
            since w (onEvent (Some server.onReload) (Add p) w)
            = [Logged Success ("New file detected: " +:+ fs.basename p);
               Logged Info ("Contract updated: " +:+ p)]).
  { intros p. apply since_app. simpl. by rewrite <- app_assoc. }
  split.
  { intros ev Hev.
    assert (Hcache : schemaCache (onEvent (Some server.onReload) ev w)
              = fst (cache.invalidateFile (schemaCache w) path)).
    { destruct Hev as [-> | ->]; simpl; unfold callReload, server.onReload;
        by rewrite Hinv. }
    rewrite Hcache, (invalidateFile_cache _ path Hdup). simpl.
    split; [done|]. split; [done|].
    pose proof (λ name file Hname,
      get_invalidateFile (schemaCache w) path name file Hc Hnames Hname)
      as Hget.
    rewrite (invalidateFile_cache _ path Hdup) in Hget. simpl in Hget.
    split.
    - intros name Hname. rewrite (Hget name path Hname).
      by rewrite decide_True.
    - intros name file Hname Hne. rewrite (Hget name file Hname).
      by rewrite decide_False. }
  split; [done|].
  split; [intros message; split; [done|by apply since_app]|].
  split; [apply Hchange|]. split; [apply Hunlink|]. split; [apply Hadd|].
  split.
  - intros ev. split.
    + destruct ev as [p|p|p|m|]; simpl; try done.
      * unfold callReload, server.onReload. by rewrite Hinv.
      * by rewrite Hinv.
    + destruct ev as [p|p|p|m|].
      * rewrite Hchange, !existsb_app, isTypeMapBuilt_invalidatedLine. done.
      * by rewrite Hadd.
      * rewrite Hunlink, !existsb_app, isTypeMapBuilt_invalidatedLine. done.
      * by rewrite (since_app w _ [Logged Error
                      ("File watcher error: " +:+ m)]).
      * by rewrite (since_app w _ [Logged Success "File watcher ready"]).
  - intros. apply handler_builds.
Qed.

End WatcherClaims.

Lemma watcher_invalidates_without_rebuild_witness :
  cache.cache
    (schemaCache
       (fileWatcher.onEvent (Some server.onReload)
          (fileWatcher.Unlink "/contracts/user.ts")
          {| schemaCache := twoFiles; generator := O; trace := [] |}))
  = [("/contracts/models/order.ts::Order",
      {| cache.interfaceName := "Order";
         cache.filePath := "/contracts/models/order.ts";
         cache.schema := JObj [("id", JNum 2)];
         cache.lastUpdated := 20 |})].
Proof.
  rewrite (proj1 (proj1 (@watcher_invalidates_without_rebuild
                           sample.inflector nat sample.counting
                           {| schemaCache := twoFiles; generator := O;
                              trace := [] |}
                           "/contracts/user.ts"
                           twoFiles_consistent twoFiles_colonFree)
                    (fileWatcher.Unlink "/contracts/user.ts")
                    (or_intror eq_refl))).
  reflexivity.
Defined.

(** C4, counterexample.  Handling a change event builds no type map: the
    events it records are the two log lines. *)
Lemma change_event_builds_no_type_map :
  since sample.world
    (fileWatcher.onEvent (Some server.onReload)
       (fileWatcher.Change "/contracts/user.ts") sample.world)
  = [Logged Info "File changed: user.ts";
     Logged Info "Contract updated: /contracts/user.ts"]
  ∧ existsb isTypeMapBuilt
      (since sample.world
         (fileWatcher.onEvent (Some server.onReload)
            (fileWatcher.Change "/contracts/user.ts") sample.world))
    = false.
Proof. split; reflexivity. Qed.

(** ** Two requests for one route *)

Section ReplayFacts.
Import typeMapping router fileWatcher.
Context `{Pluralize} {G : Type} `{MockGenerator G}.
Context (config : ServerConfig) (disk : fs.FileSystem).






End ReplayFacts.

Section ReplayClaims.
Import typeMapping router.
Context `{Pluralize} {G : Type} `{MockGenerator G}.
Context (config : ServerConfig) (disk : fs.FileSystem).


End ReplayClaims.



(** ** The mock/proxy decision *)

Section Gate.
Import proxy server.
Context `{Pluralize} `{PluralizeWord} `{Upstream} `{Express}.
Context {G : Type} `{Intermock G}.
Context (config : ServerConfig) (started disk : fs.FileSystem).

Local Abbreviation forwardedIn l := (filter (λ e, isForwarded e = true) l).

Lemma targetConfigured_true :
  targetConfigured config = true →
  ∃ target, targetUrl config = Some target ∧ JS.truthy target = true.
Proof.
  unfold targetConfigured. destruct (targetUrl config) as [t|]; [|done].
  eauto.
Qed.

Lemma since_trace (w w' : World G) events :
  trace w' = trace w ++ events → since w w' = events.
Proof. intros Ht. unfold since. rewrite Ht. apply drop_app_length. Qed.

(** The status override logs at most a warning; it and the latency
    middleware leave the cache alone. *)
Lemma middlewares_effect req (res : ResponseObject) (w : World G) :
  instanceofResponse (fst (middlewares config req res w))
    = instanceofResponse res
  ∧ schemaCache (snd (middlewares config req res w)) = schemaCache w
  ∧ ∃ l, trace (snd (middlewares config req res w)) = trace w ++ l
         ∧ forwardedIn l = [].
Proof.
  unfold middlewares, statusOverride.statusOverrideMiddleware.
  assert (Hlatency : ∀ w' : World G,
            schemaCache (match latency config with
                         | Some _ => latency.latencyMiddleware w'
                         | None => w'
                         end) = schemaCache w'
            ∧ trace (match latency config with
                     | Some _ => latency.latencyMiddleware w'
                     | None => w'
                     end) = trace w')
    by (intros w'; by destruct (latency config)).
  assert (Hquiet : ∃ l, trace w = trace w ++ l ∧ forwardedIn l = [])
    by (exists []; by rewrite app_nil_r).
  destruct (headers req !! "x-mock-status") as [v|]; simpl;
    [|by rewrite !(proj1 (Hlatency _)), !(proj2 (Hlatency _))].
  destruct (JS.truthy v); simpl;
    [|by rewrite !(proj1 (Hlatency _)), !(proj2 (Hlatency _))].
  destruct (JS.parseInt v) as [n|]; simpl.
  - destruct ((100 <=? n) && (n <? 600)); simpl;
      rewrite !(proj1 (Hlatency _)), !(proj2 (Hlatency _)); simpl;
      [done|].
    split; [done|]. split; [done|]. by eexists [_].
  - rewrite !(proj1 (Hlatency _)), !(proj2 (Hlatency _)). simpl.
    split; [done|]. split; [done|]. by eexists [_].
Qed.

(** The mock route hands nothing to the upstream. *)
Lemma mockRoute_quiet now req res (w : World G) :
  ∃ l, trace (snd (mockRoute config disk now req res w)) = trace w ++ l
       ∧ forwardedIn l = [].
Proof.
  unfold mockRoute, router.dynamicRouteHandler.
  destruct (typeMapping.findTypeForUrl _ _ _) as [mapping|];
    [|by eexists [_]].
  destruct (router.forcedError _); [by eexists [_]|].
  destruct (if router.cacheable config mapping then _ else _) as [entry|];
    [by eexists [_]|].
  destruct (router.generate _ _) as [[message|payload] g]; simpl.
  - eexists [_; _]. by rewrite <- app_assoc.
  - eexists [_]. by destruct (router.cacheable config mapping).
Qed.

(** The proxy middleware hands the request to the upstream once; the
    reply of the upstream is the reply. *)
Lemma proxyMiddleware_forwards target req res (w : World G) :
  (∃ tail, trace (snd (proxyMiddleware target req res w))
             = trace w ++ Forwarded target req :: tail
           ∧ forwardedIn tail = [])
  ∧ schemaCache (snd (proxyMiddleware target req res w)) = schemaCache w
  ∧ generator (snd (proxyMiddleware target req res w)) = generator w
  ∧ (∀ reply, forward target req = inl reply →
       fst (proxyMiddleware target req res w) = Replied reply).
Proof.
  unfold proxyMiddleware.
  destruct (forward target req) as [reply|message]; simpl.
  - split; [|by repeat split; [intros ? [= ->]]].
    eexists [_]. by rewrite <- app_assoc.
  - unfold onError. split.
    + destruct (instanceofResponse res); simpl;
        eexists [_; _]; by rewrite <- !app_assoc.
    + by destruct (instanceofResponse res).
Qed.

(** C3.  [T] is the type the URL of the request resolves to.  With a target
    URL configured, the gate passes the request it is given on to the rest
    of the chain (the mock route) when some file of the scanned
    directories declares [T], and hands it to the upstream proxy when none
    does: the request is forwarded once, the reply of the upstream is the
    reply, and the rest of the chain is not run.  Without a target the
    gate passes everything on, and [createServer] does not even mount it.
    In the application the same holds of every request that gets as far
    as the gate, that is, which the packages mounted before it (CORS, the
    body parsers), the health route and the Swagger pages do not answer:
    it is served by the mock route, with nothing handed to the upstream,
    or it is forwarded, with no mock generated. *)
Theorem gate_decision (readings : Readings) (req : Request)
    (res : ResponseObject) (next : World G → Outcome * World G)
    (w : World G) :
  let T := pluralize.typeName (pluralize.parseUrlToType (url req)) in
  let built := emit (TypeMapBuilt (allDirs config)) in
  let res1 := fst (middlewares config req res w) in
  let w1 := snd (middlewares config req res w) in
  let served := createServer config started disk readings req res w in
  (targetConfigured config = true →
   known disk (allDirs config) T = true →
   createProxyFallback config disk req res next w = next (built w))
  ∧ (targetConfigured config = true →
     known disk (allDirs config) T = false →
     ∃ target, targetUrl config = Some target
       ∧ createProxyFallback config disk req res next w
           = proxyMiddleware target req res (built w)
       ∧ forwardedIn (since w (snd (createProxyFallback config disk req res
                                      next w)))
           = [Forwarded target req]
       ∧ (∀ reply, forward target req = inl reply →
            fst (createProxyFallback config disk req res next w)
              = Replied reply))
  ∧ (targetConfigured config = false →
     createProxyFallback config disk req res next w = next w)
  ∧ (cors req = None →
     bodyParsers req = None →
     getRoute "/health" req = false →
     swaggerUi (swagger.generateOpenAPISpec started config) req = None →
     (targetConfigured config = true →
      known disk (allDirs config) T = true →
      served = mockRoute config disk (dateNow readings 0) req res1 (built w1)
      ∧ forwardedIn (since w (snd served)) = [])
     ∧ (targetConfigured config = true →
        known disk (allDirs config) T = false →
        ∃ target, targetUrl config = Some target
          ∧ served = proxyMiddleware target req res1 (built w1)
          ∧ forwardedIn (since w (snd served)) = [Forwarded target req]
          ∧ (∀ reply, forward target req = inl reply →
               fst served = Replied reply)
          ∧ schemaCache (snd served) = schemaCache w
          ∧ generator (snd served) = generator w1)
     ∧ (targetConfigured config = false →
        served = mockRoute config disk (dateNow readings 0) req res1 w1
        ∧ forwardedIn (since w (snd served)) = [])).
Proof.
  intros T built res1 w1 served.
  assert (Hknown : targetConfigured config = true →
            known disk (allDirs config) T = true →
            createProxyFallback config disk req res next w = next (built w)).
  { intros Hc Hk.
    apply targetConfigured_true in Hc as (target & Ht & Htruthy).
    unfold createProxyFallback. rewrite Ht, Htruthy.
    destruct (findTypeForUrl_known disk _ _ Hk) as [mapping ->]. done. }
  assert (Hunknown : ∀ (res' : ResponseObject) next' (w' : World G),
            targetConfigured config = true →
            known disk (allDirs config) T = false →
            ∃ target, targetUrl config = Some target
              ∧ createProxyFallback config disk req res' next' w'
                  = proxyMiddleware target req res'
                      (emit (TypeMapBuilt (allDirs config)) w')).
  { intros res' next' w' Hc Hk.
    apply targetConfigured_true in Hc as (target & Ht & Htruthy).
    exists target. split; [done|]. unfold createProxyFallback.
    rewrite Ht, Htruthy. by rewrite (findTypeForUrl_unknown disk _ _ Hk). }
  assert (Hforwarded : ∀ target (res' : ResponseObject) (w0 w' : World G) l,
            trace w' = trace w0 ++ l → forwardedIn l = [] →
            forwardedIn
              (since w0 (snd (proxyMiddleware target req res'
                                (emit (TypeMapBuilt (allDirs config)) w'))))
            = [Forwarded target req]).
  { intros target res' w0 w' l Hl Hnone.
    destruct (proxyMiddleware_forwards target req res'
                (emit (TypeMapBuilt (allDirs config)) w'))
      as ((tail & Htail & Hquiet) & _).
    erewrite since_trace;
      [|rewrite Htail; simpl; rewrite Hl, <- !app_assoc; reflexivity].
    rewrite !filter_app, Hnone.
    rewrite filter_cons_False, filter_nil by (simpl; auto).
    rewrite filter_cons_True by done. by rewrite Hquiet. }
  split; [exact Hknown|]. split.
  { intros Hc Hk. destruct (Hunknown res next w Hc Hk) as (target & Ht & Hp).
    exists target. split; [done|]. split; [done|]. rewrite Hp. split.
    - apply (Hforwarded target res w w []); [by rewrite app_nil_r|done].
    - apply proxyMiddleware_forwards. }
  split.
  { intros Hc. unfold createProxyFallback. unfold targetConfigured in Hc.
    destruct (targetUrl config) as [t|]; [|done]. by rewrite Hc. }
  intros Hcors Hbody Hhealth Hdocs.
  destruct (middlewares_effect req res w) as (_ & Hcache & l & Hl & Hnone).
  fold w1 in Hcache, Hl.
  assert (Hserved : served = routes config started disk readings req res1 w1).
  { subst served res1 w1. unfold createServer. rewrite Hcors, Hbody.
    by destruct (middlewares config req res w). }
  unfold routes in Hserved. rewrite Hhealth, Hdocs in Hserved.
  assert (Hmock : ∀ w', trace w' = trace w ++ l ∨
                        trace w' = trace w ++ l
                                     ++ [TypeMapBuilt (allDirs config)] →
            forwardedIn
              (since w (snd (mockRoute config disk (dateNow readings 0) req
                               res1 w'))) = []).
  { intros w' Hw'.
    destruct (mockRoute_quiet (dateNow readings 0) req res1 w')
      as (l' & Hl' & Hnone').
    destruct Hw' as [Hw'|Hw']; rewrite Hw' in Hl';
      (erewrite since_trace; [|rewrite Hl', <- ?app_assoc; reflexivity]);
      rewrite !filter_app, Hnone, Hnone'; done. }
  split; [|split].
  - intros Hc Hk. rewrite Hc in Hserved.
    apply targetConfigured_true in Hc as (target & Ht & Htruthy).
    unfold createProxyFallback in Hserved. rewrite Ht, Htruthy in Hserved.
    destruct (findTypeForUrl_known disk _ _ Hk) as [mapping Hm].
    rewrite Hm in Hserved. split; [done|]. rewrite Hserved.
    apply Hmock. right. simpl. by rewrite Hl, <- app_assoc.
  - intros Hc Hk. rewrite Hc in Hserved.
    destruct (Hunknown res1
                (mockRoute config disk (dateNow readings 0) req res1) w1
                Hc Hk) as (target & Ht & Hp).
    rewrite Hp in Hserved. exists target. split; [done|]. split; [done|].
    rewrite Hserved.
    destruct (proxyMiddleware_forwards target req res1 (built w1))
      as (_ & Hc' & Hg' & Hreply).
    split; [by apply (Hforwarded target res1 w w1 l)|].
    split; [done|]. split; [|done]. by etrans.
  - intros Hc. rewrite Hc in Hserved. split; [done|]. rewrite Hserved.
    apply Hmock. by left.
Qed.

End Gate.

(** ** Upstream failures *)

Section ProxyErrors.
Import proxy server.
Context `{Pluralize} `{PluralizeWord} `{Upstream} `{Express}.
Context {G : Type} `{Intermock G}.
Context (config : ServerConfig) (started disk : fs.FileSystem).

(** The error callback writes the 502 reply when its guard holds. *)
Lemma onError_guarded message (res : ResponseObject) (w : World G) :
  instanceofResponse res = true →
  fst (onError message res w)
    = Replied {| status := 502; body := proxyErrorBody message |}.
Proof. intros Hres. unfold onError. by rewrite Hres. Qed.

(** A request the packages and routes before the gate do not answer, for
    a type no file declares, is given to the proxy middleware. *)
Lemma unknown_type_forwarded readings req (res : ResponseObject)
    (w : World G) target :
  cors req = None →
  bodyParsers req = None →
  getRoute "/health" req = false →
  swaggerUi (swagger.generateOpenAPISpec started config) req = None →
  targetUrl config = Some target →
  JS.truthy target = true →
  known disk (allDirs config)
    (pluralize.typeName (pluralize.parseUrlToType (url req))) = false →
  createServer config started disk readings req res w
    = proxyMiddleware target req (fst (middlewares config req res w))
        (emit (TypeMapBuilt (allDirs config))
           (snd (middlewares config req res w))).
Proof.
  intros Hcors Hbody Hhealth Hdocs Ht Htruthy Hk.
  unfold createServer. rewrite Hcors, Hbody.
  destruct (middlewares config req res w) as [res1 w1]. simpl.
  unfold routes, targetConfigured, createProxyFallback.
  rewrite Hhealth, Hdocs, Ht, Htruthy.
  by rewrite (findTypeForUrl_unknown disk _ _ Hk).
Qed.

(** C7, on the code.  A request for an unknown type that gets as far as
    the gate is forwarded; when the one attempt fails, the error callback
    logs the failure and writes the 502 reply only under its guard
    [res instanceof Response].  For a response object that is no instance
    of [Response] the request is left unanswered: no 502, no mock (the
    data library is not called: the generator is as the middlewares left
    it, and the cache is untouched), one forwarding attempt. *)
Theorem upstream_failure_unanswered (readings : Readings) (req : Request)
    (res : ResponseObject) (w : World G) (target message : string) :
  cors req = None →
  bodyParsers req = None →
  getRoute "/health" req = false →
  swaggerUi (swagger.generateOpenAPISpec started config) req = None →
  targetUrl config = Some target →
  JS.truthy target = true →
  known disk (allDirs config)
    (pluralize.typeName (pluralize.parseUrlToType (url req))) = false →
  forward target req = inr message →
  instanceofResponse res = false →
  let served := createServer config started disk readings req res w in
  fst served = Unanswered
  ∧ generator (snd served) = generator (snd (middlewares config req res w))
  ∧ schemaCache (snd served) = schemaCache w
  ∧ length (filter (λ e, isForwarded e = true) (since w (snd served))) = 1%nat
  ∧ last (trace (snd served))
      = Some (Logged Error ("[PROXY] Error: " +:+ message)).
Proof.
  intros Hcors Hbody Hhealth Hdocs Ht Htruthy Hk Hfail Hres served.
  subst served.
  rewrite (unknown_type_forwarded readings req res w target) by done.
  destruct (middlewares_effect config req res w)
    as (Hinst & Hcache & l & Hl & Hnone).
  destruct (middlewares config req res w) as [res1 w1].
  simpl in Hinst, Hcache, Hl |- *.
  unfold proxyMiddleware. rewrite Hfail. unfold onError.
  rewrite Hinst, Hres. simpl.
  split; [done|]. split; [done|]. split; [done|]. split.
  - erewrite since_trace; [|simpl; rewrite Hl, <- !app_assoc; reflexivity].
    rewrite !filter_app, Hnone. done.
  - by rewrite last_snoc.
Qed.

(** Under the guard, the failure of the forwarded request is reported as
    the 502 reply. *)
Lemma upstream_failure_reported_under_guard (readings : Readings)
    (req : Request) (res : ResponseObject) (w : World G)
    (target message : string) :
  cors req = None →
  bodyParsers req = None →
  getRoute "/health" req = false →
  swaggerUi (swagger.generateOpenAPISpec started config) req = None →
  targetUrl config = Some target →
  JS.truthy target = true →
  known disk (allDirs config)
    (pluralize.typeName (pluralize.parseUrlToType (url req))) = false →
  forward target req = inr message →
  instanceofResponse res = true →
  fst (createServer config started disk readings req res w)
    = Replied {| status := 502; body := proxyErrorBody message |}.
Proof.
  intros Hcors Hbody Hhealth Hdocs Ht Htruthy Hk Hfail Hres.
  rewrite (unknown_type_forwarded readings req res w target) by done.
  destruct (middlewares_effect config req res w) as (Hinst & _).
  destruct (middlewares config req res w) as [res1 w1]. simpl in Hinst |- *.
  unfold proxyMiddleware. rewrite Hfail. apply onError_guarded. congruence.
Qed.

End ProxyErrors.

Lemma upstream_failure_unanswered_witness :
  @server.createServer sample.inflector addS sample.refusing sample.express
    nat numbering sample.proxied sample.disk sample.disk sample.readings
    (sample.GET "/api/things") sample.expressResponse sample.world
  = (proxy.Unanswered,
     {| schemaCache := cache.create true; generator := O;
        trace :=
          [TypeMapBuilt ["/contracts"];
           Forwarded "http://127.0.0.1:9" (sample.GET "/api/things");
           Logged Info
             "[PROXY] Forwarding GET /api/things -> http://127.0.0.1:9";
           Logged Error
             "[PROXY] Error: connect ECONNREFUSED 127.0.0.1:9"] |})
  ∧ fst (@server.createServer sample.inflector addS sample.refusing
           sample.express nat numbering sample.proxied sample.disk
           sample.disk sample.readings (sample.GET "/api/things")
           sample.expressResponse sample.world)
    = proxy.Unanswered.
Proof.
  split; [reflexivity|].
  exact (proj1 (@upstream_failure_unanswered sample.inflector addS
                  sample.refusing sample.express nat numbering
                  sample.proxied sample.disk sample.disk sample.readings
                  (sample.GET "/api/things") sample.expressResponse
                  sample.world "http://127.0.0.1:9"
                  "connect ECONNREFUSED 127.0.0.1:9"
                  eq_refl eq_refl eq_refl eq_refl eq_refl eq_refl eq_refl
                  eq_refl eq_refl)).
Defined.

(** ** The sample server at work *)

Example extractInterfaceNames_sample :
  typeMapping.extractInterfaceNames sample.disk "/contracts/user.ts"
  = ["User"; "UserProfile"].
Proof. reflexivity. Qed.

Example findTypeScriptFiles_sample :
  typeMapping.findTypeScriptFiles sample.disk "/contracts"
  = ["/contracts/user.ts"; "/contracts/models/order.ts"].
Proof. reflexivity. Qed.

Example parseInt_reads_a_prefix :
  JS.parseInt "  404abc" = Some 404 ∧ JS.parseInt "abc" = None
  ∧ JS.parseInt "-12" = Some (-12).
Proof. repeat split; reflexivity. Qed.

Example forced_error_sample :
  fst (@server.createServer sample.inflector addS sample.refusing
         sample.express nat numbering sample.config sample.disk sample.disk
         sample.readings (sample.GETwith "/api/user" "503")
         sample.expressResponse sample.world)
  = proxy.Replied {| status := 503; body := router.forcedErrorBody 503 |}.
Proof. reflexivity. Qed.

Example array_route_sample :
  let first :=
    @router.dynamicRouteHandler sample.inflector nat sample.counting
      sample.config sample.disk 1 (sample.GET "/api/users")
      sample.expressResponse sample.world in
  let second :=
    @router.dynamicRouteHandler sample.inflector nat sample.counting
      sample.config sample.disk 2 (sample.GET "/api/users")
      sample.expressResponse (snd first) in
  body (fst first) = JArr [JObj [("id", JNum 0)]]
  ∧ body (fst second) = JArr [JObj [("id", JNum 1)]]
  ∧ schemaCache (snd second) = cache.create true.
Proof. repeat split; reflexivity. Qed.

Example uncached_route_sample :
  let first :=
    @router.dynamicRouteHandler sample.inflector nat sample.counting
      sample.uncached sample.disk 1 (sample.GET "/api/user")
      sample.expressResponse sample.world in
  let second :=
    @router.dynamicRouteHandler sample.inflector nat sample.counting
      sample.uncached sample.disk 2 (sample.GET "/api/user")
      sample.expressResponse (snd first) in
  body (fst first) = JObj [("id", JNum 0)]
  ∧ body (fst second) = JObj [("id", JNum 1)].
Proof. repeat split; reflexivity. Qed.

Example known_type_is_mocked_sample :
  fst (@server.createServer sample.inflector addS sample.refusing
         sample.express nat numbering sample.proxied sample.disk sample.disk
         sample.readings (sample.GET "/api/order") sample.expressResponse
         sample.world)
  = proxy.Replied {| status := 200; body := JObj [("id", JNum 0)] |}.
Proof. reflexivity. Qed.

(** The health route answers whatever the contracts declare, and before
    the gate: a type called "Health" is never mocked at "/health". *)
Example health_route_sample :
  fst (@server.createServer sample.inflector addS sample.refusing
         sample.express nat numbering sample.proxied sample.disk sample.disk
         sample.readings (sample.GET "/health") sample.expressResponse
         sample.world)
  = proxy.Replied
      {| status := 200;
         body :=
           JObj [("status", JStr "ok"); ("uptime", JNum 60);
                 ("cache",
                  JObj [("size", JNum 0); ("enabled", JBool true);
                        ("schemas", JArr [])]);
                 ("config",
                  JObj [("contractsDir", JStr "/contracts");
                        ("port", JNum 8080);
                        ("targetUrl", JStr "http://127.0.0.1:9");
                        ("hotReload", JBool true);
                        ("cache", JBool true)])] |}.
Proof. reflexivity. Qed.

(** A preflight request is answered by the CORS package. *)
Example preflight_sample :
  @server.createServer sample.inflector addS sample.refusing
    sample.express nat numbering sample.proxied sample.disk sample.disk
    sample.readings
    {| method := "OPTIONS"; url := "/api/user"; headers := ∅ |}
    sample.expressResponse sample.world
  = (proxy.Replied {| status := 204; body := JNull |}, sample.world).
Proof. reflexivity. Qed.

